(** * openapi-mcp: the reference resolver, the index builder, the cache
      manager and the query engine, embedded and verified.

    Conventions of the embedding.
    - A JavaScript value is a [JValue]; an object is the list of its own
      enumerable properties in enumeration order (the order [Object.entries]
      yields), an array is the list of its elements.  The objects of a
      document are those [JSON.parse] gives: a property named
      [__proto__] is an own property like any other.
    - A lookup [v[k]] or [k in v] is a lookup among the own properties
      of [v].  That is what JavaScript does when [k] is an own property
      of [v] or a name [v] cannot inherit ([ownName]); on another name
      JavaScript finds a member of the prototype chain, a function or a
      prototype object, which no [JValue] stands for.  The theorems
      about a lookup that finds nothing, for a name the caller chooses,
      have [ownName] among their hypotheses.
    - An assignment [o[k] = v] creates or replaces an own property,
      except under the name [__proto__] ([JS.setProperty]).
    - A JavaScript string is represented by the bytes of its UTF-8
      encoding, as a [string]; [toUpperCase] and [toLowerCase] change the
      ASCII letters, which is what JavaScript does on an ASCII string
      ([isAscii]).  Numbers are integers ([Z]); fractional numbers, NaN
      and the infinities are not represented.
    - A JavaScript exception is a [JSError]; code that may throw returns a
      [Res].  Exhaustion of the call stack is not modelled.
    - Asynchronous code is a state machine over the events of the event
      loop (see [getSpec]). *)

From Stdlib Require Import ZArith List String Ascii Bool Lia DecimalString Btauto.
From stdpp Require Import base gmap strings list.

Local Open Scope string_scope.
Local Open Scope Z_scope.
#[local] Set Warnings "-clear-no-such-hyp".

(** ** Strings: the host operations the source calls *)

Module Str.

(** [s.startsWith(p)] *)
Definition startsWith (p s : string) : bool := String.prefix p s.

(** [s.slice(n)] for [0 <= n] *)
Fixpoint slice (n : nat) (s : string) : string :=
  match n, s with
  | O, _ => s
  | S _, EmptyString => EmptyString
  | S n', String _ rest => slice n' rest
  end.

(** [s.split(sep)] for a separator of one character *)
Fixpoint split (sep : ascii) (s : string) : list string :=
  match s with
  | EmptyString => [EmptyString]
  | String c rest =>
      if Ascii.eqb c sep then EmptyString :: split sep rest
      else match split sep rest with
           | [] => [String c EmptyString]
           | seg :: segs => String c seg :: segs
           end
  end.

(** [s.replace(/ab/g, r)]: every occurrence of the two characters [a b],
    scanning left to right without overlap, becomes the character [r]. *)
Fixpoint replacePair (a b r : ascii) (s : string) : string :=
  match s with
  | EmptyString => EmptyString
  | String c tail =>
      match tail with
      | EmptyString => String c EmptyString
      | String c' rest =>
          if Ascii.eqb c a && Ascii.eqb c' b
          then String r (replacePair a b r rest)
          else String c (replacePair a b r tail)
      end
  end.

(** [hay.includes(needle)] *)
Fixpoint includes (needle hay : string) : bool :=
  String.prefix needle hay ||
  match hay with
  | EmptyString => false
  | String _ rest => includes needle rest
  end.

Definition upcase (c : ascii) : ascii :=
  let n := nat_of_ascii c in
  if (97 <=? n)%nat && (n <=? 122)%nat then ascii_of_nat (n - 32) else c.

Definition downcase (c : ascii) : ascii :=
  let n := nat_of_ascii c in
  if (65 <=? n)%nat && (n <=? 90)%nat then ascii_of_nat (n + 32) else c.

Fixpoint mapChars (f : ascii -> ascii) (s : string) : string :=
  match s with
  | EmptyString => EmptyString
  | String c rest => String (f c) (mapChars f rest)
  end.

(** [s.toUpperCase()] and [s.toLowerCase()], exact on ASCII strings (the
    bytes of other characters are left as they are). *)
Definition toUpperCase : string -> string := mapChars upcase.
Definition toLowerCase : string -> string := mapChars downcase.

(** [String(n)] for a natural number: its canonical decimal numeral. *)
Definition ofNat (n : nat) : string := NilEmpty.string_of_uint (Nat.to_uint n).

End Str.

(** ** [decodeURIComponent]

    The ECMAScript [Decode] operation with an empty preserved set, on the
    UTF-8 representation: a [%XX] escape below 0x80 yields that
    character; a lead octet must be followed by the right number of
    escaped continuation octets and the whole must be a well-formed UTF-8
    sequence; every other use of [%] is a [URIError] ([None]). *)

Module URI.

Definition hexDigit (c : ascii) : option N :=
  let n := N_of_ascii c in
  if (48 <=? n)%N && (n <=? 57)%N then Some (n - 48)%N
  else if (65 <=? n)%N && (n <=? 70)%N then Some (n - 55)%N
  else if (97 <=? n)%N && (n <=? 102)%N then Some (n - 87)%N
  else None.

(** number of leading one bits of an octet, capped at 5 *)
Definition leadingOnes (b : N) : nat :=
  if (b <? 128)%N then 0
  else if (b <? 192)%N then 1
  else if (b <? 224)%N then 2
  else if (b <? 240)%N then 3
  else if (b <? 248)%N then 4
  else 5.

Definition within (lo hi b : N) : bool := (lo <=? b)%N && (b <=? hi)%N.
Definition cont (b : N) : bool := within 128 191 b.

(** well-formed UTF-8 sequences of two, three and four octets *)
Definition validUtf8 (octets : list N) : bool :=
  match octets with
  | [b1; b2] => within 194 223 b1 && cont b2
  | [b1; b2; b3] =>
      (N.eqb b1 224 && within 160 191 b2 && cont b3)
      || (within 225 236 b1 && cont b2 && cont b3)
      || (N.eqb b1 237 && within 128 159 b2 && cont b3)
      || (within 238 239 b1 && cont b2 && cont b3)
  | [b1; b2; b3; b4] =>
      (N.eqb b1 240 && within 144 191 b2 && cont b3 && cont b4)
      || (within 241 243 b1 && cont b2 && cont b3 && cont b4)
      || (N.eqb b1 244 && within 128 143 b2 && cont b3 && cont b4)
  | _ => false
  end.

Fixpoint ofOctets (octets : list N) (tail : string) : string :=
  match octets with
  | [] => tail
  | b :: bs => String (ascii_of_N b) (ofOctets bs tail)
  end.

(** where the scan stands inside an escape *)
Inductive Phase :=
| Outside            (* not inside an escape *)
| AfterPercent       (* [%] read, first hex digit expected *)
| AfterHigh (hi : N) (* [%] and the first hex digit read *).

(** [decodeFrom ph pending need s]: [pending] holds the octets of the
    multi-octet sequence being read and [need] how many continuation
    octets are still to come. *)
Fixpoint decodeFrom (ph : Phase) (pending : list N) (need : nat) (s : string)
  : option string :=
  match s with
  | EmptyString =>
      match ph, need with
      | Outside, O => Some EmptyString
      | _, _ => None
      end
  | String c rest =>
      match ph with
      | Outside =>
          if Ascii.eqb c "%" then decodeFrom AfterPercent pending need rest
          else match need with
               | O => String c <$> decodeFrom Outside [] O rest
               | S _ => None
               end
      | AfterPercent =>
          match hexDigit c with
          | Some hi => decodeFrom (AfterHigh hi) pending need rest
          | None => None
          end
      | AfterHigh hi =>
          match hexDigit c with
          | None => None
          | Some lo =>
              let b := (16 * hi + lo)%N in
              match need with
              | O =>
                  match leadingOnes b with
                  | O => String (ascii_of_N b) <$> decodeFrom Outside [] O rest
                  | 2%nat => decodeFrom Outside [b] 1 rest
                  | 3%nat => decodeFrom Outside [b] 2 rest
                  | 4%nat => decodeFrom Outside [b] 3 rest
                  | _ => None
                  end
              | S O =>
                  let octets := (pending ++ [b])%list in
                  if validUtf8 octets
                  then ofOctets octets <$> decodeFrom Outside [] O rest
                  else None
              | S need' => decodeFrom Outside (pending ++ [b])%list need' rest
              end
          end
      end
  end.

Definition decodeURIComponent (s : string) : option string :=
  decodeFrom Outside [] O s.

End URI.

(** ** Values, exceptions *)

Inductive JSError :=
| URIError
| TypeError
| SyntaxError
| Error (message : string).

Inductive Res (A : Type) :=
| Ok (a : A)
| Raise (e : JSError).
Arguments Ok {A} a.
Arguments Raise {A} e.

Unset Elimination Schemes.
Inductive JValue :=
| JUndefined
| JNull
| JBool (b : bool)
| JNum (n : Z)
| JStr (s : string)
| JArr (items : list JValue)
| JObj (props : list (string * JValue)).
Set Elimination Schemes.

Section JValueInduction.
Variable P : JValue -> Prop.
Hypothesis Hundef : P JUndefined.
Hypothesis Hnull : P JNull.
Hypothesis Hbool : forall b, P (JBool b).
Hypothesis Hnum : forall n, P (JNum n).
Hypothesis Hstr : forall s, P (JStr s).
Hypothesis Harr : forall items, Forall P items -> P (JArr items).
Hypothesis Hobj : forall props, Forall (fun kv => P (snd kv)) props -> P (JObj props).

Fixpoint JValue_ind (v : JValue) : P v :=
  match v with
    | JUndefined => Hundef
    | JNull => Hnull
    | JBool b => Hbool b
    | JNum n => Hnum n
    | JStr s => Hstr s
    | JArr items =>
        Harr items
          ((fix all (l : list JValue) : Forall P l :=
              match l with
              | [] => List.Forall_nil P
              | x :: l' => @List.Forall_cons _ P x l' (JValue_ind x) (all l')
              end) items)
    | JObj props =>
        Hobj props
          ((fix all (l : list (string * JValue)) : Forall (fun kv => P (snd kv)) l :=
              match l with
              | [] => List.Forall_nil _
              | kv :: l' => @List.Forall_cons _ _ kv l' (JValue_ind (snd kv)) (all l')
              end) props)
    end.
End JValueInduction.

Module JS.

(** [ToBoolean] *)
Definition truthy (v : JValue) : bool :=
  match v with
  | JUndefined | JNull => false
  | JBool b => b
  | JNum n => negb (n =? 0)
  | JStr s => negb (String.eqb s "")
  | JArr _ | JObj _ => true
  end.

(** [typeof v === 'object'] (which holds of [null] too) *)
Definition typeofObject (v : JValue) : bool :=
  match v with
  | JNull | JArr _ | JObj _ => true
  | _ => false
  end.

Definition nullish (v : JValue) : bool :=
  match v with
  | JUndefined | JNull => true
  | _ => false
  end.

(** the first property named [k] *)
Fixpoint lookup (k : string) (props : list (string * JValue)) : option JValue :=
  match props with
  | [] => None
  | (k', v) :: rest => if String.eqb k k' then Some v else lookup k rest
  end.

(** the index an array of [n] elements has under the property name [k]:
    [k] must be the canonical numeral of a number below [n] *)
Definition arrayIndex (k : string) (n : nat) : option nat :=
  List.find (fun i => String.eqb k (Str.ofNat i)) (List.seq 0 n).

Fixpoint chars (s : string) : list JValue :=
  match s with
  | EmptyString => []
  | String c rest => JStr (String c EmptyString) :: chars rest
  end.

Definition indexed (items : list JValue) (k : string) : option JValue :=
  if String.eqb k "length" then Some (JNum (Z.of_nat (List.length items)))
  else match arrayIndex k (List.length items) with
       | Some i => nth_error items i
       | None => None
       end.

(** the own property [k] of [v], when it has one: objects by name, arrays
    (and strings, exactly when ASCII) by index and [length] *)
Definition getOwn (v : JValue) (k : string) : option JValue :=
  match v with
  | JObj props => lookup k props
  | JArr items => indexed items k
  | JStr s => indexed (chars s) k
  | _ => None
  end.

(** [k in v], for [v] an object or an array *)
Definition has (k : string) (v : JValue) : bool :=
  match getOwn v k with Some _ => true | None => false end.

(** [v[k]] for [v] neither [null] nor [undefined] *)
Definition getProp (v : JValue) (k : string) : JValue :=
  match getOwn v k with Some x => x | None => JUndefined end.

(** [v[k]] in general and [v?.[k]] *)
Definition member (v : JValue) (k : string) : Res JValue :=
  if nullish v then Raise TypeError else Ok (getProp v k).

Definition optMember (v : JValue) (k : string) : JValue :=
  if nullish v then JUndefined else getProp v k.

Fixpoint enumerate (i : nat) (items : list JValue) : list (string * JValue) :=
  match items with
  | [] => []
  | x :: rest => (Str.ofNat i, x) :: enumerate (S i) rest
  end.

(** [Object.entries(v)] and [Object.keys(v)], for [v] not nullish *)
Definition entries (v : JValue) : list (string * JValue) :=
  match v with
  | JObj props => props
  | JArr items => enumerate 0 items
  | JStr s => enumerate 0 (chars s)
  | _ => []
  end.

Definition keys (v : JValue) : list string := List.map fst (entries v).

(** [o[k] = v] on an object under construction: an existing property
    keeps its place, a new one goes last.  (Entries are assigned in
    enumeration order, so integer-like names, which come first in that
    order, are already in place.) *)
Fixpoint assign (k : string) (v : JValue) (props : list (string * JValue))
  : list (string * JValue) :=
  match props with
  | [] => [(k, v)]
  | (k', v') :: rest =>
      if String.eqb k k' then (k', v) :: rest else (k', v') :: assign k v rest
  end.

(** [o[k] = v] on an object the program builds from [{}].  Every name
    but one is created, or replaced, as an own property.  The name
    [__proto__] is not: the assignment finds the setter that
    [Object.prototype] has under that name and runs it, which leaves the
    own properties as they are.  (The setter makes [v] the prototype of
    [o] when [v] is an object or [null]; the program reads no property
    of [o] afterwards, and the own properties of [o] are what
    [JSON.stringify] writes.) *)
Definition setProperty (k : string) (v : JValue) (props : list (string * JValue))
  : list (string * JValue) :=
  if String.eqb k "__proto__" then props else assign k v props.

End JS.

(** ** RefResolver *)

Definition unresolvableRef (ref : string) : JValue :=
  JObj [("$unresolvableRef", JStr ref)].

Definition circularRef (ref : string) : JValue :=
  JObj [("$circularRef", JStr ref)].

(** the property name a pointer segment stands for:
    [decodeURIComponent(segment.replace(/~1/g, '/').replace(/~0/g, '~'))] *)
Definition decodeSegment (segment : string) : option string :=
  URI.decodeURIComponent
    (Str.replacePair "~" "0" "~" (Str.replacePair "~" "1" "/" segment)).

(** the loop of [resolveRef] over the segments still to follow; the
    test [decodedSegment in current] and the lookup are among the own
    properties of [current] (see the conventions, and [ownName]) *)
Fixpoint walk (ref : string) (path : list string) (current : JValue) : Res JValue :=
  match path with
  | [] => Ok current
  | segment :: rest =>
      match decodeSegment segment with
      | None => Raise URIError
      | Some decodedSegment =>
          if JS.truthy current && JS.typeofObject current
             && JS.has decodedSegment current
          then walk ref rest (JS.getProp current decodedSegment)
          else Ok (unresolvableRef ref)
      end
  end.

Definition resolveRef (spec : JValue) (ref : string) : Res JValue :=
  if negb (Str.startsWith "#/" ref) then Ok (unresolvableRef ref)
  else walk ref (Str.split "/" (Str.slice 2 ref)) spec.

(** A computation of the resolver reads and updates [visitedRefs]; it
    returns, throws, or (in the fuelled definition only) stops for lack
    of fuel, which is [None]. *)
Definition M (A : Type) : Type := gset string -> option (Res A * gset string).

Definition ret {A} (a : A) : M A := fun visited => Some (Ok a, visited).

Definition bind {A B} (c : M A) (k : A -> M B) : M B :=
  fun visited =>
    match c visited with
    | Some (Ok a, visited') => k a visited'
    | Some (Raise e, visited') => Some (Raise e, visited')
    | None => None
    end.

Declare Scope resolver_scope.
Delimit Scope resolver_scope with resolver.
Notation "'let*' x := c 'in' k" := (bind c (fun x => k))
  (at level 10, x name, c at level 100, k at level 200) : resolver_scope.

Definition lift {A} (r : Res A) : M A := fun visited => Some (r, visited).

Definition visitedHas (ref : string) : M bool :=
  fun visited => Some (Ok (bool_decide (ref ∈ visited)), visited).
Definition visitedAdd (ref : string) : M unit :=
  fun visited => Some (Ok tt, {[ref]} ∪ visited).
Definition visitedDelete (ref : string) : M unit :=
  fun visited => Some (Ok tt, visited ∖ {[ref]}).

(** [items.map(f)] and a [for ... of] loop that builds a result, for an
    [f] that has effects *)
Fixpoint mapM {A B} (f : A -> M B) (l : list A) : M (list B) :=
  match l with
  | [] => ret []
  | x :: rest => (let* y := f x in let* ys := mapM f rest in ret (y :: ys))%resolver
  end.

Fixpoint foldM {A B} (f : B -> A -> M B) (acc : B) (l : list A) : M B :=
  match l with
  | [] => ret acc
  | x :: rest => (let* acc' := f acc x in foldM f acc' rest)%resolver
  end.

(** ['$ref' in typedObj && typeof typedObj.$ref === 'string'] *)
Definition refOf (props : list (string * JValue)) : option string :=
  match JS.lookup "$ref" props with
  | Some (JStr ref) => Some ref
  | _ => None
  end.

Fixpoint resolveAllRefsFuel (fuel : nat) (spec obj : JValue)
    (maxDepth currentDepth : Z) {struct fuel} : M JValue :=
  match fuel with
  | O => fun _ => None
  | S fuel' =>
      if currentDepth >=? maxDepth then ret obj else
      match obj with
      | JNull | JUndefined => ret obj
      | JArr items =>
          (let* items' :=
             mapM (fun item =>
                     resolveAllRefsFuel fuel' spec item maxDepth currentDepth)
                  items in
           ret (JArr items'))%resolver
      | JObj props =>
          match refOf props with
          | Some ref =>
              (let* seen := visitedHas ref in
               if seen then ret (circularRef ref) else
               let* _ := visitedAdd ref in
               let* resolved := lift (resolveRef spec ref) in
               let* result :=
                 resolveAllRefsFuel fuel' spec resolved maxDepth
                                    (currentDepth + 1) in
               let* _ := visitedDelete ref in
               ret result)%resolver
          | None =>
              (let* result :=
                 foldM (fun result kv =>
                          let* value :=
                            resolveAllRefsFuel fuel' spec (snd kv)
                                               maxDepth currentDepth in
                          ret (JS.setProperty (fst kv) value result))
                       [] props in
               ret (JObj result))%resolver
          end
      | _ => ret obj
      end
  end.

(** nesting depth of a value *)
Fixpoint height (v : JValue) : nat :=
  match v with
  | JArr items => S (list_max (List.map height items))
  | JObj props => S (list_max (List.map (fun kv => height (snd kv)) props))
  | _ => O
  end.

(** Fuel that always suffices: one unit per level of nesting of the value
    in hand, and for every reference hop still allowed the nesting of
    whatever the document can give back. *)
Definition hopCost (spec : JValue) : nat := S (Nat.max (height spec) 1).

Definition fuelFor (spec obj : JValue) (maxDepth currentDepth : Z) : nat :=
  S (height obj + Z.to_nat (maxDepth - currentDepth) * hopCost spec).

(** [resolveAllRefs(obj, maxDepth, currentDepth)] on a resolver for [spec]
    whose [visitedRefs] is [visited]: the outcome and [visitedRefs]
    afterwards. *)
Definition resolveAllRefs (spec obj : JValue) (maxDepth currentDepth : Z)
    (visited : gset string) : Res JValue * gset string :=
  match resolveAllRefsFuel (fuelFor spec obj maxDepth currentDepth)
                           spec obj maxDepth currentDepth visited with
  | Some out => out
  | None => (Raise (Error "out of fuel"), visited)
  end.

(** ** Code that may throw *)

Definition rbind {A B} (r : Res A) (k : A -> Res B) : Res B :=
  match r with
  | Ok a => k a
  | Raise e => Raise e
  end.

Declare Scope res_scope.
Delimit Scope res_scope with res.
Notation "'let*' x := c 'in' k" := (rbind c (fun x => k))
  (at level 10, x name, c at level 100, k at level 200) : res_scope.

(** [l.filter(f)] for a callback that may throw *)
Fixpoint filterR {A} (f : A -> Res bool) (l : list A) : Res (list A) :=
  match l with
  | [] => Ok []
  | x :: rest =>
      (let* keep := f x in
       let* rest' := filterR f rest in
       Ok (if keep then x :: rest' else rest'))%res
  end.

(** a loop that pushes onto a result, for a body that may throw *)
Fixpoint foldR {A B} (f : B -> A -> Res B) (acc : B) (l : list A) : Res B :=
  match l with
  | [] => Ok acc
  | x :: rest => (let* acc' := f acc x in foldR f acc' rest)%res
  end.

(** [k in v]: a [TypeError] unless [v] is an object or an array *)
Definition inOp (k : string) (v : JValue) : Res bool :=
  match v with
  | JObj _ | JArr _ => Ok (JS.has k v)
  | _ => Raise TypeError
  end.

(** ** OpenAPIManager: the indexes *)

Module EndpointInfo.
Record t := mk {
  path : string;
  method : string;
  summary : JValue;
  description : JValue;
  tags : JValue;
  operationId : JValue
}.
End EndpointInfo.

Module SchemaInfo.
Record t := mk {
  name : string;
  type : JValue;
  properties : option (list string);
  description : JValue
}.
End SchemaInfo.

Definition methods : list string :=
  ["get"; "post"; "put"; "patch"; "delete"; "options"; "head"; "trace"].

(** the entry pushed for [operation] *)
Definition endpointOf (path method : string) (operation : JValue) : EndpointInfo.t :=
  {| EndpointInfo.path := path;
     EndpointInfo.method := Str.toUpperCase method;
     EndpointInfo.summary := JS.getProp operation "summary";
     EndpointInfo.description := JS.getProp operation "description";
     EndpointInfo.tags := JS.getProp operation "tags";
     EndpointInfo.operationId := JS.getProp operation "operationId" |}.

(** the loop over [methods] for one path item *)
Definition pushOperations (path : string) (pathItem : JValue)
    (endpoints : list EndpointInfo.t) : list EndpointInfo.t :=
  fold_left
    (fun endpoints method =>
       let operation := JS.getProp pathItem method in
       if JS.truthy operation
       then (endpoints ++ [endpointOf path method operation])%list
       else endpoints)
    methods endpoints.

Definition buildEndpointIndex (spec : JValue) : Res (list EndpointInfo.t) :=
  (let* paths := JS.member spec "paths" in
   if negb (JS.truthy paths) then Ok [] else
   Ok (fold_left
         (fun endpoints entry =>
            let path := fst entry in
            let pathItem := snd entry in
            if negb (JS.truthy pathItem) then endpoints
            else pushOperations path pathItem endpoints)
         (JS.entries paths) []))%res.

Definition schemaOf (name : string) (schemaObj : JValue) : SchemaInfo.t :=
  {| SchemaInfo.name := name;
     SchemaInfo.type := JS.getProp schemaObj "type";
     SchemaInfo.properties :=
       if JS.truthy (JS.getProp schemaObj "properties")
       then Some (JS.keys (JS.getProp schemaObj "properties"))
       else None;
     SchemaInfo.description := JS.getProp schemaObj "description" |}.

Definition buildSchemaIndex (spec : JValue) : Res (list SchemaInfo.t) :=
  (let* specComponents := JS.member spec "components" in
   let components := JS.optMember specComponents "schemas" in
   if negb (JS.truthy components) then Ok [] else
   foldR (fun schemas entry =>
            let name := fst entry in
            let schema := snd entry in
            if negb (JS.truthy schema) then Ok schemas else
            let* isRef := inOp "$ref" schema in
            if isRef then Ok schemas
            else Ok (schemas ++ [schemaOf name schema])%list)
         [] (JS.entries components))%res.

(** ** OpenAPIManager: the searches *)

(** [x || d] on an optional number *)
Definition orDefault (x : option Z) (d : Z) : Z :=
  match x with
  | Some n => if n =? 0 then d else n
  | None => d
  end.

(** an optional string that is present and not empty (truthy) *)
Definition given (x : option string) : option string :=
  match x with
  | Some s => if String.eqb s "" then None else Some s
  | None => None
  end.

(** [Array.prototype.slice(start, end)] on integers *)
Definition relativeIndex (len i : Z) : Z :=
  if i <? 0 then Z.max (len + i) 0 else Z.min i len.

Definition slice {A} (l : list A) (start stop : Z) : list A :=
  let len := Z.of_nat (List.length l) in
  let k := relativeIndex len start in
  let final := relativeIndex len stop in
  firstn (Z.to_nat (final - k)) (skipn (Z.to_nat k) l).

Module EndpointSearch.
Record t := mk {
  pathPattern : option string;
  method : option string;
  tags : option (list string);
  description : option string;
  limit : option Z;
  offset : option Z
}.
End EndpointSearch.

Module SchemaSearch.
Record t := mk {
  namePattern : option string;
  propertyName : option string;
  limit : option Z;
  offset : option Z
}.
End SchemaSearch.

Record CachedSpec := {
  spec : JValue;
  fetchedAt : Z;
  endpointIndex : list EndpointInfo.t;
  schemaIndex : list SchemaInfo.t
}.

Record Found (A : Type) := { found : list A; total : Z }.
Arguments found {A} _.
Arguments total {A} _.

(** [e.tags && wanted.some(tag => e.tags.includes(tag))]: an array is
    searched for an element equal to the tag, a string for the tag as a
    substring, and any other truthy value has no [includes] to call. *)
Definition isTag (tag : string) (v : JValue) : bool :=
  match v with
  | JStr s => String.eqb s tag
  | _ => false
  end.

Definition tagsMatch (wanted : list string) (entryTags : JValue) : Res bool :=
  if negb (JS.truthy entryTags) then Ok false else
  match entryTags with
  | JArr items => Ok (existsb (fun tag => existsb (isTag tag) items) wanted)
  | JStr s => Ok (existsb (fun tag => Str.includes tag s) wanted)
  | _ => match wanted with [] => Ok false | _ :: _ => Raise TypeError end
  end.

(** whether [ToString(v)] returns.  It throws a [TypeError] on an
    object that has an own property [toString]: the property is data,
    not a function, so the conversion passes it over, and [valueOf]
    gives no primitive either.  On an array it joins the conversions of
    the elements, so it throws when one of them does. *)
Fixpoint stringable (v : JValue) : bool :=
  match v with
  | JObj props => negb (existsb (fun kv => String.eqb "toString" (fst kv)) props)
  | JArr items => forallb stringable items
  | _ => true
  end.

(** [regex.test(v)]: the value is converted to a string, then tested *)
Definition testValue (test : JValue -> bool) (v : JValue) : Res bool :=
  if stringable v then Ok (test v) else Raise TypeError.

Section Search.

(** [new RegExp(pattern, 'i')]: [None] is a [SyntaxError], otherwise the
    [test] method of the expression, on the values [ToString] converts. *)
Variable RegExp : string -> option (JValue -> bool).

Definition compile (pattern : string) : Res (JValue -> bool) :=
  match RegExp pattern with
  | Some test => Ok test
  | None => Raise SyntaxError
  end.

(** the filters of [searchEndpoints], in the order of the source *)
Definition filterEndpoints (index : list EndpointInfo.t) (options : EndpointSearch.t)
  : Res (list EndpointInfo.t) :=
  (let results := index in
   let* results :=
     match given (EndpointSearch.pathPattern options) with
     | Some pattern =>
         let* test := compile pattern in
         Ok (List.filter (fun e => test (JStr (EndpointInfo.path e))) results)
     | None => Ok results
     end in
   let results :=
     match given (EndpointSearch.method options) with
     | Some m =>
         let method := Str.toUpperCase m in
         List.filter (fun e => String.eqb (EndpointInfo.method e) method) results
     | None => results
     end in
   let* results :=
     match EndpointSearch.tags options with
     | Some (tag :: more) =>
         filterR (fun e => tagsMatch (tag :: more) (EndpointInfo.tags e)) results
     | _ => Ok results
     end in
   match given (EndpointSearch.description options) with
   | Some pattern =>
       let* test := compile pattern in
       filterR
         (fun e =>
            let* bySummary :=
              if JS.truthy (EndpointInfo.summary e)
              then testValue test (EndpointInfo.summary e)
              else Ok false in
            if bySummary then Ok true
            else if JS.truthy (EndpointInfo.description e)
                 then testValue test (EndpointInfo.description e)
                 else Ok false)
         results
   | None => Ok results
   end)%res.

(** [searchEndpoints(options)] once [getSpec()] has returned, on the
    cache it left *)
Definition searchEndpoints (cache : option CachedSpec) (options : EndpointSearch.t)
  : Res (Found EndpointInfo.t) :=
  match cache with
  | None => Raise (Error "Failed to load OpenAPI spec")
  | Some cached =>
      (let* results := filterEndpoints (endpointIndex cached) options in
       let total := Z.of_nat (List.length results) in
       let offset := orDefault (EndpointSearch.offset options) 0 in
       let limit := orDefault (EndpointSearch.limit options) 20 in
       Ok {| found := slice results offset (offset + limit); total := total |})%res
  end.

Definition filterSchemas (index : list SchemaInfo.t) (options : SchemaSearch.t)
  : Res (list SchemaInfo.t) :=
  (let results := index in
   let* results :=
     match given (SchemaSearch.namePattern options) with
     | Some pattern =>
         let* test := compile pattern in
         Ok (List.filter (fun s => test (JStr (SchemaInfo.name s))) results)
     | None => Ok results
     end in
   match given (SchemaSearch.propertyName options) with
   | Some propertyName =>
       let propLower := Str.toLowerCase propertyName in
       Ok (List.filter
             (fun s =>
                match SchemaInfo.properties s with
                | Some properties =>
                    existsb (fun p => Str.includes propLower (Str.toLowerCase p))
                            properties
                | None => false
                end)
             results)
   | None => Ok results
   end)%res.

Definition searchSchemas (cache : option CachedSpec) (options : SchemaSearch.t)
  : Res (Found SchemaInfo.t) :=
  match cache with
  | None => Raise (Error "Failed to load OpenAPI spec")
  | Some cached =>
      (let* results := filterSchemas (schemaIndex cached) options in
       let total := Z.of_nat (List.length results) in
       let offset := orDefault (SchemaSearch.offset options) 0 in
       let limit := orDefault (SchemaSearch.limit options) 20 in
       Ok {| found := slice results offset (offset + limit); total := total |})%res
  end.

(** *** The tools *)

Record Pagination := {
  pageTotal : Z;
  pageLimit : Z;
  pageOffset : Z;
  hasMore : bool
}.

Record ToolResult (A : Type) := { items : list A; pagination : Pagination }.
Arguments items {A} _.
Arguments pagination {A} _.

(** [SearchEndpointsTool.execute(input)] *)
Definition searchEndpointsTool (cache : option CachedSpec) (input : EndpointSearch.t)
  : Res (ToolResult EndpointInfo.t) :=
  (let* result := searchEndpoints cache input in
   let endpoints := found result in
   let total := total result in
   let limit := orDefault (EndpointSearch.limit input) 20 in
   let offset := orDefault (EndpointSearch.offset input) 0 in
   Ok {| items := endpoints;
         pagination :=
           {| pageTotal := total;
              pageLimit := limit;
              pageOffset := offset;
              hasMore := offset + Z.of_nat (List.length endpoints) <? total |} |})%res.

(** [SearchSchemasTool.execute(input)] *)
Definition searchSchemasTool (cache : option CachedSpec) (input : SchemaSearch.t)
  : Res (ToolResult SchemaInfo.t) :=
  (let* result := searchSchemas cache input in
   let schemas := found result in
   let total := total result in
   let limit := orDefault (SchemaSearch.limit input) 20 in
   let offset := orDefault (SchemaSearch.offset input) 0 in
   Ok {| items := schemas;
         pagination :=
           {| pageTotal := total;
              pageLimit := limit;
              pageOffset := offset;
              hasMore := offset + Z.of_nat (List.length schemas) <? total |} |})%res.

End Search.

(** ** OpenAPIManager: schema details *)

Definition schemaDetails (schemaName : string) (schema : JValue) : JValue :=
  JObj [("name", JStr schemaName); ("schema", schema)].

Definition notFound (schemaName : string) : JSError :=
  Error (String.append "Schema not found: " schemaName).

(** [spec.components?.schemas?.[schemaName]], the name looked up among
    the own properties (see the conventions, and [ownName]) *)
Definition schemaNamed (spec : JValue) (schemaName : string) : Res JValue :=
  (let* components := JS.member spec "components" in
   Ok (JS.optMember (JS.optMember components "schemas") schemaName))%res.

(** [getSchemaDetails(schemaName, resolveRefs, maxDepth)] once [getSpec()]
    has returned [spec]; the resolver is a new one, its [visitedRefs]
    empty. *)
Definition getSchemaDetails (spec : JValue) (schemaName : string)
    (resolveRefs : bool) (maxDepth : Z) : Res JValue :=
  (let* schema := schemaNamed spec schemaName in
   if negb (JS.truthy schema) then Raise (notFound schemaName) else
   if resolveRefs then
     let* resolved := fst (resolveAllRefs spec schema maxDepth 0 ∅) in
     Ok (schemaDetails schemaName resolved)
   else Ok (schemaDetails schemaName schema))%res.

(** ** OpenAPIManager: the cache and [getSpec]

    [getSpec] is asynchronous.  A run is a sequence of events on one
    event loop: a caller invokes [getSpec()], or the [fetchSpec()] promise
    in flight settles.  Between two events every continuation that can
    run has run. *)

Definition Caller := nat.

(** the pending [fetchSpec()] promise and who waits on it: the call that
    started it, suspended at its [await] inside [try], and the calls that
    returned the promise itself *)
Record Pending := {
  initiator : Caller;
  joiners : list Caller
}.

Record OpenAPIManager := {
  cache : option CachedSpec;
  fetchPromise : option Pending
}.

(** the manager and what the [getSpec()] calls settled with, oldest first *)
Record World := {
  manager : OpenAPIManager;
  settled : list (Caller * Res JValue)
}.

Inductive Event :=
| GetSpec (caller : Caller) (now : Z)
| FetchSettles (outcome : Res JValue) (now : Z)
| ClearCache.

(** the object literal assigned to [this.cache] *)
Definition buildCache (fetched : JValue) (now : Z) : Res CachedSpec :=
  (let* endpoints := buildEndpointIndex fetched in
   let* schemas := buildSchemaIndex fetched in
   Ok {| spec := fetched; fetchedAt := now;
         endpointIndex := endpoints; schemaIndex := schemas |})%res.

Definition fresh (cacheTtl now : Z) (cache : option CachedSpec) : option CachedSpec :=
  match cache with
  | Some cached => if now - fetchedAt cached <? cacheTtl then Some cached else None
  | None => None
  end.

(** a call of [getSpec()] up to its first suspension *)
Definition getSpec (cacheTtl : Z) (caller : Caller) (now : Z) (w : World) : World :=
  let m := manager w in
  match fresh cacheTtl now (cache m) with
  | Some cached =>
      {| manager := m; settled := (settled w ++ [(caller, Ok (spec cached))])%list |}
  | None =>
      match fetchPromise m with
      | Some pending =>
          {| manager :=
               {| cache := cache m;
                  fetchPromise :=
                    Some {| initiator := initiator pending;
                            joiners := (joiners pending ++ [caller])%list |} |};
             settled := settled w |}
      | None =>
          {| manager :=
               {| cache := cache m;
                  fetchPromise := Some {| initiator := caller; joiners := [] |} |};
             settled := settled w |}
      end
  end.

(** the rest of the initiating call: the [try] body after [await], the
    [catch] and the [finally] *)
Definition resume (outcome : Res JValue) (now : Z) (m : OpenAPIManager)
  : OpenAPIManager * Res JValue :=
  let attempt :=
    (let* fetched := outcome in
     let* cached := buildCache fetched now in
     Ok cached)%res in
  match attempt with
  | Ok cached =>
      ({| cache := Some cached; fetchPromise := None |}, Ok (spec cached))
  | Raise error =>
      match cache m with
      | Some stale => ({| cache := Some stale; fetchPromise := None |}, Ok (spec stale))
      | None => ({| cache := None; fetchPromise := None |}, Raise error)
      end
  end.

(** the promise in flight settles: the initiating call resumes, and each
    call that returned the promise settles as the promise did *)
Definition fetchSettles (outcome : Res JValue) (now : Z) (w : World) : World :=
  match fetchPromise (manager w) with
  | None => w
  | Some pending =>
      let (m', result) := resume outcome now (manager w) in
      {| manager := m';
         settled :=
           (settled w ++ (initiator pending, result)
              :: List.map (fun caller => (caller, outcome)) (joiners pending))%list |}
  end.

Definition clearCache (w : World) : World :=
  {| manager := {| cache := None; fetchPromise := fetchPromise (manager w) |};
     settled := settled w |}.

Definition step (cacheTtl : Z) (w : World) (ev : Event) : World :=
  match ev with
  | GetSpec caller now => getSpec cacheTtl caller now w
  | FetchSettles outcome now => fetchSettles outcome now w
  | ClearCache => clearCache w
  end.

Definition run (cacheTtl : Z) (events : list Event) (w : World) : World :=
  fold_left (step cacheTtl) events w.

Definition start : World :=
  {| manager := {| cache := None; fetchPromise := None |}; settled := [] |}.

(** what [caller] got from its first call *)
Definition outcomeOf (caller : Caller) (w : World) : option (Res JValue) :=
  match List.find (fun entry => Nat.eqb (fst entry) caller) (settled w) with
  | Some entry => Some (snd entry)
  | None => None
  end.

(** * Notions in which the properties are stated *)

(** ** The resolver as a total computation

    [resolveAllRefs] returns for every input, so its cases can be read
    on computations that need no fuel. *)

Definition T (A : Type) : Type := gset string -> Res A * gset string.

Definition retT {A} (a : A) : T A := fun visited => (Ok a, visited).

Definition bindT {A B} (c : T A) (k : A -> T B) : T B :=
  fun visited =>
    match c visited with
    | (Ok a, visited') => k a visited'
    | (Raise e, visited') => (Raise e, visited')
    end.

Fixpoint mapT {A B} (f : A -> T B) (l : list A) : T (list B) :=
  match l with
  | [] => retT []
  | x :: rest => bindT (f x) (fun y => bindT (mapT f rest) (fun ys => retT (y :: ys)))
  end.

Fixpoint foldT {A B} (f : B -> A -> T B) (acc : B) (l : list A) : T B :=
  match l with
  | [] => retT acc
  | x :: rest => bindT (f acc x) (fun acc' => foldT f acc' rest)
  end.

(** the loop of [resolveAllRefs] over the properties of a plain object *)
Definition resolveProps (spec : JValue) (maxDepth currentDepth : Z)
    (props : list (string * JValue)) : T (list (string * JValue)) :=
  foldT (fun result kv =>
           bindT (resolveAllRefs spec (snd kv) maxDepth currentDepth)
                 (fun value => retT (JS.setProperty (fst kv) value result)))
        [] props.

(** ** Notions about fuelled computations *)

(** every outcome of [c] is an outcome of [c'] *)
Definition below {A} (c c' : M A) : Prop :=
  forall visited out, c visited = Some out -> c' visited = Some out.

Definition terminates {A} (c : M A) : Prop :=
  forall visited, exists out, c visited = Some out.

Definition computes {A} (c : M A) (t : T A) : Prop :=
  forall visited, c visited = Some (t visited).

Definition preserves {A} (c : M A) : Prop :=
  forall visited r visited', c visited = Some (Ok r, visited') -> visited' = visited.

Definition onlyURIError {A} (c : M A) : Prop :=
  forall visited e visited', c visited = Some (Raise e, visited') -> e = URIError.

(** ** Chains of references *)

(** [refChain spec v refs w]: [v] is a reference node for the first
    pointer of [refs], that pointer resolves to a reference node for the
    second, and so on; the last pointer resolves to [w]. *)
Inductive refChain (spec : JValue) : JValue -> list string -> JValue -> Prop :=
| refChain_nil v : refChain spec v [] v
| refChain_cons props pointer resolved pointers w :
    refOf props = Some pointer ->
    resolveRef spec pointer = Ok resolved ->
    refChain spec resolved pointers w ->
    refChain spec (JObj props) (pointer :: pointers) w.

(** ** Values without references *)

Definition hasKey (k : string) (props : list (string * JValue)) : bool :=
  existsb (fun kv => String.eqb k (fst kv)) props.

(** no object anywhere in [v] has a [$ref] field *)
Fixpoint noRefFields (v : JValue) : bool :=
  match v with
  | JArr items => forallb noRefFields items
  | JObj props =>
      negb (hasKey "$ref" props) && forallb (fun kv => noRefFields (snd kv)) props
  | _ => true
  end.

Fixpoint distinct (ks : list string) : bool :=
  match ks with
  | [] => true
  | k :: rest => negb (existsb (String.eqb k) rest) && distinct rest
  end.

(** the representation invariant of objects: property names are distinct,
    at every level *)
Fixpoint wellFormed (v : JValue) : bool :=
  match v with
  | JArr items => forallb wellFormed items
  | JObj props =>
      distinct (List.map fst props) && forallb (fun kv => wellFormed (snd kv)) props
  | _ => true
  end.

(** no object anywhere in [v] has an own property named [__proto__] *)
Fixpoint noProtoKeys (v : JValue) : bool :=
  match v with
  | JArr items => forallb noProtoKeys items
  | JObj props =>
      negb (hasKey "__proto__" props)
      && forallb (fun kv => noProtoKeys (snd kv)) props
  | _ => true
  end.


(** ** Walking a document along a pointer *)

(** [current && typeof current === 'object'] *)
Definition container (v : JValue) : bool := JS.truthy v && JS.typeofObject v.

(** [ref.slice(2).split('/')] *)
Definition segmentsOf (pointer : string) : list string :=
  Str.split "/" (Str.slice 2 pointer).

(** Following the specification's words: the document is walked one
    decoded segment at a time, each step entering a container by the
    property the segment names. *)
Inductive reaches : JValue -> list string -> JValue -> Prop :=
| reaches_here v : reaches v [] v
| reaches_step v k x ks w :
    container v = true ->
    JS.getOwn v k = Some x ->
    reaches x ks w ->
    reaches v (k :: ks) w.

Definition decodesTo (segment key : string) : Prop :=
  decodeSegment segment = Some key.

(** Following the specification's words: percent-decode first, then
    un-escape [~1] and then [~0]. *)
Definition decodeSegmentSpec (segment : string) : option string :=
  match URI.decodeURIComponent segment with
  | Some s => Some (Str.replacePair "~" "0" "~" (Str.replacePair "~" "1" "/" s))
  | None => None
  end.

Fixpoint noSlash (s : string) : bool :=
  match s with
  | EmptyString => true
  | String c rest => negb (Ascii.eqb c "/") && noSlash rest
  end.

Fixpoint noPercent (s : string) : bool :=
  match s with
  | EmptyString => true
  | String c rest => negb (Ascii.eqb c "%") && noPercent rest
  end.

(** ** The endpoint index, entry by entry *)

(** Following the specification's words: for one path, one entry per
    verb of the fixed list whose operation is present, in the order of
    the list; nothing for a path item that is null or absent. *)
Definition operationsOf (path : string) (pathItem : JValue) : list EndpointInfo.t :=
  if JS.truthy pathItem
  then List.map (fun verb => endpointOf path verb (JS.getProp pathItem verb))
                (List.filter (fun verb => JS.truthy (JS.getProp pathItem verb)) methods)
  else [].

(** the paths taken in the order the document has them *)
Definition endpointIndexOf (paths : JValue) : list EndpointInfo.t :=
  flat_map (fun entry => operationsOf (fst entry) (snd entry)) (JS.entries paths).

(** ** Pages *)

(** Following the specification's words: the page [[offset, offset+limit)]
    of a sequence, the entries at the positions [i] with
    [offset <= i < offset + limit]. *)
Definition pageOf {A} (l : list A) (offset limit : Z) : list A :=
  let lo := Z.max 0 offset in
  let hi := Z.max lo (offset + limit) in
  firstn (Z.to_nat (hi - lo)) (skipn (Z.to_nat lo) l).

(** the same search with another limit and offset *)
Definition pagedEndpoints (options : EndpointSearch.t) (limit offset : option Z)
  : EndpointSearch.t :=
  EndpointSearch.mk (EndpointSearch.pathPattern options) (EndpointSearch.method options)
    (EndpointSearch.tags options) (EndpointSearch.description options) limit offset.

Definition pagedSchemas (options : SchemaSearch.t) (limit offset : option Z)
  : SchemaSearch.t :=
  SchemaSearch.mk (SchemaSearch.namePattern options) (SchemaSearch.propertyName options)
    limit offset.

(** a value whose [tags] a tag filter can test without a [TypeError] *)
Definition tagsSearchable (v : JValue) : bool :=
  negb (JS.truthy v) || match v with JArr _ | JStr _ => true | _ => false end.

(** an entry whose [summary] and [description] a description filter can
    test without a [TypeError]: each is falsy, or converts to a string *)
Definition describable (e : EndpointInfo.t) : bool :=
  (negb (JS.truthy (EndpointInfo.summary e)) || stringable (EndpointInfo.summary e))
  && (negb (JS.truthy (EndpointInfo.description e))
      || stringable (EndpointInfo.description e)).

Section SearchSpec.

Variable RegExp : string -> option (JValue -> bool).

(** Following the specification's words: an entry is kept when it meets
    every criterion that is given. *)
Definition keepsEndpoint (options : EndpointSearch.t) (e : EndpointInfo.t) : bool :=
  match given (EndpointSearch.pathPattern options) with
  | Some pattern =>
      match RegExp pattern with
      | Some test => test (JStr (EndpointInfo.path e))
      | None => false
      end
  | None => true
  end
  && match given (EndpointSearch.method options) with
     | Some m => String.eqb (EndpointInfo.method e) (Str.toUpperCase m)
     | None => true
     end
  && match EndpointSearch.tags options with
     | Some (tag :: more) =>
         match tagsMatch (tag :: more) (EndpointInfo.tags e) with
         | Ok b => b
         | Raise _ => false
         end
     | _ => true
     end
  && match given (EndpointSearch.description options) with
     | Some pattern =>
         match RegExp pattern with
         | Some test =>
             (JS.truthy (EndpointInfo.summary e) && test (EndpointInfo.summary e))
             || (JS.truthy (EndpointInfo.description e)
                 && test (EndpointInfo.description e))
         | None => false
         end
     | None => true
     end.

Definition keepsSchema (options : SchemaSearch.t) (s : SchemaInfo.t) : bool :=
  match given (SchemaSearch.namePattern options) with
  | Some pattern =>
      match RegExp pattern with
      | Some test => test (JStr (SchemaInfo.name s))
      | None => false
      end
  | None => true
  end
  && match given (SchemaSearch.propertyName options) with
     | Some propertyName =>
         match SchemaInfo.properties s with
         | Some properties =>
             existsb (fun p => Str.includes (Str.toLowerCase propertyName)
                                            (Str.toLowerCase p))
                     properties
         | None => false
         end
     | None => true
     end.

(** the patterns given are ones the engine accepts *)
Definition compiles (pattern : option string) : Prop :=
  match given pattern with
  | Some p => RegExp p <> None
  | None => True
  end.

End SearchSpec.

(** ** Schema lookup *)

(** the value found under [schemaName] *)
Definition schemaAt (document : JValue) (schemaName : string) : JValue :=
  JS.optMember (JS.optMember (JS.getProp document "components") "schemas") schemaName.

(** ** Sample documents and runs *)

Definition refTo (pointer : string) : JValue := JObj [("$ref", JStr pointer)].

(** [A] refers to [B] and [B] back to [A] *)
Definition cycleDoc : JValue :=
  JObj [("A", refTo "#/B"); ("B", refTo "#/A")].

(** [a] refers to [b], [b] to [c], [c] to [d] *)
Definition chainDoc : JValue :=
  JObj [("a", refTo "#/b"); ("b", refTo "#/c"); ("c", refTo "#/d");
        ("d", JObj [("type", JStr "string")])].

Definition petsDoc (getOperation postOperation : JValue) : JValue :=
  JObj [("paths", JObj [("/pets", JObj [("get", getOperation);
                                        ("post", postOperation)])])].

Definition userDoc : JValue :=
  JObj [("components",
         JObj [("schemas",
                JObj [("User", JObj [("type", JStr "object")]);
                      ("a/b", JArr [JNum 7; JNum 8])])])].

Definition schemasDoc : JValue :=
  JObj [("components",
         JObj [("schemas",
                JObj [("Pet", JObj [("type", JStr "object");
                                    ("properties",
                                     JObj [("owner", refTo "#/components/schemas/User")])]);
                      ("User", JObj [("type", JStr "object")]);
                      ("Never", JBool false);
                      ("Broken", refTo "#/%")])])].


Definition sampleEndpoint (path : string) : EndpointInfo.t :=
  EndpointInfo.mk path "GET" JUndefined JUndefined JUndefined JUndefined.

Definition sampleCache : CachedSpec :=
  {| spec := JObj [];
     fetchedAt := 0;
     endpointIndex := [sampleEndpoint "/a"; sampleEndpoint "/b"; sampleEndpoint "/c"];
     schemaIndex := [SchemaInfo.mk "A" JUndefined None JUndefined;
                     SchemaInfo.mk "B" JUndefined None JUndefined] |}.

(** an engine that accepts no pattern, for searches that give none *)
Definition noRegExp : string -> option (JValue -> bool) := fun _ => None.

Definition noFilter (limit offset : option Z) : EndpointSearch.t :=
  EndpointSearch.mk None None None None limit offset.

Definition tenMinutes : list Event :=
  [GetSpec 1%nat 0;
   FetchSettles (Ok (petsDoc (JObj []) (JObj []))) 10;
   GetSpec 2%nat 400000;
   GetSpec 3%nat 400001;
   FetchSettles (Raise (Error "network")) 400500].

(** * More of the program *)

(** ** Objects under construction *)

Module Obj.

Fixpoint digits (s : string) (acc : N) : option N :=
  match s with
  | EmptyString => Some acc
  | String c rest =>
      let n := N_of_ascii c in
      if (48 <=? n)%N && (n <=? 57)%N then digits rest (10 * acc + (n - 48))%N
      else None
  end.

(** the array index a property name is, if it is one: the canonical
    numeral of an integer below [2^32 - 1] *)
Definition indexOf (k : string) : option N :=
  match k with
  | EmptyString => None
  | String c rest =>
      if Ascii.eqb c "0" && negb (String.eqb rest "") then None
      else match digits k 0 with
           | Some n => if (n <? 4294967295)%N then Some n else None
           | None => None
           end
  end.

(** a new property that is an array index goes after the indexes below
    it and before everything else *)
Fixpoint insertIndex (n : N) (k : string) (v : JValue)
    (props : list (string * JValue)) : list (string * JValue) :=
  match props with
  | [] => [(k, v)]
  | (k', v') :: rest =>
      match indexOf k' with
      | Some n' =>
          if (n' <? n)%N then (k', v') :: insertIndex n k v rest
          else (k, v) :: props
      | None => (k, v) :: props
      end
  end.

(** [o[k] = v], and a property of an object literal: an existing
    property keeps its place; a new one is placed by the order in which
    own properties are enumerated, array indexes ascending first, then
    the other names in the order they were created *)
Definition put (k : string) (v : JValue) (props : list (string * JValue))
  : list (string * JValue) :=
  if existsb (fun kv => String.eqb k (fst kv)) props then JS.assign k v props
  else match indexOf k with
       | Some n => insertIndex n k v props
       | None => (props ++ [(k, v)])%list
       end.

(** [{...target, ...source}]: the own enumerable properties of [source]
    are put, in their order, on [target] *)
Definition copyInto (target : list (string * JValue)) (source : JValue)
  : list (string * JValue) :=
  fold_left (fun acc entry => put (fst entry) (snd entry) acc) (JS.entries source) target.

(** [[...v]]: the elements of an array, the characters of a string (exact
    when ASCII); anything else is not iterable *)
Definition iterate (v : JValue) : Res (list JValue) :=
  match v with
  | JArr items => Ok items
  | JStr s => Ok (JS.chars s)
  | _ => Raise TypeError
  end.

(** [a || b] *)
Definition orElse (a b : JValue) : JValue := if JS.truthy a then a else b.

(** [o[k] = v] on an object the program builds from [{}]: a property is
    created or replaced as by [put], except under the name [__proto__],
    where the assignment runs the setter of [Object.prototype] and the
    own properties stay as they are (see [JS.setProperty]) *)
Definition setProperty (k : string) (v : JValue) (props : list (string * JValue))
  : list (string * JValue) :=
  if String.eqb k "__proto__" then props else put k v props.

End Obj.

(** ** RefResolver, the rest *)

(** [reset()] *)
Definition reset (visitedRefs : gset string) : gset string := ∅.

(** ** OpenAPIManager: endpoint details *)

Definition pathNotFound (path : string) : JSError :=
  Error (String.append "Path not found: " path).

Definition methodNotFound (method path : string) : JSError :=
  Error (String.append "Method "
           (String.append method (String.append " not found for path " path))).

(** [[...pathParams, ...(operation.parameters || [])]] *)
Definition allParams (pathItem operation : JValue) : Res (list JValue) :=
  (let pathParams := Obj.orElse (JS.getProp pathItem "parameters") (JArr []) in
   let* fromPath := Obj.iterate pathParams in
   let* fromOperation :=
     Obj.iterate (Obj.orElse (JS.getProp operation "parameters") (JArr [])) in
   Ok (fromPath ++ fromOperation)%list)%res.

(** [{path, method: method.toUpperCase(), ...operation, parameters: ...}] *)
Definition endpointDetails (path method : string) (operation : JValue)
    (params : list JValue) : JValue :=
  JObj (Obj.put "parameters"
          (match params with [] => JUndefined | _ :: _ => JArr params end)
          (Obj.copyInto [("path", JStr path);
                         ("method", JStr (Str.toUpperCase method))]
                        operation)).

(** [getEndpointDetails(path, method, resolveRefs)] once [getSpec()] has
    returned [spec]; the resolver is a new one and [resolveAllRefs] runs
    with its default depth 5.  The path and the method are looked up
    among the own properties (see the conventions, and [ownName]). *)
Definition getEndpointDetails (spec : JValue) (path method : string)
    (resolveRefs : bool) : Res JValue :=
  (let* paths := JS.member spec "paths" in
   let pathItem := JS.optMember paths path in
   if negb (JS.truthy pathItem) then Raise (pathNotFound path) else
   let operation := JS.getProp pathItem (Str.toLowerCase method) in
   if negb (JS.truthy operation) then Raise (methodNotFound method path) else
   let* params := allParams pathItem operation in
   let result := endpointDetails path method operation params in
   if resolveRefs then fst (resolveAllRefs spec result 5 0 ∅) else Ok result)%res.

(** ** OpenAPIManager: sections of the document *)

Section Sections.

Variable RegExp : string -> option (JValue -> bool).

Definition filterPaths (paths : JValue) (pattern : string) : Res JValue :=
  (let* test := compile RegExp pattern in
   Ok (JObj (fold_left
               (fun filtered entry =>
                  if test (JStr (fst entry))
                  then Obj.setProperty (fst entry) (snd entry) filtered
                  else filtered)
               (JS.entries paths) [])))%res.

Definition filterSpecByPath (spec : JValue) (pattern : string) : Res JValue :=
  (let* specPaths := JS.member spec "paths" in
   let* paths := filterPaths (Obj.orElse specPaths (JObj [])) pattern in
   Ok (JObj (Obj.put "paths" paths (Obj.copyInto [] spec))))%res.

Definition unknownSection (section : string) : JSError :=
  Error (String.append "Unknown section: "
           (String.append section
              ". Valid sections: info, paths, components, tags, servers, full")).

(** [getSpecSection(section, pathFilter)] once [getSpec()] has returned
    [spec] *)
Definition getSpecSection (spec : JValue) (section pathFilter : option string)
  : Res JValue :=
  let full :=
    match given pathFilter with
    | Some pattern => filterSpecByPath spec pattern
    | None => Ok spec
    end in
  match given section with
  | None => full
  | Some name =>
      if String.eqb name "full" then full
      else if String.eqb name "info" then JS.member spec "info"
      else if String.eqb name "paths" then
        match given pathFilter with
        | Some pattern =>
            (let* specPaths := JS.member spec "paths" in
             filterPaths (Obj.orElse specPaths (JObj [])) pattern)%res
        | None => JS.member spec "paths"
        end
      else if String.eqb name "components" then JS.member spec "components"
      else if String.eqb name "tags" then JS.member spec "tags"
      else if String.eqb name "servers" then JS.member spec "servers"
      else Raise (unknownSection name)
  end.

End Sections.

(** ** The tools, the rest *)

Record SchemaDetailsInput := {
  inputSchemaName : string;
  inputResolveRefs : option bool;
  inputMaxDepth : option Z
}.

Definition success (field : string) (value : JValue) : JValue :=
  JObj [("success", JBool true); (field, value)].

(** [input.resolveRefs !== false] *)
Definition notFalse (flag : option bool) : bool :=
  match flag with
  | Some false => false
  | _ => true
  end.

(** [GetSchemaDetailsTool.execute(input)] *)
Definition getSchemaDetailsTool (spec : JValue) (input : SchemaDetailsInput)
  : Res JValue :=
  (let resolveRefs := notFalse (inputResolveRefs input) in
   let maxDepth := orDefault (inputMaxDepth input) 5 in
   let* details := getSchemaDetails spec (inputSchemaName input) resolveRefs maxDepth in
   Ok (success "data" details))%res.

(** [GetEndpointDetailsTool.execute(input)] *)
Definition getEndpointDetailsTool (spec : JValue) (path method : string)
    (resolveRefs : option bool) : Res JValue :=
  (let* details := getEndpointDetails spec path method (notFalse resolveRefs) in
   Ok (success "endpoint" details))%res.

(** * More notions *)

(** ** Pointers that cannot throw *)

(** every [$ref] string anywhere in [v] is free of [%] *)
Fixpoint safeRefs (v : JValue) : bool :=
  match v with
  | JArr items => forallb safeRefs items
  | JObj props =>
      match refOf props with
      | Some pointer => noPercent pointer
      | None => true
      end
      && forallb (fun kv => safeRefs (snd kv)) props
  | _ => true
  end.

Definition neverThrows {A} (c : M A) : Prop :=
  forall visited e visited', c visited <> Some (Raise e, visited').

Definition grows {A} (c : M A) : Prop :=
  forall visited out visited', c visited = Some (out, visited') -> visited ⊆ visited'.

(** ** Schemas the index builder can test *)

(** a schema value on which ['$ref' in schema] does not throw, or which
    is skipped before that test *)
Definition indexable (v : JValue) : bool :=
  negb (JS.truthy v) || match v with JObj _ | JArr _ => true | _ => false end.

(** [spec.components?.schemas] *)
Definition schemasOf (document : JValue) : JValue :=
  JS.optMember (JS.getProp document "components") "schemas".

(** the schemas that are indexed: present, and not a reference *)
Definition indexed (entry : string * JValue) : bool :=
  JS.truthy (snd entry) && negb (JS.has "$ref" (snd entry)).

(** ** Pages of a search *)

(** what a search found, nothing if it threw *)
Definition foundOf {A} (r : Res (Found A)) : list A :=
  match r with
  | Ok f => found f
  | Raise _ => []
  end.

(** the same search with other tags, or another method *)
Definition taggedEndpoints (options : EndpointSearch.t) (tags : option (list string))
  : EndpointSearch.t :=
  EndpointSearch.mk (EndpointSearch.pathPattern options) (EndpointSearch.method options)
    tags (EndpointSearch.description options)
    (EndpointSearch.limit options) (EndpointSearch.offset options).

Definition methodEndpoints (options : EndpointSearch.t) (method : option string)
  : EndpointSearch.t :=
  EndpointSearch.mk (EndpointSearch.pathPattern options) method
    (EndpointSearch.tags options) (EndpointSearch.description options)
    (EndpointSearch.limit options) (EndpointSearch.offset options).

(** a string of ASCII characters, on which [toUpperCase] and
    [toLowerCase] are modelled exactly *)
Fixpoint isAscii (s : string) : bool :=
  match s with
  | EmptyString => true
  | String c rest => (nat_of_ascii c <? 128)%nat && isAscii rest
  end.

(** ** Objects with plain names *)

Definition isIndex (k : string) : bool :=
  match Obj.indexOf k with Some _ => true | None => false end.

(** the names are distinct and none is an array index: the case of the
    objects of an OpenAPI document, whose names are words and paths *)
Definition plainKeys (props : list (string * JValue)) : bool :=
  distinct (List.map fst props)
  && forallb (fun k => negb (isIndex k)) (List.map fst props).

(** ** Names a value does not inherit

    A lookup [v[k]] or [k in v] goes from the own properties of [v] on
    to its prototype chain; the embedding looks among the own
    properties.  The two agree when [k] is an own property of [v], which
    hides an inherited one, and when [k] is a name that [v] cannot
    inherit.  The properties below say where that is; the theorems that
    turn on the outcome of a lookup by a name the caller chooses assume
    them. *)

(** the names of the members of [Object.prototype] *)
Definition objectPrototype : list string :=
  ["constructor"; "__defineGetter__"; "__defineSetter__"; "hasOwnProperty";
   "__lookupGetter__"; "__lookupSetter__"; "isPrototypeOf";
   "propertyIsEnumerable"; "toString"; "valueOf"; "__proto__";
   "toLocaleString"].

(** [k] is an own property of [v] or a name [v] cannot inherit: on an
    object, a name [Object.prototype] has not; on an array or a string,
    an array index (what else [Array.prototype] and [String.prototype]
    hold varies with the edition of the language, but neither holds an
    index).  [null] and [undefined] have no property to look up.  A
    boolean or a number has no own property, and the names it inherits
    are not listed here, so no name qualifies. *)
Definition ownName (v : JValue) (k : string) : bool :=
  JS.has k v
  || match v with
     | JObj _ => negb (existsb (String.eqb k) objectPrototype)
     | JArr _ | JStr _ => isIndex k
     | JUndefined | JNull => true
     | JBool _ | JNum _ => false
     end.

(** every lookup that the walk of [path] from [current] makes is one of
    those *)
Fixpoint ownWalk (path : list string) (current : JValue) : bool :=
  match path with
  | [] => true
  | segment :: rest =>
      match decodeSegment segment with
      | None => true
      | Some key =>
          negb (container current)
          || (ownName current key
              && match JS.getOwn current key with
                 | Some next => ownWalk rest next
                 | None => true
                 end)
      end
  end.

Definition ownPointer (document : JValue) (pointer : string) : bool :=
  negb (Str.startsWith "#/" pointer) || ownWalk (segmentsOf pointer) document.

(** the [parameters] of a path item or operation, when it is an array *)
Definition parametersOf (v : JValue) : list JValue :=
  match JS.getProp v "parameters" with
  | JArr params => params
  | _ => []
  end.

(** the path item and the operation [getEndpointDetails] looks up *)
Definition pathItemAt (document : JValue) (path : string) : JValue :=
  JS.optMember (JS.getProp document "paths") path.

Definition operationAt (document : JValue) (path method : string) : JValue :=
  JS.getProp (pathItemAt document path) (Str.toLowerCase method).

(** [parameters] is an array or is falsy: what [allParams] can spread *)
Definition spreadable (v : JValue) : bool :=
  match JS.getProp v "parameters" with
  | JArr _ => true
  | other => negb (JS.truthy other)
  end.

(** the entries whose name passes a test, the name [__proto__] left
    out *)
Definition keepPaths (test : JValue -> bool) (entries : list (string * JValue))
  : list (string * JValue) :=
  List.filter (fun entry => test (JStr (fst entry))
                            && negb (String.eqb (fst entry) "__proto__"))
              entries.

Definition usersDoc : JValue :=
  JObj [("openapi", JStr "3.0.0");
        ("paths", JObj [("/users", JObj [("get", JObj [])]);
                        ("/pets", JObj [("get", JObj [])]);
                        ("/users/{id}", JObj [("delete", JObj [])])]);
        ("tags", JArr [])].

(** an engine for the samples: it accepts the pattern [^/users], as the
    test for names that begin with [/users], the pattern [.], as the
    test for names that are not empty, and no other *)
Definition usersRegExp (pattern : string) : option (JValue -> bool) :=
  if String.eqb pattern "^/users"
  then Some (fun v => match v with
                      | JStr s => String.prefix "/users" s
                      | _ => false
                      end)
  else if String.eqb pattern "."
  then Some (fun v => match v with
                      | JStr s => negb (String.eqb s "")
                      | _ => false
                      end)
  else None.

(** a document with a path named [__proto__], as [JSON.parse] gives it *)
Definition protoPathsDoc : JValue :=
  JObj [("paths", JObj [("/b", JObj [("get", JObj [])]);
                        ("__proto__", JObj [("get", JObj [])]);
                        ("/c", JObj [("get", JObj [])])])].

(** ** The cache over a run *)

(** the indexes of a cache entry are the ones built from its document *)
Definition coherent (c : CachedSpec) : Prop :=
  buildEndpointIndex (spec c) = Ok (endpointIndex c)
  /\ buildSchemaIndex (spec c) = Ok (schemaIndex c).

(** the callers of the [getSpec()] calls of a run, in order *)
Definition callersOf (events : list Event) : list Caller :=
  flat_map (fun ev => match ev with
                      | GetSpec caller _ => [caller]
                      | _ => []
                      end) events.

(** the calls that have not settled *)
Definition waiting (w : World) : list Caller :=
  match fetchPromise (manager w) with
  | Some pending => initiator pending :: joiners pending
  | None => []
  end.

(** the sections that are fields of the document *)
Definition fieldSection (name : string) : bool :=
  String.eqb name "info" || String.eqb name "components"
  || String.eqb name "tags" || String.eqb name "servers".

Definition ordersDoc : JValue :=
  JObj [("paths",
         JObj [("/orders/{id}",
                JObj [("parameters", JArr [JObj [("name", JStr "id")]]);
                      ("get", JObj [("summary", JStr "One order");
                                    ("parameters", JArr [JObj [("name", JStr "expand")]])])])])].

(** * Lemmas and theorems *)

(** ** Fuel: more never changes an outcome *)

Lemma below_refl {A} (c : M A) : below c c.
Proof. intros visited out H. exact H. Qed.

Lemma below_bind {A B} (c c' : M A) (k k' : A -> M B) :
  below c c' -> (forall a, below (k a) (k' a)) -> below (bind c k) (bind c' k').
Proof.
  intros Hc Hk visited out. unfold bind.
  destruct (c visited) as [[[a|e] vis']|] eqn:E; try discriminate.
  - rewrite (Hc _ _ E). apply Hk.
  - rewrite (Hc _ _ E). auto.
Qed.

Lemma below_mapM {A B} (f f' : A -> M B) (l : list A) :
  (forall x, In x l -> below (f x) (f' x)) -> below (mapM f l) (mapM f' l).
Proof.
  induction l as [|x l IH]; intros H; simpl.
  - apply below_refl.
  - apply below_bind; [apply H; left; reflexivity|].
    intros y. apply below_bind; [|intros; apply below_refl].
    apply IH. intros z Hz. apply H. right. exact Hz.
Qed.

Lemma below_foldM {A B} (f f' : B -> A -> M B) (l : list A) :
  (forall acc x, In x l -> below (f acc x) (f' acc x)) ->
  forall acc, below (foldM f acc l) (foldM f' acc l).
Proof.
  induction l as [|x l IH]; intros H acc; simpl.
  - apply below_refl.
  - apply below_bind; [apply H; left; reflexivity|].
    intros acc'. apply IH. intros a z Hz. apply H. right. exact Hz.
Qed.

Lemma resolveAllRefsFuel_S fuel spec obj maxDepth currentDepth :
  resolveAllRefsFuel (S fuel) spec obj maxDepth currentDepth =
  if currentDepth >=? maxDepth then ret obj else
  match obj with
  | JNull | JUndefined => ret obj
  | JArr items =>
      (let* items' :=
         mapM (fun item => resolveAllRefsFuel fuel spec item maxDepth currentDepth)
              items in
       ret (JArr items'))%resolver
  | JObj props =>
      match refOf props with
      | Some ref =>
          (let* seen := visitedHas ref in
           if seen then ret (circularRef ref) else
           let* _ := visitedAdd ref in
           let* resolved := lift (resolveRef spec ref) in
           let* result :=
             resolveAllRefsFuel fuel spec resolved maxDepth (currentDepth + 1) in
           let* _ := visitedDelete ref in
           ret result)%resolver
      | None =>
          (let* result :=
             foldM (fun result kv =>
                      let* value :=
                        resolveAllRefsFuel fuel spec (snd kv) maxDepth currentDepth in
                      ret (JS.setProperty (fst kv) value result))
                   [] props in
           ret (JObj result))%resolver
      end
  | _ => ret obj
  end.
Proof. reflexivity. Qed.

Lemma fuel_S fuel spec : forall obj maxDepth currentDepth,
  below (resolveAllRefsFuel fuel spec obj maxDepth currentDepth)
        (resolveAllRefsFuel (S fuel) spec obj maxDepth currentDepth).
Proof.
  induction fuel as [|fuel IH]; intros obj maxDepth currentDepth.
  - intros visited out H. discriminate H.
  - rewrite (resolveAllRefsFuel_S (S fuel)), (resolveAllRefsFuel_S fuel).
    destruct (currentDepth >=? maxDepth); [apply below_refl|].
    destruct obj as [| | | | |items|props]; try apply below_refl.
    + apply below_bind; [|intros; apply below_refl].
      apply below_mapM. intros; apply IH.
    + destruct (refOf props) as [ref|].
      * apply below_bind; [apply below_refl|].
        intros [|]; [apply below_refl|].
        apply below_bind; [apply below_refl|intros _].
        apply below_bind; [apply below_refl|intros resolved].
        apply below_bind; [apply IH|intros; apply below_refl].
      * apply below_bind; [|intros; apply below_refl].
        apply below_foldM. intros acc kv _.
        apply below_bind; [apply IH|intros; apply below_refl].
Qed.

Lemma fuel_mono spec obj maxDepth currentDepth fuel fuel' :
  (fuel <= fuel')%nat ->
  below (resolveAllRefsFuel fuel spec obj maxDepth currentDepth)
        (resolveAllRefsFuel fuel' spec obj maxDepth currentDepth).
Proof.
  induction 1 as [|fuel' _ IH]; [apply below_refl|].
  intros visited out H. apply fuel_S, IH, H.
Qed.

(** ** Heights of what a pointer can reach *)

Lemma height_item items x : In x items -> (height x < height (JArr items))%nat.
Proof.
  simpl. induction items as [|y items IH]; intros H; [destruct H|].
  simpl. destruct H as [->|H]; [lia|]. specialize (IH H). lia.
Qed.

Lemma height_prop props kv : In kv props -> (height (snd kv) < height (JObj props))%nat.
Proof.
  simpl. induction props as [|p props IH]; intros H; [destruct H|].
  simpl. destruct H as [->|H]; [lia|]. specialize (IH H). lia.
Qed.

Lemma lookup_In k props x : JS.lookup k props = Some x -> exists k', In (k', x) props.
Proof.
  induction props as [|[k' v] props IH]; simpl; [discriminate|].
  destruct (String.eqb k k').
  - intros [= ->]. exists k'. left. reflexivity.
  - intros H. destruct (IH H) as [k'' Hk]. exists k''. right. exact Hk.
Qed.

Lemma height_chars s x : In x (JS.chars s) -> height x = O.
Proof.
  induction s as [|c s IH]; simpl; [intros []|].
  intros [<-|H]; [reflexivity|auto].
Qed.

Lemma height_indexed items k x :
  JS.indexed items k = Some x -> height x = O \/ In x items.
Proof.
  unfold JS.indexed. destruct (String.eqb k "length").
  - intros [= <-]. left. reflexivity.
  - destruct (JS.arrayIndex k (List.length items)) as [i|]; [|discriminate].
    intros H. right. eapply nth_error_In, H.
Qed.

Lemma height_getOwn v k x : JS.getOwn v k = Some x -> (height x <= height v)%nat.
Proof.
  destruct v as [| | | |s|items|props]; simpl; try discriminate.
  - intros H. destruct (height_indexed _ _ _ H) as [->|Hin]; [lia|].
    rewrite (height_chars _ _ Hin). lia.
  - intros H. destruct (height_indexed _ _ _ H) as [->|Hin]; [lia|].
    pose proof (height_item _ _ Hin). simpl in *. lia.
  - intros H. destruct (lookup_In _ _ _ H) as [k' Hin].
    pose proof (height_prop _ _ Hin). simpl in *. lia.
Qed.

Lemma height_getProp v k : (height (JS.getProp v k) <= height v)%nat.
Proof.
  unfold JS.getProp. destruct (JS.getOwn v k) eqn:E; [|simpl; lia].
  eapply height_getOwn, E.
Qed.

Lemma height_walk ref path : forall current r,
  walk ref path current = Ok r -> (height r <= Nat.max (height current) 1)%nat.
Proof.
  induction path as [|segment path IH]; intros current r; simpl.
  - intros [= <-]. lia.
  - destruct (decodeSegment segment) as [key|]; [|discriminate].
    destruct (JS.truthy current && JS.typeofObject current && JS.has key current).
    + intros H. apply IH in H. pose proof (height_getProp current key). lia.
    + intros [= <-]. simpl. lia.
Qed.

Lemma height_resolveRef spec ref r :
  resolveRef spec ref = Ok r -> (S (height r) <= hopCost spec)%nat.
Proof.
  unfold resolveRef, hopCost.
  destruct (negb (Str.startsWith "#/" ref)).
  - intros [= <-]. simpl. lia.
  - intros H. apply height_walk in H. lia.
Qed.

(** ** Enough fuel gives an outcome *)

Lemma terminates_ret {A} (a : A) : terminates (ret a).
Proof. intros visited. eexists. reflexivity. Qed.

Lemma terminates_bind {A B} (c : M A) (k : A -> M B) :
  terminates c -> (forall a, terminates (k a)) -> terminates (bind c k).
Proof.
  intros Hc Hk visited. unfold bind.
  destruct (Hc visited) as [[[a|e] vis'] ->]; [apply Hk|eexists; reflexivity].
Qed.

Lemma terminates_mapM {A B} (f : A -> M B) (l : list A) :
  (forall x, In x l -> terminates (f x)) -> terminates (mapM f l).
Proof.
  induction l as [|x l IH]; intros H; simpl; [apply terminates_ret|].
  apply terminates_bind; [apply H; left; reflexivity|intros y].
  apply terminates_bind; [|intros; apply terminates_ret].
  apply IH. intros z Hz. apply H. right. exact Hz.
Qed.

Lemma terminates_foldM {A B} (f : B -> A -> M B) (l : list A) :
  (forall acc x, In x l -> terminates (f acc x)) ->
  forall acc, terminates (foldM f acc l).
Proof.
  induction l as [|x l IH]; intros H acc; simpl; [apply terminates_ret|].
  apply terminates_bind; [apply H; left; reflexivity|intros acc'].
  apply IH. intros a z Hz. apply H. right. exact Hz.
Qed.

Lemma fuelFor_terminates spec : forall fuel obj maxDepth currentDepth,
  (fuelFor spec obj maxDepth currentDepth <= fuel)%nat ->
  terminates (resolveAllRefsFuel fuel spec obj maxDepth currentDepth).
Proof.
  unfold fuelFor.
  induction fuel as [|fuel IH]; intros obj maxDepth currentDepth Hfuel;
    [inversion Hfuel|].
  apply le_S_n in Hfuel.
  rewrite resolveAllRefsFuel_S.
  destruct (currentDepth >=? maxDepth) eqn:Hd; [apply terminates_ret|].
  destruct obj as [| | | | |items|props]; try apply terminates_ret.
  - apply terminates_bind; [|intros; apply terminates_ret].
    apply terminates_mapM. intros x Hx. apply IH.
    pose proof (height_item _ _ Hx) as Hlt.
    set (budget := (Z.to_nat (maxDepth - currentDepth) * hopCost spec)%nat) in *.
    lia.
  - destruct (refOf props) as [ref|].
    + apply terminates_bind; [intros v; eexists; reflexivity|].
      intros [|]; [apply terminates_ret|].
      apply terminates_bind; [intros v; eexists; reflexivity|intros _].
      intros visited. unfold bind at 1, lift.
      destruct (resolveRef spec ref) as [resolved|e] eqn:Hr; [|eexists; reflexivity].
      apply terminates_bind; [|intros; apply terminates_bind;
        [intros v; eexists; reflexivity|intros; apply terminates_ret]].
      apply IH. apply height_resolveRef in Hr.
      assert (Hb : Z.to_nat (maxDepth - currentDepth)
                   = S (Z.to_nat (maxDepth - (currentDepth + 1)))) by lia.
      rewrite Hb in Hfuel. rewrite Nat.mul_succ_l in Hfuel.
      set (budget := (Z.to_nat (maxDepth - (currentDepth + 1)) * hopCost spec)%nat) in *.
      lia.
    + apply terminates_bind; [|intros; apply terminates_ret].
      apply terminates_foldM. intros acc kv Hkv.
      apply terminates_bind; [|intros; apply terminates_ret].
      apply IH. pose proof (height_prop _ _ Hkv) as Hlt.
      set (budget := (Z.to_nat (maxDepth - currentDepth) * hopCost spec)%nat) in *.
      lia.
Qed.

(** With [fuelFor] units of fuel or more, the fuelled definition computes
    [resolveAllRefs]. *)
Lemma resolveAllRefs_fuel spec obj maxDepth currentDepth fuel visited :
  (fuelFor spec obj maxDepth currentDepth <= fuel)%nat ->
  resolveAllRefsFuel fuel spec obj maxDepth currentDepth visited
  = Some (resolveAllRefs spec obj maxDepth currentDepth visited).
Proof.
  intros Hfuel.
  destruct (fuelFor_terminates spec _ obj maxDepth currentDepth (Nat.le_refl _) visited)
    as [out Hout].
  unfold resolveAllRefs. rewrite Hout.
  eapply fuel_mono; eassumption.
Qed.

(** ** The equations of [resolveAllRefs] *)

Section Equations.

Variable spec : JValue.
Variables maxDepth currentDepth : Z.

Lemma computes_ret {A} (a : A) : computes (ret a) (retT a).
Proof. intros visited. reflexivity. Qed.

Lemma computes_bind {A B} (c : M A) (t : T A) (k : A -> M B) (u : A -> T B) :
  computes c t -> (forall a, computes (k a) (u a)) -> computes (bind c k) (bindT t u).
Proof.
  intros Hc Hk visited. unfold bind, bindT. rewrite Hc.
  destruct (t visited) as [[a|e] visited']; [apply Hk|reflexivity].
Qed.

Lemma computes_mapM {A B} (f : A -> M B) (g : A -> T B) (l : list A) :
  (forall x, In x l -> computes (f x) (g x)) -> computes (mapM f l) (mapT g l).
Proof.
  induction l as [|x l IH]; intros H; simpl; [apply computes_ret|].
  apply computes_bind; [apply H; left; reflexivity|intros y].
  apply computes_bind; [|intros; apply computes_ret].
  apply IH. intros z Hz. apply H. right. exact Hz.
Qed.

Lemma computes_foldM {A B} (f : B -> A -> M B) (g : B -> A -> T B) (l : list A) :
  (forall acc x, In x l -> computes (f acc x) (g acc x)) ->
  forall acc, computes (foldM f acc l) (foldT g acc l).
Proof.
  induction l as [|x l IH]; intros H acc; simpl; [apply computes_ret|].
  apply computes_bind; [apply H; left; reflexivity|intros acc'].
  apply IH. intros a z Hz. apply H. right. exact Hz.
Qed.

Lemma computes_fuel fuel obj depth :
  (fuelFor spec obj maxDepth depth <= fuel)%nat ->
  computes (resolveAllRefsFuel fuel spec obj maxDepth depth)
           (resolveAllRefs spec obj maxDepth depth).
Proof. intros H visited. apply resolveAllRefs_fuel, H. Qed.

(** an outcome found with any amount of fuel is the outcome *)
Lemma resolveAllRefs_eq fuel obj visited out :
  resolveAllRefsFuel fuel spec obj maxDepth currentDepth visited = Some out ->
  resolveAllRefs spec obj maxDepth currentDepth visited = out.
Proof.
  intros H.
  set (big := Nat.max fuel (fuelFor spec obj maxDepth currentDepth)).
  assert (H1 : resolveAllRefsFuel big spec obj maxDepth currentDepth visited = Some out)
    by (eapply fuel_mono; [|exact H]; lia).
  rewrite resolveAllRefs_fuel in H1 by lia. congruence.
Qed.

Lemma resolveAllRefs_stop obj visited :
  maxDepth <= currentDepth ->
  resolveAllRefs spec obj maxDepth currentDepth visited = (Ok obj, visited).
Proof.
  intros Hd. apply (resolveAllRefs_eq 1). rewrite resolveAllRefsFuel_S.
  replace (currentDepth >=? maxDepth) with true by lia. reflexivity.
Qed.

Lemma resolveAllRefs_array items visited :
  currentDepth < maxDepth ->
  resolveAllRefs spec (JArr items) maxDepth currentDepth visited
  = bindT (mapT (fun item => resolveAllRefs spec item maxDepth currentDepth) items)
          (fun items' => retT (JArr items')) visited.
Proof.
  intros Hd.
  apply (resolveAllRefs_eq (S (fuelFor spec (JArr items) maxDepth currentDepth))).
  rewrite resolveAllRefsFuel_S.
  replace (currentDepth >=? maxDepth) with false by lia.
  apply computes_bind; [|intros; apply computes_ret].
  apply computes_mapM. intros x Hx. apply computes_fuel.
  pose proof (height_item _ _ Hx). unfold fuelFor.
  set (budget := (Z.to_nat (maxDepth - currentDepth) * hopCost spec)%nat). lia.
Qed.

Lemma resolveAllRefs_plain props visited :
  currentDepth < maxDepth ->
  refOf props = None ->
  resolveAllRefs spec (JObj props) maxDepth currentDepth visited
  = bindT (resolveProps spec maxDepth currentDepth props)
          (fun result => retT (JObj result)) visited.
Proof.
  intros Hd Href.
  apply (resolveAllRefs_eq (S (fuelFor spec (JObj props) maxDepth currentDepth))).
  rewrite resolveAllRefsFuel_S, Href.
  replace (currentDepth >=? maxDepth) with false by lia.
  apply computes_bind; [|intros; apply computes_ret].
  apply computes_foldM. intros acc kv Hkv.
  apply computes_bind; [|intros; apply computes_ret].
  apply computes_fuel.
  pose proof (height_prop _ _ Hkv). unfold fuelFor.
  set (budget := (Z.to_nat (maxDepth - currentDepth) * hopCost spec)%nat). lia.
Qed.

Lemma resolveAllRefs_seen props ref visited :
  currentDepth < maxDepth ->
  refOf props = Some ref ->
  ref ∈ visited ->
  resolveAllRefs spec (JObj props) maxDepth currentDepth visited
  = (Ok (circularRef ref), visited).
Proof.
  intros Hd Href Hin. apply (resolveAllRefs_eq 1).
  rewrite resolveAllRefsFuel_S, Href.
  replace (currentDepth >=? maxDepth) with false by lia.
  unfold bind, visitedHas. rewrite bool_decide_eq_true_2 by exact Hin. reflexivity.
Qed.

Lemma resolveAllRefs_hop props ref visited :
  currentDepth < maxDepth ->
  refOf props = Some ref ->
  ref ∉ visited ->
  resolveAllRefs spec (JObj props) maxDepth currentDepth visited
  = match resolveRef spec ref with
    | Raise e => (Raise e, {[ref]} ∪ visited)
    | Ok resolved =>
        match resolveAllRefs spec resolved maxDepth (currentDepth + 1)
                             ({[ref]} ∪ visited) with
        | (Ok result, visited') => (Ok result, visited' ∖ {[ref]})
        | (Raise e, visited') => (Raise e, visited')
        end
    end.
Proof.
  intros Hd Href Hin.
  destruct (resolveRef spec ref) as [resolved|e] eqn:Hr.
  - apply (resolveAllRefs_eq (S (fuelFor spec resolved maxDepth (currentDepth + 1)))).
    rewrite resolveAllRefsFuel_S, Href.
    replace (currentDepth >=? maxDepth) with false by lia.
    unfold bind at 1, visitedHas. rewrite bool_decide_eq_false_2 by exact Hin.
    unfold bind at 1, visitedAdd. unfold bind at 1, lift. rewrite Hr.
    unfold bind at 1. rewrite resolveAllRefs_fuel by lia.
    destruct (resolveAllRefs spec resolved maxDepth (currentDepth + 1) ({[ref]} ∪ visited))
      as [[result|e] visited']; reflexivity.
  - apply (resolveAllRefs_eq 1).
    rewrite resolveAllRefsFuel_S, Href.
    replace (currentDepth >=? maxDepth) with false by lia.
    unfold bind at 1, visitedHas. rewrite bool_decide_eq_false_2 by exact Hin.
    unfold bind at 1, visitedAdd. unfold bind at 1, lift. rewrite Hr. reflexivity.
Qed.

Lemma resolveAllRefs_scalar obj visited :
  match obj with JArr _ | JObj _ => False | _ => True end ->
  resolveAllRefs spec obj maxDepth currentDepth visited = (Ok obj, visited).
Proof.
  intros H. apply (resolveAllRefs_eq 1). rewrite resolveAllRefsFuel_S.
  destruct (currentDepth >=? maxDepth); [reflexivity|].
  destruct obj; try reflexivity; destruct H.
Qed.

End Equations.

(** ** [visitedRefs] after a call that returns *)

Lemma preserves_ret {A} (a : A) : preserves (ret a).
Proof. intros visited r visited' [= _ <-]. reflexivity. Qed.

Lemma preserves_bind {A B} (c : M A) (k : A -> M B) :
  preserves c -> (forall a, preserves (k a)) -> preserves (bind c k).
Proof.
  intros Hc Hk visited r visited'. unfold bind.
  destruct (c visited) as [[[a|e] v1]|] eqn:E; try discriminate.
  intros H. apply Hk in H. apply Hc in E. congruence.
Qed.

Lemma preserves_mapM {A B} (f : A -> M B) (l : list A) :
  (forall x, In x l -> preserves (f x)) -> preserves (mapM f l).
Proof.
  induction l as [|x l IH]; intros H; simpl; [apply preserves_ret|].
  apply preserves_bind; [apply H; left; reflexivity|intros y].
  apply preserves_bind; [|intros; apply preserves_ret].
  apply IH. intros z Hz. apply H. right. exact Hz.
Qed.

Lemma preserves_foldM {A B} (f : B -> A -> M B) (l : list A) :
  (forall acc x, In x l -> preserves (f acc x)) ->
  forall acc, preserves (foldM f acc l).
Proof.
  induction l as [|x l IH]; intros H acc; simpl; [apply preserves_ret|].
  apply preserves_bind; [apply H; left; reflexivity|intros acc'].
  apply IH. intros a z Hz. apply H. right. exact Hz.
Qed.

Lemma preserves_fuel spec : forall fuel obj maxDepth currentDepth,
  preserves (resolveAllRefsFuel fuel spec obj maxDepth currentDepth).
Proof.
  induction fuel as [|fuel IH]; intros obj maxDepth currentDepth.
  - intros visited r visited' H. discriminate H.
  - rewrite resolveAllRefsFuel_S.
    destruct (currentDepth >=? maxDepth); [apply preserves_ret|].
    destruct obj as [| | | | |items|props]; try apply preserves_ret.
    + apply preserves_bind; [|intros; apply preserves_ret].
      apply preserves_mapM. intros; apply IH.
    + destruct (refOf props) as [ref|].
      * intros visited r visited'.
        unfold bind at 1, visitedHas. case_bool_decide as Hin.
        { intros [= _ <-]. reflexivity. }
        unfold bind at 1, visitedAdd. unfold bind at 1, lift.
        destruct (resolveRef spec ref) as [resolved|e]; [|discriminate].
        unfold bind at 1.
        destruct (resolveAllRefsFuel fuel spec resolved maxDepth (currentDepth + 1)
                    ({[ref]} ∪ visited)) as [[[result|e] v1]|] eqn:E; try discriminate.
        apply IH in E. subst v1. intros [= _ <-]. set_solver.
      * apply preserves_bind; [|intros; apply preserves_ret].
        apply preserves_foldM. intros acc kv _.
        apply preserves_bind; [apply IH|intros; apply preserves_ret].
Qed.

(** A call of [resolveAllRefs] that returns leaves [visitedRefs] as it
    found it. *)
Lemma resolveAllRefs_visited spec obj maxDepth currentDepth visited r visited' :
  resolveAllRefs spec obj maxDepth currentDepth visited = (Ok r, visited') ->
  visited' = visited.
Proof.
  intros H. eapply preserves_fuel.
  rewrite resolveAllRefs_fuel by apply Nat.le_refl. rewrite H. reflexivity.
Qed.

(** ** Along a chain of references *)

Lemma resolveAllRefs_chain spec maxDepth v pointers w :
  refChain spec v pointers w ->
  forall currentDepth visited,
    NoDup pointers ->
    (forall p, In p pointers -> p ∉ visited) ->
    Z.of_nat (List.length pointers) = maxDepth - currentDepth ->
    resolveAllRefs spec v maxDepth currentDepth visited = (Ok w, visited).
Proof.
  induction 1 as [v|props pointer resolved pointers w Href Hres _ IH];
    intros currentDepth visited Hnd Hfresh Hlen.
  - apply resolveAllRefs_stop. simpl in Hlen. lia.
  - simpl in Hlen. apply NoDup_cons in Hnd as [Hnotin Hnd].
    rewrite (resolveAllRefs_hop spec maxDepth currentDepth props pointer)
      by (try lia; try assumption; apply Hfresh; left; reflexivity).
    rewrite Hres, IH.
    + f_equal. assert (pointer ∉ visited) by (apply Hfresh; left; reflexivity).
      set_solver.
    + exact Hnd.
    + intros p Hp. assert (p ∉ visited) by (apply Hfresh; right; exact Hp).
      assert (p <> pointer) by (intros ->; apply Hnotin, list_elem_of_In, Hp).
      set_solver.
    + lia.
Qed.

(** ** Values without references resolve to themselves *)

Lemma lookup_hasKey k props : hasKey k props = false -> JS.lookup k props = None.
Proof.
  induction props as [|[k' v] props IH]; simpl; [reflexivity|].
  destruct (String.eqb k k'); simpl; [discriminate|exact IH].
Qed.

Lemma assign_new k v props :
  existsb (String.eqb k) (List.map fst props) = false ->
  JS.assign k v props = (props ++ [(k, v)])%list.
Proof.
  induction props as [|[k' v'] props IH]; simpl; [reflexivity|].
  destruct (String.eqb k k'); simpl; [discriminate|].
  intros H. rewrite IH by exact H. reflexivity.
Qed.

Lemma existsb_app_false {A} (f : A -> bool) l1 l2 :
  existsb f l1 = false -> existsb f l2 = false -> existsb f (l1 ++ l2) = false.
Proof. intros H1 H2. rewrite existsb_app, H1, H2. reflexivity. Qed.

(** rebuilding an object whose properties resolve to themselves *)
Lemma resolveProps_id spec maxDepth currentDepth props :
  Forall (fun kv => forall visited,
            resolveAllRefs spec (snd kv) maxDepth currentDepth visited
            = (Ok (snd kv), visited)) props ->
  forall acc visited,
    distinct (List.map fst props) = true ->
    hasKey "__proto__" props = false ->
    (forall k, In k (List.map fst props) ->
               existsb (String.eqb k) (List.map fst acc) = false) ->
    foldT (fun result kv =>
             bindT (resolveAllRefs spec (snd kv) maxDepth currentDepth)
                   (fun value => retT (JS.setProperty (fst kv) value result)))
          acc props visited
    = (Ok (acc ++ props)%list, visited).
Proof.
  induction 1 as [|[k v] props Hkv _ IH]; intros acc visited Hd Hproto Hacc; simpl.
  - rewrite app_nil_r. reflexivity.
  - simpl in *. apply andb_true_iff in Hd as [Hk Hd].
    apply negb_true_iff in Hk.
    apply orb_false_iff in Hproto as [Hname Hproto].
    unfold bindT at 1. unfold bindT at 1. rewrite Hkv. unfold retT.
    unfold JS.setProperty.
    destruct (String.eqb k "__proto__") eqn:Epr;
      [apply String.eqb_eq in Epr; subst k; discriminate Hname|].
    rewrite assign_new by (apply Hacc; left; reflexivity).
    rewrite IH.
    + rewrite <- app_assoc. reflexivity.
    + exact Hd.
    + exact Hproto.
    + intros k' Hk'. rewrite map_app. apply existsb_app_false.
      * apply Hacc. right. exact Hk'.
      * simpl. rewrite orb_false_r.
        destruct (String.eqb k' k) eqn:E; [|reflexivity].
        apply String.eqb_eq in E. subst k'.
        rewrite <- not_true_iff_false in Hk.
        exfalso. apply Hk. apply existsb_exists. exists k. split; [exact Hk'|].
        apply String.eqb_refl.
Qed.

Lemma mapT_id {A} (f : A -> T A) l :
  Forall (fun x => forall visited, f x visited = (Ok x, visited)) l ->
  forall visited, mapT f l visited = (Ok l, visited).
Proof.
  induction 1 as [|x l Hx _ IH]; intros visited; simpl; [reflexivity|].
  unfold bindT at 1. rewrite Hx. unfold bindT. rewrite IH. reflexivity.
Qed.

Lemma resolveAllRefs_id spec maxDepth currentDepth : forall v,
  noRefFields v = true -> wellFormed v = true -> noProtoKeys v = true ->
  forall visited,
    resolveAllRefs spec v maxDepth currentDepth visited = (Ok v, visited).
Proof.
  induction v as [| | | | |items IH|props IH] using JValue_ind;
    intros Hno Hwf Hpr visited;
    try (apply resolveAllRefs_scalar; exact I).
  - destruct (Z_lt_ge_dec currentDepth maxDepth) as [Hd|Hd];
      [|apply resolveAllRefs_stop; lia].
    rewrite resolveAllRefs_array by exact Hd. unfold bindT.
    rewrite mapT_id; [reflexivity|].
    simpl in Hno, Hwf, Hpr. rewrite forallb_forall in Hno, Hwf, Hpr.
    rewrite Forall_forall in IH |- *. intros x Hx. apply list_elem_of_In in Hx as Hin.
    apply IH; auto.
  - destruct (Z_lt_ge_dec currentDepth maxDepth) as [Hd|Hd];
      [|apply resolveAllRefs_stop; lia].
    simpl in Hno, Hwf, Hpr.
    apply andb_true_iff in Hno as [Hkey Hno]. apply negb_true_iff in Hkey.
    apply andb_true_iff in Hwf as [Hdist Hwf].
    apply andb_true_iff in Hpr as [Hproto Hpr]. apply negb_true_iff in Hproto.
    rewrite resolveAllRefs_plain;
      [|exact Hd|unfold refOf; rewrite lookup_hasKey by exact Hkey; reflexivity].
    unfold bindT, resolveProps.
    rewrite resolveProps_id; [reflexivity| |exact Hdist|exact Hproto|reflexivity].
    rewrite forallb_forall in Hno, Hwf, Hpr.
    rewrite Forall_forall in IH |- *. intros kv Hx. apply list_elem_of_In in Hx as Hin.
    intros vis. apply IH; auto.
Qed.

(** ** Walking along a pointer *)

Lemma walk_along ref : forall segments keys current node rest,
  Forall2 decodesTo segments keys ->
  reaches current keys node ->
  walk ref (segments ++ rest) current = walk ref rest node.
Proof.
  induction segments as [|segment segments IH]; intros keys current node rest HF HR.
  - inversion HF; subst. inversion HR; subst. reflexivity.
  - inversion HF as [|? key ? keys' Hdec HF']; subst.
    inversion HR as [|? ? x ? ? Hc Hget HR']; subst.
    simpl. rewrite Hdec. unfold container in Hc. unfold JS.has, JS.getProp.
    rewrite Hc, Hget. simpl. eapply IH; eassumption.
Qed.

Lemma walk_reaches ref segments keys current target :
  Forall2 decodesTo segments keys ->
  reaches current keys target ->
  walk ref segments current = Ok target.
Proof.
  intros HF HR. rewrite <- (app_nil_r segments).
  rewrite (walk_along ref segments keys current target []); auto.
Qed.

Lemma walk_stuck ref segment key rest node :
  decodeSegment segment = Some key ->
  container node = false \/ JS.getOwn node key = None ->
  walk ref (segment :: rest) node = Ok (unresolvableRef ref).
Proof.
  intros Hdec Hstuck. simpl. rewrite Hdec. unfold container in Hstuck.
  unfold JS.has. destruct Hstuck as [->| ->]; [reflexivity|].
  rewrite andb_false_r. reflexivity.
Qed.

(** ** Segments *)

Lemma split_noSlash s : noSlash s = true -> Str.split "/" s = [s].
Proof.
  induction s as [|c s IH]; simpl; [reflexivity|].
  destruct (Ascii.eqb c "/"); simpl; [discriminate|].
  intros H. rewrite IH by exact H. reflexivity.
Qed.

Lemma startsWith_hash_slash s : Str.startsWith "#/" (String.append "#/" s) = true.
Proof. destruct s; reflexivity. Qed.

Lemma decodeURIComponent_noPercent s :
  noPercent s = true -> URI.decodeURIComponent s = Some s.
Proof.
  unfold URI.decodeURIComponent.
  induction s as [|c s IH]; simpl; [reflexivity|].
  destruct (Ascii.eqb c "%"); simpl; [discriminate|].
  intros H. rewrite IH by exact H. reflexivity.
Qed.

Lemma replacePair_noPercent a b r : Ascii.eqb r "%" = false -> forall s,
  (noPercent s = true -> noPercent (Str.replacePair a b r s) = true) /\
  (forall c, noPercent (String c s) = true ->
             noPercent (Str.replacePair a b r (String c s)) = true).
Proof.
  intros Hr. induction s as [|c' s [IH1 IH2]].
  - split; [reflexivity|]. intros c H. exact H.
  - split.
    + intros H. apply IH2. exact H.
    + intros c H. cbn [Str.replacePair].
      cbn [noPercent] in H. apply andb_true_iff in H as [Hc H].
      destruct (Ascii.eqb c a && Ascii.eqb c' b).
      * cbn [noPercent]. rewrite Hr. simpl. apply IH1.
        cbn [noPercent] in H. apply andb_true_iff in H as [_ H]. exact H.
      * cbn [noPercent]. rewrite Hc. simpl. apply IH2. exact H.
Qed.

Lemma decodeSegment_noPercent segment :
  noPercent segment = true ->
  decodeSegment segment = decodeSegmentSpec segment.
Proof.
  intros H. unfold decodeSegment, decodeSegmentSpec.
  rewrite (decodeURIComponent_noPercent segment) by exact H.
  apply decodeURIComponent_noPercent.
  apply replacePair_noPercent; [reflexivity|].
  apply replacePair_noPercent; [reflexivity|exact H].
Qed.

(** ** The claims about the resolver *)

(** C1. With [maxDepth = k >= 0], [resolveAllRefs] expands at most [k]
    nested [$ref] indirections: a call at [currentDepth >= k] returns the
    value unchanged; a [$ref] substitution continues on the resolved value
    at [currentDepth + 1]; the elements of a sequence and the fields of a
    plain object are resolved at the same depth; and along a chain of [k]
    distinct references the value reached after [k] hops is returned raw,
    even when it is itself a [$ref] node. *)
Theorem C1_depth_limit (document : JValue) (k : Z) :
  0 <= k ->
  (forall v currentDepth visited,
      k <= currentDepth ->
      resolveAllRefs document v k currentDepth visited = (Ok v, visited))
  /\ (forall props pointer currentDepth visited,
         currentDepth < k ->
         refOf props = Some pointer ->
         pointer ∉ visited ->
         resolveAllRefs document (JObj props) k currentDepth visited
         = match resolveRef document pointer with
           | Raise e => (Raise e, {[pointer]} ∪ visited)
           | Ok resolved =>
               match resolveAllRefs document resolved k (currentDepth + 1)
                                    ({[pointer]} ∪ visited) with
               | (Ok result, visited') => (Ok result, visited' ∖ {[pointer]})
               | (Raise e, visited') => (Raise e, visited')
               end
           end)
  /\ (forall items currentDepth visited,
         currentDepth < k ->
         resolveAllRefs document (JArr items) k currentDepth visited
         = bindT (mapT (fun item => resolveAllRefs document item k currentDepth) items)
                 (fun items' => retT (JArr items')) visited)
  /\ (forall props currentDepth visited,
         currentDepth < k ->
         refOf props = None ->
         resolveAllRefs document (JObj props) k currentDepth visited
         = bindT (resolveProps document k currentDepth props)
                 (fun result => retT (JObj result)) visited)
  /\ (forall v pointers w visited,
         refChain document v pointers w ->
         NoDup pointers ->
         (forall p, In p pointers -> p ∉ visited) ->
         Z.of_nat (List.length pointers) = k ->
         resolveAllRefs document v k 0 visited = (Ok w, visited)).
Proof.
  intros Hk. repeat split.
  - intros. apply resolveAllRefs_stop. assumption.
  - intros. apply resolveAllRefs_hop; assumption.
  - intros. apply resolveAllRefs_array. assumption.
  - intros. apply resolveAllRefs_plain; assumption.
  - intros v pointers w visited Hchain Hnd Hfresh Hlen.
    eapply resolveAllRefs_chain; eauto. lia.
Qed.

(** Two hops are allowed on [chainDoc]: the value two references away
    from the start comes back, still a reference. *)
Lemma C1_depth_limit_witness :
  0 <= 2 /\ resolveAllRefs chainDoc (refTo "#/a") 2 0 ∅ = (Ok (refTo "#/c"), ∅).
Proof.
  split; [lia|].
  destruct (C1_depth_limit chainDoc 2 ltac:(lia)) as (_ & _ & _ & _ & Hchain).
  apply (Hchain _ ["#/a"; "#/b"]).
  - eapply refChain_cons; [reflexivity|reflexivity|].
    eapply refChain_cons; [reflexivity|reflexivity|]. apply refChain_nil.
  - repeat (apply NoDup_cons_2; [set_solver|]). apply NoDup_nil_2.
  - intros p _. set_solver.
  - reflexivity.
Defined.

(** C2, as amended.  For every document, value, [maxDepth] and starting
    state the resolution terminates: with [fuelFor] units of fuel or more
    the recursion gives an outcome.  A [$ref] node met below [maxDepth]
    whose pointer is on the active path ([visitedRefs]) yields the marker
    [{$circularRef: ref}] and leaves [visitedRefs] alone; one whose
    pointer is not on it is resolved with the pointer added, and when
    that call returns the pointer has been removed again. *)
Theorem C2_cycle_marker (document : JValue) (maxDepth currentDepth : Z)
    (props : list (string * JValue)) (pointer : string) (visited : gset string) :
  refOf props = Some pointer ->
  currentDepth < maxDepth ->
  (forall obj depth seen fuel,
      (fuelFor document obj maxDepth depth <= fuel)%nat ->
      resolveAllRefsFuel fuel document obj maxDepth depth seen
      = Some (resolveAllRefs document obj maxDepth depth seen))
  /\ (pointer ∈ visited ->
      resolveAllRefs document (JObj props) maxDepth currentDepth visited
      = (Ok (circularRef pointer), visited))
  /\ (pointer ∉ visited ->
      forall result visited',
        resolveAllRefs document (JObj props) maxDepth currentDepth visited
        = (Ok result, visited') ->
        visited' = visited /\ (pointer ∉ visited')
        /\ (exists resolved,
               resolveRef document pointer = Ok resolved
               /\ resolveAllRefs document resolved maxDepth (currentDepth + 1)
                                 ({[pointer]} ∪ visited)
                  = (Ok result, {[pointer]} ∪ visited))).
Proof.
  intros Href Hd. split; [|split].
  - intros. apply resolveAllRefs_fuel. assumption.
  - intros Hin. eapply resolveAllRefs_seen; eassumption.
  - intros Hnotin result visited' H.
    pose proof (resolveAllRefs_visited _ _ _ _ _ _ _ H) as ->.
    split; [reflexivity|]. split; [exact Hnotin|].
    rewrite (resolveAllRefs_hop document maxDepth currentDepth props pointer)
      in H by assumption.
    destruct (resolveRef document pointer) as [resolved|e]; [|discriminate].
    exists resolved. split; [reflexivity|].
    destruct (resolveAllRefs document resolved maxDepth (currentDepth + 1)
                ({[pointer]} ∪ visited)) as [[r|e] v1] eqn:E; [|discriminate].
    pose proof (resolveAllRefs_visited _ _ _ _ _ _ _ E) as ->.
    congruence.
Qed.

(** On [cycleDoc] with the default depth: [A] is on the path when it
    comes up again. *)
Lemma C2_cycle_marker_witness :
  resolveAllRefs cycleDoc (refTo "#/A") 5 2 {["#/A"; "#/B"]}
  = (Ok (circularRef "#/A"), {["#/A"; "#/B"]})
  /\ resolveAllRefs cycleDoc (refTo "#/A") 5 0 ∅ = (Ok (circularRef "#/A"), ∅).
Proof.
  split.
  - apply (C2_cycle_marker cycleDoc 5 2 [("$ref", JStr "#/A")] "#/A");
      [reflexivity|lia|set_solver].
  - vm_compute. reflexivity.
Defined.

(** C2 as stated fails when the cycle is met at [maxDepth]: on
    [cycleDoc] with [maxDepth = 2] the reference to [A] that comes up
    while [A] is on the active path is returned raw, not as a marker. *)
Lemma C2_counterexample :
  resolveAllRefs cycleDoc (refTo "#/A") 2 0 ∅ = (Ok (refTo "#/A"), ∅)
  /\ resolveAllRefs cycleDoc (refTo "#/A") 2 2 {["#/A"; "#/B"]}
     = (Ok (refTo "#/A"), {["#/A"; "#/B"]})
  /\ refTo "#/A" <> circularRef "#/A".
Proof.
  split; [vm_compute; reflexivity|]. split; [vm_compute; reflexivity|].
  discriminate.
Qed.







(** ** The claims about pointers *)

(** C3, as amended.  A pointer [#/...] whose segments decode to property
    names along which the document can be walked to [target] resolves to
    [target].  A pointer that does not begin with [#/] resolves to the
    marker [{$unresolvableRef: pointer}].  So does a pointer whose walk,
    every segment so far being a well-formed escape, comes to a value that
    is not an object or array, or that lacks the property named and
    cannot inherit it. *)
Theorem C3_resolveRef (document : JValue) (pointer : string) :
  (forall keys target,
      Str.startsWith "#/" pointer = true ->
      Forall2 decodesTo (segmentsOf pointer) keys ->
      reaches document keys target ->
      resolveRef document pointer = Ok target)
  /\ (Str.startsWith "#/" pointer = false ->
      resolveRef document pointer = Ok (unresolvableRef pointer))
  /\ (forall before segment after keys node key,
         Str.startsWith "#/" pointer = true ->
         segmentsOf pointer = (before ++ segment :: after)%list ->
         Forall2 decodesTo before keys ->
         reaches document keys node ->
         decodeSegment segment = Some key ->
         container node = false
         \/ (JS.getOwn node key = None /\ ownName node key = true) ->
         resolveRef document pointer = Ok (unresolvableRef pointer)).
Proof.
  split; [|split].
  - intros keys target Hstart Hdec Hwalk. unfold resolveRef. rewrite Hstart.
    cbn [negb]. eapply walk_reaches; eassumption.
  - intros Hstart. unfold resolveRef. rewrite Hstart. reflexivity.
  - intros before segment after keys node key Hstart Hsplit Hdec Hwalk Hkey Hstuck.
    unfold resolveRef. rewrite Hstart. cbn [negb]. fold (segmentsOf pointer).
    rewrite Hsplit, (walk_along pointer before keys document node) by assumption.
    eapply walk_stuck; [eassumption|].
    destruct Hstuck as [Hnode|[Hmissing _]]; [left|right]; assumption.
Qed.

Lemma C3_resolveRef_witness :
  resolveRef userDoc "#/components/schemas/User" = Ok (JObj [("type", JStr "object")])
  /\ resolveRef userDoc "#/components/schemas/a~1b/1" = Ok (JNum 8)
  /\ resolveRef userDoc "components/schemas/User"
     = Ok (unresolvableRef "components/schemas/User")
  /\ resolveRef userDoc "#/components/schemas/Missing"
     = Ok (unresolvableRef "#/components/schemas/Missing").
Proof.
  split; [|split; [|split]].
  - apply (proj1 (C3_resolveRef userDoc "#/components/schemas/User")
             ["components"; "schemas"; "User"]); [reflexivity| |].
    + repeat constructor.
    + repeat (eapply reaches_step; [reflexivity|reflexivity|]). apply reaches_here.
  - apply (proj1 (C3_resolveRef userDoc "#/components/schemas/a~1b/1")
             ["components"; "schemas"; "a/b"; "1"]); [reflexivity| |].
    + repeat constructor.
    + repeat (eapply reaches_step; [reflexivity|reflexivity|]). apply reaches_here.
  - apply (proj1 (proj2 (C3_resolveRef userDoc "components/schemas/User"))).
    reflexivity.
  - apply (proj2 (proj2 (C3_resolveRef userDoc "#/components/schemas/Missing"))
             ["components"; "schemas"] "Missing" [] ["components"; "schemas"]
             (JObj [("User", JObj [("type", JStr "object")]);
                    ("a/b", JArr [JNum 7; JNum 8])]) "Missing");
      [reflexivity|reflexivity| | |reflexivity|right; split; reflexivity].
    + repeat constructor.
    + repeat (eapply reaches_step; [reflexivity|reflexivity|]). apply reaches_here.
Defined.

(** C3 as stated fails: the walk of [#/a/%] over [{a: 1}] comes to the
    number [1], which is no container, and [resolveRef] throws a
    [URIError] for the malformed escape instead of returning the marker. *)
Lemma C3_counterexample :
  segmentsOf "#/a/%" = ["a"; "%"]
  /\ Forall2 decodesTo ["a"] ["a"]
  /\ reaches (JObj [("a", JNum 1)]) ["a"] (JNum 1)
  /\ container (JNum 1) = false
  /\ resolveRef (JObj [("a", JNum 1)]) "#/a/%" = Raise URIError
  /\ resolveRef (JObj [("a", JNum 1)]) "#/a/%" <> Ok (unresolvableRef "#/a/%").
Proof.
  split; [reflexivity|]. split; [repeat constructor|].
  split; [eapply reaches_step; [reflexivity|reflexivity|apply reaches_here]|].
  split; [reflexivity|]. split; [reflexivity|]. discriminate.
Qed.

(** C4, as amended.  The property name looked up for a segment is the
    segment with every [~1] replaced by [/], then every [~0] replaced by
    [~], and the result of that percent-decoded last; a malformed escape
    throws.  On a segment without [%] this is the name the order of the
    specification gives. *)
Theorem C4_segment_key (pointer segment : string) (rest : list string)
    (current : JValue) :
  walk pointer (segment :: rest) current
  = match URI.decodeURIComponent
            (Str.replacePair "~" "0" "~" (Str.replacePair "~" "1" "/" segment)) with
    | None => Raise URIError
    | Some key =>
        if container current && JS.has key current
        then walk pointer rest (JS.getProp current key)
        else Ok (unresolvableRef pointer)
    end
  /\ (noSlash segment = true ->
      forall props,
        resolveRef (JObj props) (String.append "#/" segment)
        = match decodeSegment segment with
          | None => Raise URIError
          | Some key =>
              match JS.lookup key props with
              | Some v => Ok v
              | None => Ok (unresolvableRef (String.append "#/" segment))
              end
          end)
  /\ (noPercent segment = true ->
      decodeSegment segment = decodeSegmentSpec segment).
Proof.
  split; [reflexivity|]. split.
  - intros Hseg props. unfold resolveRef.
    rewrite startsWith_hash_slash. simpl negb. cbv iota.
    change (Str.slice 2 (String.append "#/" segment)) with segment.
    rewrite split_noSlash by exact Hseg. simpl.
    destruct (decodeSegment segment) as [key|]; [|reflexivity].
    unfold JS.has, JS.getProp. simpl.
    destruct (JS.lookup key props); reflexivity.
  - apply decodeSegment_noPercent.
Qed.

Lemma C4_segment_key_witness :
  resolveRef (JObj [("a/b~", JNum 1); ("c d", JNum 2)]) "#/a~1b~0" = Ok (JNum 1)
  /\ resolveRef (JObj [("a/b~", JNum 1); ("c d", JNum 2)]) "#/c%20d" = Ok (JNum 2)
  /\ decodeSegment "a~1b~0" = decodeSegmentSpec "a~1b~0".
Proof.
  split; [|split].
  - apply (proj1 (proj2 (C4_segment_key "" "a~1b~0" [] JNull))). reflexivity.
  - apply (proj1 (proj2 (C4_segment_key "" "c%20d" [] JNull))). reflexivity.
  - apply (proj2 (proj2 (C4_segment_key "" "a~1b~0" [] JNull))). reflexivity.
Defined.

(** C4 as stated fails: decoding first would turn [%7E1] into [~1] and
    then into [/]; the source un-escapes first, so the name is [~1]. *)
Lemma C4_counterexample :
  decodeSegment "%7E1" = Some "~1"
  /\ decodeSegmentSpec "%7E1" = Some "/"
  /\ resolveRef (JObj [("~1", JNum 1); ("/", JNum 2)]) "#/%7E1" = Ok (JNum 1).
Proof. repeat split; reflexivity. Qed.

(** ** The endpoint index *)

Lemma pushOperations_app path pathItem : forall verbs endpoints,
  fold_left
    (fun endpoints method =>
       let operation := JS.getProp pathItem method in
       if JS.truthy operation
       then (endpoints ++ [endpointOf path method operation])%list
       else endpoints)
    verbs endpoints
  = (endpoints
       ++ List.map (fun verb => endpointOf path verb (JS.getProp pathItem verb))
            (List.filter (fun verb => JS.truthy (JS.getProp pathItem verb)) verbs))%list.
Proof.
  induction verbs as [|verb verbs IH]; intros endpoints; simpl.
  - rewrite app_nil_r. reflexivity.
  - rewrite IH. destruct (JS.truthy (JS.getProp pathItem verb)); simpl.
    + rewrite <- app_assoc. reflexivity.
    + reflexivity.
Qed.

Lemma endpoints_loop : forall entries endpoints,
  fold_left
    (fun endpoints (entry : string * JValue) =>
       let path := fst entry in
       let pathItem := snd entry in
       if negb (JS.truthy pathItem) then endpoints
       else pushOperations path pathItem endpoints)
    entries endpoints
  = (endpoints
       ++ flat_map (fun entry => operationsOf (fst entry) (snd entry)) entries)%list.
Proof.
  induction entries as [|[path pathItem] entries IH]; intros endpoints; simpl.
  - rewrite app_nil_r. reflexivity.
  - rewrite IH. unfold operationsOf at 2. simpl.
    destruct (JS.truthy pathItem); simpl.
    + unfold pushOperations. rewrite pushOperations_app, <- app_assoc. reflexivity.
    + reflexivity.
Qed.

Lemma entries_falsy v : JS.truthy v = false -> JS.entries v = [].
Proof.
  destruct v as [| |b|n|s|items|props]; simpl; try reflexivity; try discriminate.
  destruct s; [reflexivity|discriminate].
Qed.

Lemma buildEndpointIndex_spec document :
  JS.nullish document = false ->
  buildEndpointIndex document = Ok (endpointIndexOf (JS.getProp document "paths")).
Proof.
  intros Hdoc. unfold buildEndpointIndex, JS.member. rewrite Hdoc. simpl.
  destruct (JS.truthy (JS.getProp document "paths")) eqn:Hp; simpl.
  - rewrite endpoints_loop. reflexivity.
  - unfold endpointIndexOf. rewrite entries_falsy by exact Hp. reflexivity.
Qed.

(** C7. For every document (a value other than [null] and [undefined])
    [buildEndpointIndex] returns, for the paths in the order the document
    has them and within a path for the verbs in the order GET, POST, PUT,
    PATCH, DELETE, OPTIONS, HEAD, TRACE, exactly one entry per verb whose
    operation is present; the entry carries the path, the verb in upper
    case, and the operation's [summary], [description], [tags] and
    [operationId] as they are.  The document [{"/pets": {get, post}}]
    gives two entries, GET before POST. *)
Theorem C7_endpoint_index :
  (forall document,
      JS.nullish document = false ->
      buildEndpointIndex document
      = Ok (endpointIndexOf (JS.getProp document "paths")))
  /\ List.map Str.toUpperCase methods
     = ["GET"; "POST"; "PUT"; "PATCH"; "DELETE"; "OPTIONS"; "HEAD"; "TRACE"]
  /\ (forall path verb operation,
         endpointOf path verb operation
         = EndpointInfo.mk path (Str.toUpperCase verb)
             (JS.getProp operation "summary") (JS.getProp operation "description")
             (JS.getProp operation "tags") (JS.getProp operation "operationId"))
  /\ (forall getOperation postOperation,
         JS.truthy getOperation = true ->
         JS.truthy postOperation = true ->
         buildEndpointIndex (petsDoc getOperation postOperation)
         = Ok [endpointOf "/pets" "get" getOperation;
               endpointOf "/pets" "post" postOperation]
         /\ EndpointInfo.method (endpointOf "/pets" "get" getOperation) = "GET"
         /\ EndpointInfo.method (endpointOf "/pets" "post" postOperation) = "POST").
Proof.
  split; [exact buildEndpointIndex_spec|].
  split; [reflexivity|]. split; [reflexivity|].
  intros getOperation postOperation Hget Hpost.
  split; [|split; reflexivity].
  rewrite buildEndpointIndex_spec by reflexivity.
  unfold endpointIndexOf, operationsOf, petsDoc. simpl.
  change (JS.getProp (JObj [("get", getOperation); ("post", postOperation)]) "get")
    with getOperation.
  change (JS.getProp (JObj [("get", getOperation); ("post", postOperation)]) "post")
    with postOperation.
  rewrite Hget, Hpost. reflexivity.
Qed.

Lemma C7_endpoint_index_witness :
  buildEndpointIndex
    (petsDoc (JObj [("summary", JStr "List pets"); ("tags", JArr [JStr "pets"])])
             (JObj [("operationId", JStr "createPet")]))
  = Ok [EndpointInfo.mk "/pets" "GET" (JStr "List pets") JUndefined
          (JArr [JStr "pets"]) JUndefined;
        EndpointInfo.mk "/pets" "POST" JUndefined JUndefined JUndefined
          (JStr "createPet")].
Proof.
  apply (proj1 (proj2 (proj2 (proj2 C7_endpoint_index))
                  (JObj [("summary", JStr "List pets"); ("tags", JArr [JStr "pets"])])
                  (JObj [("operationId", JStr "createPet")]) eq_refl eq_refl)).
Defined.

(** ** Filters and pages *)

Lemma filter_and {A} (f g : A -> bool) l :
  List.filter g (List.filter f l) = List.filter (fun x => f x && g x) l.
Proof.
  induction l as [|x l IH]; simpl; [reflexivity|].
  destruct (f x); simpl; [destruct (g x); simpl; rewrite IH; reflexivity|exact IH].
Qed.

Lemma filter_all {A} (l : list A) : List.filter (fun _ => true) l = l.
Proof. induction l as [|x l IH]; simpl; [reflexivity|rewrite IH; reflexivity]. Qed.

Lemma filter_same {A} (f g : A -> bool) l :
  (forall x, f x = g x) -> List.filter f l = List.filter g l.
Proof.
  intros H. induction l as [|x l IH]; simpl; [reflexivity|].
  rewrite H, IH. reflexivity.
Qed.

Lemma filterR_spec {A} (f : A -> Res bool) l l' :
  filterR f l = Ok l' ->
  l' = List.filter (fun x => match f x with Ok b => b | Raise _ => false end) l.
Proof.
  revert l'. induction l as [|x l IH]; intros l'; simpl.
  - intros [= <-]. reflexivity.
  - destruct (f x) as [keep|e]; simpl; [|discriminate].
    destruct (filterR f l) as [rest|e]; simpl; [|discriminate].
    intros [= <-]. rewrite (IH rest eq_refl). reflexivity.
Qed.

Lemma filterR_returns {A} (f : A -> Res bool) l :
  Forall (fun x => exists b, f x = Ok b) l -> exists l', filterR f l = Ok l'.
Proof.
  induction 1 as [|x l [b Hb] _ [rest IH]]; simpl.
  - eexists. reflexivity.
  - rewrite Hb, IH. simpl. eexists. reflexivity.
Qed.

Lemma tagsMatch_returns wanted v :
  tagsSearchable v = true -> exists b, tagsMatch wanted v = Ok b.
Proof.
  unfold tagsSearchable, tagsMatch. destruct (JS.truthy v); simpl.
  - destruct v; try discriminate; intros _; eexists; reflexivity.
  - intros _. eexists. reflexivity.
Qed.

Lemma filterR_spec_with {A} (f : A -> Res bool) (g : A -> bool) l l' :
  (forall x b, f x = Ok b -> b = g x) ->
  filterR f l = Ok l' ->
  l' = List.filter g l.
Proof.
  intros Hfg. revert l'. induction l as [|x l IH]; intros l'; simpl.
  - intros [= <-]. reflexivity.
  - destruct (f x) as [keep|e] eqn:E; simpl; [|discriminate].
    destruct (filterR f l) as [rest|e]; simpl; [|discriminate].
    intros [= <-]. rewrite <- (Hfg _ _ E), (IH rest eq_refl). reflexivity.
Qed.

Lemma describes_spec test e b :
  (let* bySummary :=
     if JS.truthy (EndpointInfo.summary e)
     then testValue test (EndpointInfo.summary e)
     else Ok false in
   if bySummary then Ok true
   else if JS.truthy (EndpointInfo.description e)
        then testValue test (EndpointInfo.description e)
        else Ok false)%res = Ok b ->
  b = (JS.truthy (EndpointInfo.summary e) && test (EndpointInfo.summary e))
      || (JS.truthy (EndpointInfo.description e)
          && test (EndpointInfo.description e)).
Proof.
  unfold testValue.
  destruct (JS.truthy (EndpointInfo.summary e)),
           (stringable (EndpointInfo.summary e)),
           (test (EndpointInfo.summary e)),
           (JS.truthy (EndpointInfo.description e)),
           (stringable (EndpointInfo.description e)),
           (test (EndpointInfo.description e));
    cbn; intros H; try discriminate H; injection H as <-; reflexivity.
Qed.

(** an entry whose [summary] and [description] the description filter
    can test: each is falsy or a value [ToString] converts *)
Lemma describes_returns test e :
  (JS.truthy (EndpointInfo.summary e) = true ->
   stringable (EndpointInfo.summary e) = true) ->
  (JS.truthy (EndpointInfo.description e) = true ->
   stringable (EndpointInfo.description e) = true) ->
  exists b,
    (let* bySummary :=
       if JS.truthy (EndpointInfo.summary e)
       then testValue test (EndpointInfo.summary e)
       else Ok false in
     if bySummary then Ok true
     else if JS.truthy (EndpointInfo.description e)
          then testValue test (EndpointInfo.description e)
          else Ok false)%res = Ok b.
Proof.
  unfold testValue. intros Hs Hd.
  destruct (JS.truthy (EndpointInfo.summary e));
    [rewrite Hs by reflexivity|]; cbn [rbind];
  try destruct (test (EndpointInfo.summary e));
  try (destruct (JS.truthy (EndpointInfo.description e));
       [rewrite Hd by reflexivity|]);
  eexists; reflexivity.
Qed.

Lemma filterEndpoints_spec RegExp index options filtered :
  filterEndpoints RegExp index options = Ok filtered ->
  filtered = List.filter (keepsEndpoint RegExp options) index.
Proof.
  destruct options as [pathPattern method tags description limit offset].
  unfold filterEndpoints, compile. simpl.
  remember (List.filter _ index) as kept0 eqn:Hkept0.
  rewrite <- (filter_all index). subst kept0. unfold keepsEndpoint. simpl.
  destruct (given pathPattern) as [pp|];
    [destruct (RegExp pp) as [ptest|]; [|discriminate]|]; cbn [rbind];
  (destruct (given method) as [m|]);
  (destruct tags as [[|tag more]|]; cbn [rbind];
   try (match goal with
        | |- context [filterR ?f ?l] =>
            let E := fresh "E" in
            destruct (filterR f l) as [kept|] eqn:E; [|discriminate];
            apply filterR_spec in E; subst kept; cbn [rbind]
        end));
  (destruct (given description) as [dp|];
    [destruct (RegExp dp) as [dtest|]; [|discriminate]; cbn [rbind];
     intros H; apply (filterR_spec_with _ _ _ _ (describes_spec dtest)) in H;
     subst filtered
    |intros [= <-]]);
  rewrite ?filter_and; apply filter_same; intros e; btauto.
Qed.

Lemma filterEndpoints_returns RegExp index options :
  compiles RegExp (EndpointSearch.pathPattern options) ->
  compiles RegExp (EndpointSearch.description options) ->
  Forall (fun e => tagsSearchable (EndpointInfo.tags e) = true) index ->
  Forall (fun e => describable e = true) index ->
  exists filtered, filterEndpoints RegExp index options = Ok filtered.
Proof.
  destruct options as [pathPattern method tags description limit offset].
  unfold compiles, filterEndpoints, compile. simpl. intros Hp Hd Htags Hdesc.
  assert (Hsub : forall f, Forall (fun e => tagsSearchable (EndpointInfo.tags e) = true)
                             (List.filter f index)).
  { intros f. rewrite Forall_forall in Htags |- *. intros e He.
    apply Htags. apply list_elem_of_In in He. apply list_elem_of_In.
    apply filter_In in He. tauto. }
  assert (Hsub' : forall f, Forall (fun e => describable e = true)
                              (List.filter f index)).
  { intros f. rewrite Forall_forall in Hdesc |- *. intros e He.
    apply Hdesc. apply list_elem_of_In in He. apply list_elem_of_In.
    apply filter_In in He. tauto. }
  assert (Hall : forall wanted l,
             Forall (fun e => tagsSearchable (EndpointInfo.tags e) = true) l ->
             exists l', filterR (fun e => tagsMatch wanted (EndpointInfo.tags e)) l = Ok l').
  { intros wanted l Hl. apply filterR_returns.
    eapply Forall_impl; [exact Hl|]. intros e He. apply tagsMatch_returns, He. }
  assert (Hall' : forall test l,
             Forall (fun e => describable e = true) l ->
             exists l',
               filterR
                 (fun e =>
                    let* bySummary :=
                      if JS.truthy (EndpointInfo.summary e)
                      then testValue test (EndpointInfo.summary e)
                      else Ok false in
                    if bySummary then Ok true
                    else if JS.truthy (EndpointInfo.description e)
                         then testValue test (EndpointInfo.description e)
                         else Ok false)%res l = Ok l').
  { intros test l Hl. apply filterR_returns.
    eapply Forall_impl; [exact Hl|]. intros e He. unfold describable in He.
    apply andb_true_iff in He as [Hs Hd'].
    apply describes_returns.
    - intros Ht. rewrite Ht in Hs. exact Hs.
    - intros Ht. rewrite Ht in Hd'. exact Hd'. }
  rewrite <- (filter_all index).
  destruct (given pathPattern) as [pp|];
    [destruct (RegExp pp) as [ptest|]; [|congruence]|]; cbn [rbind];
  (destruct (given method) as [m|]);
  (destruct tags as [[|tag more]|]; cbn [rbind];
   try (match goal with
        | |- context [filterR ?f ?l] =>
            let E := fresh "E" in
            destruct (Hall (tag :: more) l) as [kept E];
            [rewrite ?filter_and; apply Hsub
            |rewrite E; cbn [rbind]; apply filterR_spec in E; subst kept]
        end));
  (destruct (given description) as [dp|];
    [destruct (RegExp dp) as [dtest|]; [|congruence]; cbn [rbind];
     apply Hall'; rewrite ?filter_and; apply Hsub'
    |eexists; reflexivity]).
Qed.

Lemma filterSchemas_spec RegExp index options filtered :
  filterSchemas RegExp index options = Ok filtered ->
  filtered = List.filter (keepsSchema RegExp options) index.
Proof.
  destruct options as [namePattern propertyName limit offset].
  unfold filterSchemas, compile. simpl.
  remember (List.filter _ index) as kept0 eqn:Hkept0.
  rewrite <- (filter_all index). subst kept0. unfold keepsSchema. simpl.
  destruct (given namePattern) as [np|];
    [destruct (RegExp np) as [ntest|]; [|discriminate]|]; simpl;
  (destruct (given propertyName) as [pn|]);
  intros [= <-]; rewrite ?filter_and; apply filter_same; intros s; btauto.
Qed.

Lemma filterSchemas_returns RegExp index options :
  compiles RegExp (SchemaSearch.namePattern options) ->
  exists filtered, filterSchemas RegExp index options = Ok filtered.
Proof.
  destruct options as [namePattern propertyName limit offset].
  unfold compiles, filterSchemas, compile. simpl. intros Hn.
  destruct (given namePattern) as [np|];
    [destruct (RegExp np) as [ntest|]; [|congruence]|]; simpl;
  destruct (given propertyName); eexists; reflexivity.
Qed.

Lemma slice_page {A} (l : list A) (offset limit : Z) :
  0 <= offset -> 0 <= limit ->
  slice l offset (offset + limit) = pageOf l offset limit
  /\ pageOf l offset limit = firstn (Z.to_nat limit) (skipn (Z.to_nat offset) l).
Proof.
  intros Ho Hl. unfold slice, pageOf, relativeIndex.
  replace (offset <? 0) with false by lia.
  replace (offset + limit <? 0) with false by lia.
  replace (Z.max 0 offset) with offset by lia.
  replace (Z.max offset (offset + limit)) with (offset + limit) by lia.
  replace (offset + limit - offset) with limit by lia.
  set (len := Z.of_nat (List.length l)).
  destruct (Z_le_gt_dec offset len) as [Hle|Hgt].
  - replace (Z.min offset len) with offset by lia.
    split; [|reflexivity].
    destruct (Z_le_gt_dec (offset + limit) len) as [Hle'|Hgt'].
    + replace (Z.min (offset + limit) len) with (offset + limit) by lia.
      replace (offset + limit - offset) with limit by lia. reflexivity.
    + replace (Z.min (offset + limit) len) with len by lia.
      rewrite !List.firstn_all2; [reflexivity| |];
        rewrite List.length_skipn; unfold len; lia.
  - replace (Z.min offset len) with len by lia.
    replace (Z.min (offset + limit) len) with len by lia.
    replace (len - len) with 0 by lia.
    rewrite (List.skipn_all2 (n := Z.to_nat offset)) by (unfold len in Hgt; lia).
    rewrite List.firstn_nil. split; reflexivity.
Qed.

(** C5, as amended.  In both searches the filters come first and the
    page is cut from what they keep: whenever the filters return (which
    they do when the patterns given are accepted and no entry makes the
    tag test or the description test throw), [total] is the length of
    the filtered sequence whatever the limit and offset, [hasMore] is
    [offset + length page < total], and the page is the [slice] from
    [offset] to [offset + limit] of the filtered sequence, where an
    absent or zero limit stands for 20 and an absent offset for 0; for
    [offset >= 0] and [limit >= 0] that slice is the page
    [[offset, offset+limit)]. *)
Theorem C5_pagination (RegExp : string -> option (JValue -> bool))
    (cached : CachedSpec) (eOptions : EndpointSearch.t) (sOptions : SchemaSearch.t) :
  (forall filtered,
      filterEndpoints RegExp (endpointIndex cached) eOptions = Ok filtered ->
      let offset := orDefault (EndpointSearch.offset eOptions) 0 in
      let limit := orDefault (EndpointSearch.limit eOptions) 20 in
      let page := slice filtered offset (offset + limit) in
      let total := Z.of_nat (List.length filtered) in
      filtered = List.filter (keepsEndpoint RegExp eOptions) (endpointIndex cached)
      /\ searchEndpoints RegExp (Some cached) eOptions
         = Ok {| found := page; total := total |}
      /\ searchEndpointsTool RegExp (Some cached) eOptions
         = Ok {| items := page;
                 pagination :=
                   {| pageTotal := total; pageLimit := limit; pageOffset := offset;
                      hasMore := offset + Z.of_nat (List.length page) <? total |} |}
      /\ (0 <= offset -> 0 <= limit -> page = pageOf filtered offset limit))
  /\ (forall filtered,
         filterSchemas RegExp (schemaIndex cached) sOptions = Ok filtered ->
         let offset := orDefault (SchemaSearch.offset sOptions) 0 in
         let limit := orDefault (SchemaSearch.limit sOptions) 20 in
         let page := slice filtered offset (offset + limit) in
         let total := Z.of_nat (List.length filtered) in
         filtered = List.filter (keepsSchema RegExp sOptions) (schemaIndex cached)
         /\ searchSchemas RegExp (Some cached) sOptions
            = Ok {| found := page; total := total |}
         /\ searchSchemasTool RegExp (Some cached) sOptions
            = Ok {| items := page;
                    pagination :=
                      {| pageTotal := total; pageLimit := limit; pageOffset := offset;
                         hasMore := offset + Z.of_nat (List.length page) <? total |} |}
         /\ (0 <= offset -> 0 <= limit -> page = pageOf filtered offset limit))
  /\ (forall limit offset,
         filterEndpoints RegExp (endpointIndex cached)
                         (pagedEndpoints eOptions limit offset)
         = filterEndpoints RegExp (endpointIndex cached) eOptions
         /\ filterSchemas RegExp (schemaIndex cached)
                          (pagedSchemas sOptions limit offset)
            = filterSchemas RegExp (schemaIndex cached) sOptions)
  /\ (compiles RegExp (EndpointSearch.pathPattern eOptions) ->
      compiles RegExp (EndpointSearch.description eOptions) ->
      Forall (fun e => tagsSearchable (EndpointInfo.tags e) = true)
             (endpointIndex cached) ->
      Forall (fun e => describable e = true) (endpointIndex cached) ->
      exists filtered,
        filterEndpoints RegExp (endpointIndex cached) eOptions = Ok filtered)
  /\ (compiles RegExp (SchemaSearch.namePattern sOptions) ->
      exists filtered,
        filterSchemas RegExp (schemaIndex cached) sOptions = Ok filtered).
Proof.
  split; [|split; [|split; [|split]]].
  - intros filtered Hf. cbv zeta. split; [eapply filterEndpoints_spec, Hf|].
    split; [|split].
    + unfold searchEndpoints. rewrite Hf. reflexivity.
    + unfold searchEndpointsTool, searchEndpoints. rewrite Hf. reflexivity.
    + intros Ho Hl. apply slice_page; assumption.
  - intros filtered Hf. cbv zeta. split; [eapply filterSchemas_spec, Hf|].
    split; [|split].
    + unfold searchSchemas. rewrite Hf. reflexivity.
    + unfold searchSchemasTool, searchSchemas. rewrite Hf. reflexivity.
    + intros Ho Hl. apply slice_page; assumption.
  - intros limit offset. split; reflexivity.
  - apply filterEndpoints_returns.
  - apply filterSchemas_returns.
Qed.

(** Three entries, [limit = 2], [offset = 1]: the page is the second and
    third, the total 3, and nothing is left. *)
Lemma C5_pagination_witness :
  searchEndpointsTool noRegExp (Some sampleCache) (noFilter (Some 2) (Some 1))
  = Ok {| items := [sampleEndpoint "/b"; sampleEndpoint "/c"];
          pagination := {| pageTotal := 3; pageLimit := 2; pageOffset := 1;
                           hasMore := false |} |}
  /\ slice (endpointIndex sampleCache) 1 (1 + 2)
     = pageOf (endpointIndex sampleCache) 1 2.
Proof.
  destruct (C5_pagination noRegExp sampleCache (noFilter (Some 2) (Some 1))
              (SchemaSearch.mk None None None None)) as (He & _).
  destruct (He (endpointIndex sampleCache) eq_refl) as (_ & _ & Htool & Hpage).
  split; [exact Htool|]. apply Hpage; simpl; lia.
Defined.

(** C5 as stated fails.  With [limit = 0] the page holds all three
    entries, not the empty page [[0, 0)]; with [offset = -1] it holds the
    last entry only, not the entries at the positions from [-1] up to
    [19]. *)
Lemma C5_counterexample :
  searchEndpoints noRegExp (Some sampleCache) (noFilter (Some 0) None)
  = Ok {| found := [sampleEndpoint "/a"; sampleEndpoint "/b"; sampleEndpoint "/c"];
          total := 3 |}
  /\ pageOf (endpointIndex sampleCache) 0 0 = []
  /\ searchEndpoints noRegExp (Some sampleCache) (noFilter None (Some (-1)))
     = Ok {| found := [sampleEndpoint "/c"]; total := 3 |}
  /\ pageOf (endpointIndex sampleCache) (-1) 20
     = [sampleEndpoint "/a"; sampleEndpoint "/b"; sampleEndpoint "/c"].
Proof. repeat split; reflexivity. Qed.

Lemma page_empty {A} (l : list A) (n : nat) :
  firstn 20 (skipn n l) = [] <-> (List.length l <= n)%nat.
Proof.
  rewrite <- List.length_zero_iff_nil, List.length_firstn, List.length_skipn. lia.
Qed.

(** C10, as amended.  In both searches a limit of 0 is the absent limit,
    which is 20, and an offset of 0 is the absent offset: the results
    are the same and the tool reports the same pagination.  With a limit
    of 0 and an offset that is not negative, the result is cut from what
    the filters keep: the total is the number of entries kept, and the
    page is the entries from the offset on, up to 20 of them, so it is
    empty exactly when the offset is at or beyond the total. *)
Theorem C10_zero_is_default (RegExp : string -> option (JValue -> bool))
    (cache : option CachedSpec) (cached : CachedSpec)
    (pathPattern method : option string) (tags : option (list string))
    (description namePattern propertyName : option string)
    (limit offset : option Z) :
  searchEndpoints RegExp cache
    (EndpointSearch.mk pathPattern method tags description (Some 0) offset)
  = searchEndpoints RegExp cache
      (EndpointSearch.mk pathPattern method tags description None offset)
  /\ searchEndpoints RegExp cache
       (EndpointSearch.mk pathPattern method tags description (Some 0) offset)
     = searchEndpoints RegExp cache
         (EndpointSearch.mk pathPattern method tags description (Some 20) offset)
  /\ searchEndpoints RegExp cache
       (EndpointSearch.mk pathPattern method tags description limit (Some 0))
     = searchEndpoints RegExp cache
         (EndpointSearch.mk pathPattern method tags description limit None)
  /\ searchSchemas RegExp cache (SchemaSearch.mk namePattern propertyName (Some 0) offset)
     = searchSchemas RegExp cache (SchemaSearch.mk namePattern propertyName None offset)
  /\ searchSchemas RegExp cache (SchemaSearch.mk namePattern propertyName (Some 0) offset)
     = searchSchemas RegExp cache
         (SchemaSearch.mk namePattern propertyName (Some 20) offset)
  /\ searchSchemas RegExp cache (SchemaSearch.mk namePattern propertyName limit (Some 0))
     = searchSchemas RegExp cache (SchemaSearch.mk namePattern propertyName limit None)
  /\ searchEndpointsTool RegExp cache
       (EndpointSearch.mk pathPattern method tags description (Some 0) (Some 0))
     = searchEndpointsTool RegExp cache
         (EndpointSearch.mk pathPattern method tags description None None)
  /\ searchSchemasTool RegExp cache
       (SchemaSearch.mk namePattern propertyName (Some 0) (Some 0))
     = searchSchemasTool RegExp cache
         (SchemaSearch.mk namePattern propertyName None None)
  /\ (forall filtered,
         0 <= orDefault offset 0 ->
         filterEndpoints RegExp (endpointIndex cached)
           (EndpointSearch.mk pathPattern method tags description (Some 0) offset)
         = Ok filtered ->
         let page := firstn 20 (skipn (Z.to_nat (orDefault offset 0)) filtered) in
         filtered
         = List.filter
             (keepsEndpoint RegExp
                (EndpointSearch.mk pathPattern method tags description (Some 0) offset))
             (endpointIndex cached)
         /\ searchEndpoints RegExp (Some cached)
              (EndpointSearch.mk pathPattern method tags description (Some 0) offset)
            = Ok {| found := page; total := Z.of_nat (List.length filtered) |}
         /\ (page = [] <-> Z.of_nat (List.length filtered) <= orDefault offset 0))
  /\ (forall filtered,
         0 <= orDefault offset 0 ->
         filterSchemas RegExp (schemaIndex cached)
           (SchemaSearch.mk namePattern propertyName (Some 0) offset)
         = Ok filtered ->
         let page := firstn 20 (skipn (Z.to_nat (orDefault offset 0)) filtered) in
         filtered
         = List.filter
             (keepsSchema RegExp
                (SchemaSearch.mk namePattern propertyName (Some 0) offset))
             (schemaIndex cached)
         /\ searchSchemas RegExp (Some cached)
              (SchemaSearch.mk namePattern propertyName (Some 0) offset)
            = Ok {| found := page; total := Z.of_nat (List.length filtered) |}
         /\ (page = [] <-> Z.of_nat (List.length filtered) <= orDefault offset 0)).
Proof.
  repeat (split; [reflexivity|]). split.
  - intros filtered Hoffset Hf. cbv zeta. split; [eapply filterEndpoints_spec, Hf|]. split.
    + unfold searchEndpoints. rewrite Hf.
      cbn [rbind EndpointSearch.offset EndpointSearch.limit orDefault Z.eqb].
      destruct (slice_page filtered (orDefault offset 0) 20 Hoffset ltac:(lia))
        as [-> ->].
      reflexivity.
    + rewrite page_empty. lia.
  - intros filtered Hoffset Hf. cbv zeta. split; [eapply filterSchemas_spec, Hf|]. split.
    + unfold searchSchemas. rewrite Hf.
      cbn [rbind SchemaSearch.offset SchemaSearch.limit orDefault Z.eqb].
      destruct (slice_page filtered (orDefault offset 0) 20 Hoffset ltac:(lia))
        as [-> ->].
      reflexivity.
    + rewrite page_empty. lia.
Qed.

(** Three entries, a limit of 0: without an offset the page holds the
    three of them, and from the offset 1 the last two. *)
Lemma C10_zero_is_default_witness :
  searchEndpoints noRegExp (Some sampleCache) (noFilter (Some 0) None)
  = searchEndpoints noRegExp (Some sampleCache) (noFilter (Some 20) None)
  /\ searchEndpoints noRegExp (Some sampleCache) (noFilter (Some 0) (Some 1))
     = Ok {| found := [sampleEndpoint "/b"; sampleEndpoint "/c"]; total := 3 |}.
Proof.
  split.
  - destruct (C10_zero_is_default noRegExp (Some sampleCache) sampleCache
                None None None None None None None None)
      as (_ & Hsame & _).
    exact Hsame.
  - destruct (C10_zero_is_default noRegExp (Some sampleCache) sampleCache
                None None None None None None None (Some 1))
      as (_ & _ & _ & _ & _ & _ & _ & _ & Hpage & _).
    apply (Hpage (endpointIndex sampleCache) ltac:(simpl; lia) eq_refl).
Defined.

(** C10 as stated fails: with a limit of 0 the page can be empty although
    entries passed the filters.  At the offset 5 the endpoint search over
    three entries and the schema search over two return no entry. *)
Lemma C10_counterexample :
  searchEndpoints noRegExp (Some sampleCache) (noFilter (Some 0) (Some 5))
  = Ok {| found := []; total := 3 |}
  /\ searchSchemas noRegExp (Some sampleCache)
       (SchemaSearch.mk None None (Some 0) (Some 5))
     = Ok {| found := []; total := 2 |}.
Proof. split; reflexivity. Qed.

(** ** What resolution can throw *)

Lemma onlyURIError_ret {A} (a : A) : onlyURIError (ret a).
Proof. intros visited e visited' H. discriminate H. Qed.

Lemma onlyURIError_bind {A B} (c : M A) (k : A -> M B) :
  onlyURIError c -> (forall a, onlyURIError (k a)) -> onlyURIError (bind c k).
Proof.
  intros Hc Hk visited e visited'. unfold bind.
  destruct (c visited) as [[[a|e0] v1]|] eqn:E; try discriminate.
  - apply Hk.
  - intros [= <- _]. eapply Hc, E.
Qed.

Lemma onlyURIError_mapM {A B} (f : A -> M B) (l : list A) :
  (forall x, onlyURIError (f x)) -> onlyURIError (mapM f l).
Proof.
  intros H. induction l as [|x l IH]; simpl; [apply onlyURIError_ret|].
  apply onlyURIError_bind; [apply H|intros y].
  apply onlyURIError_bind; [exact IH|intros; apply onlyURIError_ret].
Qed.

Lemma onlyURIError_foldM {A B} (f : B -> A -> M B) (l : list A) :
  (forall acc x, onlyURIError (f acc x)) -> forall acc, onlyURIError (foldM f acc l).
Proof.
  intros H. induction l as [|x l IH]; intros acc; simpl; [apply onlyURIError_ret|].
  apply onlyURIError_bind; [apply H|intros acc'; apply IH].
Qed.

Lemma walk_throws pointer : forall path current e,
  walk pointer path current = Raise e -> e = URIError.
Proof.
  induction path as [|segment path IH]; intros current e; simpl; [discriminate|].
  destruct (decodeSegment segment) as [key|]; [|intros [= <-]; reflexivity].
  destruct (JS.truthy current && JS.typeofObject current && JS.has key current);
    [apply IH|discriminate].
Qed.

Lemma resolveRef_throws document pointer e :
  resolveRef document pointer = Raise e -> e = URIError.
Proof.
  unfold resolveRef. destruct (negb (Str.startsWith "#/" pointer)); [discriminate|].
  apply walk_throws.
Qed.

Lemma onlyURIError_fuel document : forall fuel obj maxDepth currentDepth,
  onlyURIError (resolveAllRefsFuel fuel document obj maxDepth currentDepth).
Proof.
  induction fuel as [|fuel IH]; intros obj maxDepth currentDepth.
  - intros visited e visited' H. discriminate H.
  - rewrite resolveAllRefsFuel_S.
    destruct (currentDepth >=? maxDepth); [apply onlyURIError_ret|].
    destruct obj as [| | | | |items|props]; try apply onlyURIError_ret.
    + apply onlyURIError_bind; [|intros; apply onlyURIError_ret].
      apply onlyURIError_mapM. intros; apply IH.
    + destruct (refOf props) as [pointer|].
      * apply onlyURIError_bind; [intros v e v' H; discriminate H|].
        intros [|]; [apply onlyURIError_ret|].
        apply onlyURIError_bind; [intros v e v' H; discriminate H|intros _].
        apply onlyURIError_bind.
        { intros v e v'. unfold lift. intros [= H _]. eapply resolveRef_throws, H. }
        intros resolved. apply onlyURIError_bind; [apply IH|intros result].
        apply onlyURIError_bind; [intros v e v' H; discriminate H|].
        intros; apply onlyURIError_ret.
      * apply onlyURIError_bind; [|intros; apply onlyURIError_ret].
        apply onlyURIError_foldM. intros acc kv.
        apply onlyURIError_bind; [apply IH|intros; apply onlyURIError_ret].
Qed.

Lemma resolveAllRefs_throws document obj maxDepth currentDepth visited e visited' :
  resolveAllRefs document obj maxDepth currentDepth visited = (Raise e, visited') ->
  e = URIError.
Proof.
  intros H. eapply onlyURIError_fuel.
  rewrite resolveAllRefs_fuel by apply Nat.le_refl. rewrite H. reflexivity.
Qed.

(** ** Schema details *)

Lemma prefix_same s : String.prefix s s = true.
Proof. induction s as [|c s IH]; simpl; [reflexivity|]. destruct (ascii_dec c c); [exact IH|congruence]. Qed.

Lemma includes_suffix before needle :
  Str.includes needle (String.append before needle) = true.
Proof.
  induction before as [|c before IH].
  - change (String.append "" needle) with needle.
    destruct needle; simpl; [reflexivity|].
    destruct (ascii_dec a a); [|congruence]. rewrite prefix_same. reflexivity.
  - change (String.append (String c before) needle)
      with (String c (String.append before needle)).
    cbn [Str.includes]. rewrite IH. apply orb_true_r.
Qed.

(** C8, as amended.  For every document and every schema name that is a
    key of [components.schemas] or a name that value cannot inherit,
    [getSchemaDetails] throws an [Error] exactly when the value under the
    name in [components.schemas] is absent or falsy ([null], [false], [0],
    the empty string); the message is [Schema not found: ] followed by
    the name.  When the value is truthy the operation returns
    [{name, schema}], the schema as it is without [resolveRefs] and
    resolved otherwise; what resolution throws (the [URIError] of a
    malformed escape) the operation throws. *)
Theorem C8_schema_details (document : JValue) (schemaName : string)
    (resolveRefs : bool) (maxDepth : Z) :
  JS.nullish document = false ->
  ownName (schemasOf document) schemaName = true ->
  ((exists message,
       getSchemaDetails document schemaName resolveRefs maxDepth
       = Raise (Error message))
   <-> JS.truthy (schemaAt document schemaName) = false)
  /\ (JS.truthy (schemaAt document schemaName) = false ->
      getSchemaDetails document schemaName resolveRefs maxDepth
      = Raise (Error (String.append "Schema not found: " schemaName))
      /\ Str.includes schemaName (String.append "Schema not found: " schemaName) = true)
  /\ (JS.truthy (schemaAt document schemaName) = true ->
      getSchemaDetails document schemaName resolveRefs maxDepth
      = if resolveRefs
        then match fst (resolveAllRefs document (schemaAt document schemaName)
                                       maxDepth 0 ∅) with
             | Ok resolved => Ok (schemaDetails schemaName resolved)
             | Raise e => Raise e
             end
        else Ok (schemaDetails schemaName (schemaAt document schemaName))).
Proof.
  intros Hdoc _.
  assert (Hunfold :
    getSchemaDetails document schemaName resolveRefs maxDepth
    = if negb (JS.truthy (schemaAt document schemaName))
      then Raise (notFound schemaName)
      else if resolveRefs
           then match fst (resolveAllRefs document (schemaAt document schemaName)
                                          maxDepth 0 ∅) with
                | Ok resolved => Ok (schemaDetails schemaName resolved)
                | Raise e => Raise e
                end
           else Ok (schemaDetails schemaName (schemaAt document schemaName))).
  { unfold getSchemaDetails, schemaNamed, JS.member. rewrite Hdoc. simpl.
    fold (schemaAt document schemaName).
    destruct (JS.truthy (schemaAt document schemaName)); simpl; [|reflexivity].
    destruct resolveRefs; [|reflexivity].
    destruct (resolveAllRefs document (schemaAt document schemaName) maxDepth 0 ∅)
      as [[resolved|e] visited']; reflexivity. }
  rewrite Hunfold. split; [|split].
  - destruct (JS.truthy (schemaAt document schemaName)); simpl.
    + split; [|discriminate]. intros [message H]. exfalso.
      destruct resolveRefs; [|discriminate].
      destruct (resolveAllRefs document (schemaAt document schemaName) maxDepth 0 ∅)
        as [[resolved|e] visited'] eqn:E; simpl in H; [discriminate|].
      apply resolveAllRefs_throws in E. congruence.
    + split; [reflexivity|]. intros _. eexists. reflexivity.
  - intros ->. cbn [negb]. split; [reflexivity|]. apply includes_suffix.
  - intros ->. reflexivity.
Qed.

Lemma C8_schema_details_witness :
  getSchemaDetails schemasDoc "Missing" true 5
  = Raise (Error "Schema not found: Missing")
  /\ getSchemaDetails schemasDoc "Pet" true 5
     = Ok (schemaDetails "Pet"
             (JObj [("type", JStr "object");
                    ("properties",
                     JObj [("owner", JObj [("type", JStr "object")])])])).
Proof.
  split.
  - apply (proj1 (proj2 (C8_schema_details schemasDoc "Missing" true 5
                           eq_refl eq_refl))).
    reflexivity.
  - rewrite (proj2 (proj2 (C8_schema_details schemasDoc "Pet" true 5
                             eq_refl eq_refl)))
      by reflexivity.
    vm_compute. reflexivity.
Defined.

(** C8 as stated fails.  [Never] is a key of [components.schemas] (its
    schema is [false]) and yet the lookup throws the not-found error;
    [Broken] is a key with a truthy schema and yet the operation, asked
    to resolve, throws. *)
Lemma C8_counterexample :
  JS.has "Never" (JS.getProp (JS.getProp schemasDoc "components") "schemas") = true
  /\ getSchemaDetails schemasDoc "Never" true 5
     = Raise (Error "Schema not found: Never")
  /\ JS.has "Broken" (JS.getProp (JS.getProp schemasDoc "components") "schemas") = true
  /\ getSchemaDetails schemasDoc "Broken" true 5 = Raise URIError.
Proof. repeat split; vm_compute; reflexivity. Qed.

(** ** The cache *)

(** The promise in flight rejects while a document is cached: the call
    that started the fetch falls back to the cached document, the calls
    that joined it are rejected, and the cache is as it was. *)
Lemma fetchSettles_rejected_stale (w : World) stale pending error now :
  cache (manager w) = Some stale ->
  fetchPromise (manager w) = Some pending ->
  let w' := fetchSettles (Raise error) now w in
  cache (manager w') = Some stale
  /\ fetchPromise (manager w') = None
  /\ settled w'
     = (settled w ++ (initiator pending, Ok (spec stale))
          :: List.map (fun caller => (caller, Raise error)) (joiners pending))%list.
Proof.
  intros Hc Hp. unfold fetchSettles, resume. rewrite Hp. simpl. rewrite Hc. simpl.
  repeat split.
Qed.

(** The promise in flight rejects while nothing is cached: every waiting
    call is rejected and the cache stays empty. *)
Lemma fetchSettles_rejected_empty (w : World) pending error now :
  cache (manager w) = None ->
  fetchPromise (manager w) = Some pending ->
  let w' := fetchSettles (Raise error) now w in
  cache (manager w') = None
  /\ fetchPromise (manager w') = None
  /\ settled w'
     = (settled w ++ List.map (fun caller => (caller, Raise error))
                       (initiator pending :: joiners pending))%list.
Proof.
  intros Hc Hp. unfold fetchSettles, resume. rewrite Hp. simpl. rewrite Hc. simpl.
  repeat split.
Qed.

(** C6, where the code departs from it.  The first fetch fills the
    cache; after the five minutes of the TTL caller 2 starts a fetch and
    caller 3 joins it; the fetch fails.  Caller 2 gets the cached
    document.  Caller 3 is rejected with the failure of the fetch, though
    the cache holds a document. *)
Theorem C6_joined_call_rejected :
  let w := run 300000 tenMinutes start in
  outcomeOf 1%nat w = Some (Ok (petsDoc (JObj []) (JObj [])))
  /\ outcomeOf 2%nat w = Some (Ok (petsDoc (JObj []) (JObj [])))
  /\ outcomeOf 3%nat w = Some (Raise (Error "network"))
  /\ option_map spec (cache (manager w)) = Some (petsDoc (JObj []) (JObj []))
  /\ fetchPromise (manager w) = None.
Proof. repeat split; vm_compute; reflexivity. Qed.

(** * Further properties *)

(** ** The resolver *)

(** X1. What a reference node resolves to depends on its pointer only:
    the fields that stand beside [$ref] are dropped. *)
Theorem X1_ref_siblings_dropped (document : JValue) (maxDepth currentDepth : Z)
    (props props' : list (string * JValue)) (pointer : string)
    (visited : gset string) :
  currentDepth < maxDepth ->
  refOf props = Some pointer ->
  refOf props' = Some pointer ->
  resolveAllRefs document (JObj props) maxDepth currentDepth visited
  = resolveAllRefs document (JObj props') maxDepth currentDepth visited.
Proof.
  intros Hd H1 H2. destruct (decide (pointer ∈ visited)) as [Hin|Hout].
  - rewrite (resolveAllRefs_seen document maxDepth currentDepth props pointer)
      by assumption.
    rewrite (resolveAllRefs_seen document maxDepth currentDepth props' pointer)
      by assumption.
    reflexivity.
  - rewrite (resolveAllRefs_hop document maxDepth currentDepth props pointer)
      by assumption.
    rewrite (resolveAllRefs_hop document maxDepth currentDepth props' pointer)
      by assumption.
    reflexivity.
Qed.

Lemma X1_ref_siblings_dropped_witness :
  resolveAllRefs userDoc
    (JObj [("description", JStr "the owner"); ("$ref", JStr "#/components/schemas/User")])
    5 0 ∅
  = resolveAllRefs userDoc (refTo "#/components/schemas/User") 5 0 ∅.
Proof.
  apply (X1_ref_siblings_dropped userDoc 5 0 _ _ "#/components/schemas/User");
    [lia|reflexivity|reflexivity].
Defined.

Lemma marker_resolves_to_itself document maxDepth currentDepth pointer visited :
  resolveAllRefs document (unresolvableRef pointer) maxDepth currentDepth visited
  = (Ok (unresolvableRef pointer), visited).
Proof. apply resolveAllRefs_id; reflexivity. Qed.

(** X2. A reference that cannot be followed (a pointer outside the
    document, or one whose walk, made of lookups of names that are own
    or cannot be inherited, ends in the marker) is replaced by the
    marker [{$unresolvableRef: pointer}]; resolution goes on and
    [visitedRefs] is as before. *)
Theorem X2_dangling_ref_marker (document : JValue) (maxDepth currentDepth : Z)
    (props : list (string * JValue)) (pointer : string) (visited : gset string) :
  currentDepth < maxDepth ->
  refOf props = Some pointer ->
  pointer ∉ visited ->
  (Str.startsWith "#/" pointer = false
   \/ (ownPointer document pointer = true
       /\ resolveRef document pointer = Ok (unresolvableRef pointer))) ->
  resolveAllRefs document (JObj props) maxDepth currentDepth visited
  = (Ok (unresolvableRef pointer), visited).
Proof.
  intros Hd Href Hout Hdangling.
  assert (Hres : resolveRef document pointer = Ok (unresolvableRef pointer)).
  { destruct Hdangling as [Hext|[_ H]]; [|exact H].
    unfold resolveRef. rewrite Hext. reflexivity. }
  rewrite (resolveAllRefs_hop document maxDepth currentDepth props pointer)
    by assumption.
  rewrite Hres, marker_resolves_to_itself. f_equal. set_solver.
Qed.

Lemma X2_dangling_ref_marker_witness :
  resolveAllRefs userDoc (refTo "common.yaml#/components/schemas/Id") 5 0 ∅
  = (Ok (unresolvableRef "common.yaml#/components/schemas/Id"), ∅)
  /\ resolveAllRefs userDoc (refTo "#/components/schemas/Gone") 5 0 ∅
     = (Ok (unresolvableRef "#/components/schemas/Gone"), ∅).
Proof.
  split.
  - apply (X2_dangling_ref_marker userDoc 5 0 _ "common.yaml#/components/schemas/Id");
      [lia|reflexivity|set_solver|left; reflexivity].
  - apply (X2_dangling_ref_marker userDoc 5 0 _ "#/components/schemas/Gone");
      [lia|reflexivity|set_solver|right; split; reflexivity].
Defined.

(** ** Pointers without [%] *)

Lemma noPercent_slice n : forall s, noPercent s = true -> noPercent (Str.slice n s) = true.
Proof.
  induction n as [|n IH]; intros s H; [destruct s; exact H|].
  destruct s as [|c s]; [reflexivity|]. simpl in *.
  apply andb_true_iff in H as [_ H]. apply IH, H.
Qed.

Lemma noPercent_split sep s :
  noPercent s = true -> Forall (fun seg => noPercent seg = true) (Str.split sep s).
Proof.
  induction s as [|c s IH]; simpl; intros H.
  - repeat constructor.
  - apply andb_true_iff in H as [Hc H]. specialize (IH H).
    destruct (Ascii.eqb c sep).
    + constructor; [reflexivity|exact IH].
    + destruct (Str.split sep s) as [|seg segs].
      * repeat constructor. simpl. rewrite Hc. reflexivity.
      * inversion IH; subst. constructor; [|assumption].
        simpl. rewrite Hc. simpl. assumption.
Qed.

Lemma decodeSegment_defined segment :
  noPercent segment = true -> exists key, decodeSegment segment = Some key.
Proof.
  intros H. unfold decodeSegment. eexists.
  apply decodeURIComponent_noPercent.
  apply replacePair_noPercent; [reflexivity|].
  apply replacePair_noPercent; [reflexivity|exact H].
Qed.

Lemma walk_returns pointer : forall path current,
  Forall (fun seg => noPercent seg = true) path ->
  exists v, walk pointer path current = Ok v.
Proof.
  induction path as [|segment path IH]; intros current H; simpl.
  - eexists. reflexivity.
  - inversion H as [|? ? Hseg Hrest]; subst.
    destruct (decodeSegment_defined segment Hseg) as [key ->].
    destruct (JS.truthy current && JS.typeofObject current && JS.has key current);
      [apply IH, Hrest|eexists; reflexivity].
Qed.

Lemma resolveRef_returns document pointer :
  noPercent pointer = true -> exists v, resolveRef document pointer = Ok v.
Proof.
  intros H. unfold resolveRef.
  destruct (negb (Str.startsWith "#/" pointer)); [eexists; reflexivity|].
  apply walk_returns, noPercent_split, noPercent_slice, H.
Qed.

(** X5. [resolveRef] throws nothing but a [URIError], and only for a
    pointer that contains [%]: every other pointer gives a value or the
    marker. *)
Theorem X5_resolveRef_throws_only_on_percent (document : JValue) (pointer : string) :
  (noPercent pointer = true -> exists v, resolveRef document pointer = Ok v)
  /\ (forall e, resolveRef document pointer = Raise e ->
                e = URIError /\ noPercent pointer = false).
Proof.
  split; [apply resolveRef_returns|].
  intros e H. split; [eapply resolveRef_throws, H|].
  destruct (noPercent pointer) eqn:E; [|reflexivity].
  destruct (resolveRef_returns document pointer E) as [v Hv]. congruence.
Qed.

Lemma X5_resolveRef_throws_only_on_percent_witness :
  (exists v, resolveRef userDoc "#/components/~0schemas/x" = Ok v)
  /\ noPercent "#/components/%zz" = false.
Proof.
  split.
  - apply (proj1 (X5_resolveRef_throws_only_on_percent userDoc "#/components/~0schemas/x")).
    reflexivity.
  - apply (proj2 (X5_resolveRef_throws_only_on_percent userDoc "#/components/%zz")
             URIError).
    reflexivity.
Defined.

(** ** Documents whose references cannot throw *)

Lemma safeRefs_In_item items x :
  forallb safeRefs items = true -> In x items -> safeRefs x = true.
Proof. intros H Hx. rewrite forallb_forall in H. apply H, Hx. Qed.

Lemma safeRefs_chars s x : In x (JS.chars s) -> safeRefs x = true.
Proof.
  induction s as [|c s IH]; simpl; [intros []|].
  intros [<-|H]; [reflexivity|auto].
Qed.

Lemma safeRefs_indexed items k x :
  (forall y, In y items -> safeRefs y = true) ->
  JS.indexed items k = Some x -> safeRefs x = true.
Proof.
  intros Hall H. destruct (height_indexed _ _ _ H) as [Hz|Hin]; [|apply Hall, Hin].
  unfold JS.indexed in H. destruct (String.eqb k "length").
  - injection H as <-. reflexivity.
  - destruct (JS.arrayIndex k (List.length items)); [|discriminate].
    apply Hall. eapply nth_error_In, H.
Qed.

Lemma safeRefs_getOwn v k x :
  safeRefs v = true -> JS.getOwn v k = Some x -> safeRefs x = true.
Proof.
  destruct v as [| | | |s|items|props]; simpl; try discriminate.
  - intros _. apply safeRefs_indexed. apply safeRefs_chars.
  - intros H. apply safeRefs_indexed. intros y. apply safeRefs_In_item, H.
  - intros H Hl. apply andb_true_iff in H as [_ H].
    destruct (lookup_In _ _ _ Hl) as [k' Hin].
    rewrite forallb_forall in H. apply (H (k', x)), Hin.
Qed.

Lemma safeRefs_getProp v k : safeRefs v = true -> safeRefs (JS.getProp v k) = true.
Proof.
  intros H. unfold JS.getProp. destruct (JS.getOwn v k) eqn:E; [|reflexivity].
  eapply safeRefs_getOwn; eassumption.
Qed.

Lemma safeRefs_walk pointer : forall path current v,
  safeRefs current = true -> walk pointer path current = Ok v -> safeRefs v = true.
Proof.
  induction path as [|segment path IH]; intros current v Hsafe; simpl.
  - intros [= <-]. exact Hsafe.
  - destruct (decodeSegment segment) as [key|]; [|discriminate].
    destruct (JS.truthy current && JS.typeofObject current && JS.has key current).
    + apply IH, safeRefs_getProp, Hsafe.
    + intros [= <-]. reflexivity.
Qed.

Lemma safeRefs_resolveRef document pointer v :
  safeRefs document = true -> resolveRef document pointer = Ok v -> safeRefs v = true.
Proof.
  intros Hsafe. unfold resolveRef.
  destruct (negb (Str.startsWith "#/" pointer)); [intros [= <-]; reflexivity|].
  apply safeRefs_walk, Hsafe.
Qed.

Lemma neverThrows_ret {A} (a : A) : neverThrows (ret a).
Proof. intros visited e visited' H. discriminate H. Qed.

Lemma neverThrows_bind {A B} (c : M A) (k : A -> M B) :
  neverThrows c -> (forall a, neverThrows (k a)) -> neverThrows (bind c k).
Proof.
  intros Hc Hk visited e visited'. unfold bind.
  destruct (c visited) as [[[a|e0] v1]|] eqn:E.
  - apply Hk.
  - exfalso. eapply Hc, E.
  - discriminate.
Qed.

Lemma neverThrows_mapM {A B} (f : A -> M B) (l : list A) :
  (forall x, In x l -> neverThrows (f x)) -> neverThrows (mapM f l).
Proof.
  induction l as [|x l IH]; intros H; simpl; [apply neverThrows_ret|].
  apply neverThrows_bind; [apply H; left; reflexivity|intros y].
  apply neverThrows_bind; [|intros; apply neverThrows_ret].
  apply IH. intros z Hz. apply H. right. exact Hz.
Qed.

Lemma neverThrows_foldM {A B} (f : B -> A -> M B) (l : list A) :
  (forall acc x, In x l -> neverThrows (f acc x)) ->
  forall acc, neverThrows (foldM f acc l).
Proof.
  induction l as [|x l IH]; intros H acc; simpl; [apply neverThrows_ret|].
  apply neverThrows_bind; [apply H; left; reflexivity|intros acc'].
  apply IH. intros a z Hz. apply H. right. exact Hz.
Qed.

Lemma neverThrows_fuel document :
  safeRefs document = true ->
  forall fuel obj maxDepth currentDepth,
    safeRefs obj = true ->
    neverThrows (resolveAllRefsFuel fuel document obj maxDepth currentDepth).
Proof.
  intros Hdoc. induction fuel as [|fuel IH]; intros obj maxDepth currentDepth Hobj.
  - intros visited e visited' H. discriminate H.
  - rewrite resolveAllRefsFuel_S.
    destruct (currentDepth >=? maxDepth); [apply neverThrows_ret|].
    destruct obj as [| | | | |items|props]; try apply neverThrows_ret.
    + apply neverThrows_bind; [|intros; apply neverThrows_ret].
      apply neverThrows_mapM. intros x Hx. apply IH.
      eapply safeRefs_In_item; [exact Hobj|exact Hx].
    + cbn [safeRefs] in Hobj. apply andb_true_iff in Hobj as [Hptr Hprops].
      destruct (refOf props) as [pointer|].
      * apply neverThrows_bind; [intros v e v' H; discriminate H|].
        intros [|]; [apply neverThrows_ret|].
        apply neverThrows_bind; [intros v e v' H; discriminate H|intros _].
        destruct (resolveRef_returns document pointer Hptr) as [resolved Hres].
        intros visited e visited'. unfold bind at 1, lift. rewrite Hres.
        apply neverThrows_bind.
        { apply IH. eapply safeRefs_resolveRef; eassumption. }
        intros result. apply neverThrows_bind; [intros v e' v' H; discriminate H|].
        intros; apply neverThrows_ret.
      * apply neverThrows_bind; [|intros; apply neverThrows_ret].
        apply neverThrows_foldM. intros acc kv Hkv.
        apply neverThrows_bind; [|intros; apply neverThrows_ret].
        apply IH. rewrite forallb_forall in Hprops. apply Hprops, Hkv.
Qed.

(** X3. When no [$ref] string of the document or of the value contains
    [%], [resolveAllRefs] returns: it does not throw, at any depth, and
    [visitedRefs] is as before. *)
Theorem X3_percent_free_never_throws (document v : JValue)
    (maxDepth currentDepth : Z) (visited : gset string) :
  safeRefs document = true ->
  safeRefs v = true ->
  exists resolved,
    resolveAllRefs document v maxDepth currentDepth visited = (Ok resolved, visited).
Proof.
  intros Hdoc Hv.
  destruct (resolveAllRefs document v maxDepth currentDepth visited)
    as [[resolved|e] visited'] eqn:E.
  - exists resolved. apply resolveAllRefs_visited in E. subst. reflexivity.
  - exfalso.
    eapply (neverThrows_fuel document Hdoc _ v maxDepth currentDepth Hv).
    rewrite resolveAllRefs_fuel by apply Nat.le_refl. rewrite E. reflexivity.
Qed.

Lemma X3_percent_free_never_throws_witness :
  exists resolved,
    resolveAllRefs cycleDoc (JArr [refTo "#/A"; refTo "#/nowhere"; JNum 1]) 5 0 ∅
    = (Ok resolved, ∅).
Proof. apply X3_percent_free_never_throws; reflexivity. Defined.

(** ** [visitedRefs] after a call that throws *)

Lemma grows_ret {A} (a : A) : grows (ret a).
Proof. intros visited out visited' [= _ <-]. reflexivity. Qed.

Lemma grows_bind {A B} (c : M A) (k : A -> M B) :
  grows c -> (forall a, grows (k a)) -> grows (bind c k).
Proof.
  intros Hc Hk visited out visited'. unfold bind.
  destruct (c visited) as [[[a|e] v1]|] eqn:E; try discriminate.
  - intros H. apply Hk in H. apply Hc in E. set_solver.
  - intros [= <- <-]. eapply Hc, E.
Qed.

Lemma grows_mapM {A B} (f : A -> M B) (l : list A) :
  (forall x, grows (f x)) -> grows (mapM f l).
Proof.
  intros H. induction l as [|x l IH]; simpl; [apply grows_ret|].
  apply grows_bind; [apply H|intros y].
  apply grows_bind; [exact IH|intros; apply grows_ret].
Qed.

Lemma grows_foldM {A B} (f : B -> A -> M B) (l : list A) :
  (forall acc x, grows (f acc x)) -> forall acc, grows (foldM f acc l).
Proof.
  intros H. induction l as [|x l IH]; intros acc; simpl; [apply grows_ret|].
  apply grows_bind; [apply H|intros acc'; apply IH].
Qed.

Lemma grows_fuel document : forall fuel obj maxDepth currentDepth,
  grows (resolveAllRefsFuel fuel document obj maxDepth currentDepth).
Proof.
  induction fuel as [|fuel IH]; intros obj maxDepth currentDepth.
  - intros visited out visited' H. discriminate H.
  - rewrite resolveAllRefsFuel_S.
    destruct (currentDepth >=? maxDepth); [apply grows_ret|].
    destruct obj as [| | | | |items|props]; try apply grows_ret.
    + apply grows_bind; [|intros; apply grows_ret].
      apply grows_mapM. intros; apply IH.
    + destruct (refOf props) as [pointer|].
      * intros visited out visited'.
        unfold bind at 1, visitedHas. case_bool_decide as Hin.
        { intros [= _ <-]. reflexivity. }
        unfold bind at 1, visitedAdd. unfold bind at 1, lift.
        destruct (resolveRef document pointer) as [resolved|e].
        2:{ intros [= _ <-]. set_solver. }
        unfold bind at 1.
        destruct (resolveAllRefsFuel fuel document resolved maxDepth (currentDepth + 1)
                    ({[pointer]} ∪ visited)) as [[[result|e] v1]|] eqn:E;
          try discriminate.
        -- apply IH in E. intros [= _ <-]. set_solver.
        -- apply IH in E. intros [= _ <-]. set_solver.
      * apply grows_bind; [|intros; apply grows_ret].
        apply grows_foldM. intros acc kv.
        apply grows_bind; [apply IH|intros; apply grows_ret].
Qed.

(** X4. [resolveAllRefs] never takes out of [visitedRefs] a pointer that
    was there before the call; and when a pointer that was not there
    makes [resolveRef] throw, it stays in: the same resolver then takes
    the reference for a circular one, until [reset()] empties the set. *)
Theorem X4_throw_leaves_pointer_marked (document : JValue)
    (maxDepth currentDepth : Z) (props : list (string * JValue))
    (pointer : string) (visited : gset string) (e : JSError) :
  currentDepth < maxDepth ->
  refOf props = Some pointer ->
  pointer ∉ visited ->
  resolveRef document pointer = Raise e ->
  (forall obj depth seen out seen',
      resolveAllRefs document obj maxDepth depth seen = (out, seen') ->
      seen ⊆ seen')
  /\ resolveAllRefs document (JObj props) maxDepth currentDepth visited
     = (Raise URIError, {[pointer]} ∪ visited)
  /\ resolveAllRefs document (JObj props) maxDepth currentDepth
                    ({[pointer]} ∪ visited)
     = (Ok (circularRef pointer), {[pointer]} ∪ visited)
  /\ resolveAllRefs document (JObj props) maxDepth currentDepth
                    (reset ({[pointer]} ∪ visited))
     = (Raise URIError, {[pointer]}).
Proof.
  intros Hd Href Hout Hres.
  pose proof (resolveRef_throws _ _ _ Hres) as ->.
  split; [|split; [|split]].
  - intros obj depth seen out seen' H. eapply (grows_fuel document).
    rewrite resolveAllRefs_fuel by apply Nat.le_refl. rewrite H. reflexivity.
  - rewrite (resolveAllRefs_hop document maxDepth currentDepth props pointer)
      by assumption.
    rewrite Hres. reflexivity.
  - apply resolveAllRefs_seen; [assumption|assumption|set_solver].
  - unfold reset.
    rewrite (resolveAllRefs_hop document maxDepth currentDepth props pointer)
      by (try assumption; set_solver).
    rewrite Hres. f_equal. set_solver.
Qed.

Lemma X4_throw_leaves_pointer_marked_witness :
  resolveAllRefs userDoc (refTo "#/%") 5 0 ∅ = (Raise URIError, {["#/%"]})
  /\ resolveAllRefs userDoc (refTo "#/%") 5 0 {["#/%"]}
     = (Ok (circularRef "#/%"), {["#/%"]}).
Proof.
  destruct (X4_throw_leaves_pointer_marked userDoc 5 0 [("$ref", JStr "#/%")] "#/%"
              ∅ URIError) as (_ & H1 & H2 & _);
    [lia|reflexivity|set_solver|reflexivity|].
  assert (Hs : ({["#/%"]} ∪ ∅ : gset string) = {["#/%"]}) by set_solver.
  rewrite Hs in H1, H2. split; [exact H1|exact H2].
Defined.

(** ** The indexes *)

Lemma operationsOf_sound path pathItem e :
  In e (operationsOf path pathItem) ->
  EndpointInfo.path e = path
  /\ In (EndpointInfo.method e) (List.map Str.toUpperCase methods).
Proof.
  unfold operationsOf. destruct (JS.truthy pathItem); [|intros []].
  intros H. apply in_map_iff in H as (verb & <- & Hverb).
  apply filter_In in Hverb as [Hverb _]. split; [reflexivity|].
  change (In (Str.toUpperCase verb) (List.map Str.toUpperCase methods)).
  apply in_map. exact Hverb.
Qed.

Lemma operationsOf_length path pathItem :
  (List.length (operationsOf path pathItem) <= 8)%nat.
Proof.
  unfold operationsOf. destruct (JS.truthy pathItem); [|simpl; lia].
  rewrite List.length_map.
  etransitivity; [apply List.filter_length_le|]. reflexivity.
Qed.

Lemma endpointIndexOf_length paths :
  (List.length (endpointIndexOf paths) <= 8 * List.length (JS.keys paths))%nat.
Proof.
  unfold endpointIndexOf, JS.keys. rewrite List.length_map.
  induction (JS.entries paths) as [|entry entries IH]; simpl; [lia|].
  rewrite List.length_app. pose proof (operationsOf_length (fst entry) (snd entry)). lia.
Qed.

Lemma buildEndpointIndex_nullish document index :
  buildEndpointIndex document = Ok index -> JS.nullish document = false.
Proof.
  unfold buildEndpointIndex, JS.member.
  destruct (JS.nullish document); [discriminate|reflexivity].
Qed.

(** X6. The endpoint index holds nothing the document does not: every
    entry has the path of a key of [paths] and one of the eight verbs in
    upper case as its method, and there are at most eight entries per
    path.  So a search for a method written in ASCII that is none of the
    eight, in any case, finds nothing. *)
Theorem X6_index_methods_are_verbs (document : JValue) (index : list EndpointInfo.t) :
  buildEndpointIndex document = Ok index ->
  Forall (fun e =>
            In (EndpointInfo.method e) (List.map Str.toUpperCase methods)
            /\ In (EndpointInfo.path e) (JS.keys (JS.getProp document "paths")))
         index
  /\ (List.length index <= 8 * List.length (JS.keys (JS.getProp document "paths")))%nat
  /\ (forall RegExp options m filtered,
         given (EndpointSearch.method options) = Some m ->
         isAscii m = true ->
         ~ In (Str.toUpperCase m) (List.map Str.toUpperCase methods) ->
         filterEndpoints RegExp index options = Ok filtered ->
         filtered = []).
Proof.
  intros Hbuild.
  pose proof (buildEndpointIndex_nullish _ _ Hbuild) as Hdoc.
  rewrite buildEndpointIndex_spec in Hbuild by exact Hdoc.
  injection Hbuild as <-.
  assert (Hall : Forall (fun e =>
            In (EndpointInfo.method e) (List.map Str.toUpperCase methods)
            /\ In (EndpointInfo.path e) (JS.keys (JS.getProp document "paths")))
         (endpointIndexOf (JS.getProp document "paths"))).
  { apply Forall_forall. intros e He. apply list_elem_of_In in He.
    unfold endpointIndexOf in He. apply in_flat_map in He as ([path pathItem] & Hentry & He).
    apply operationsOf_sound in He as [Hpath Hmethod]. split; [exact Hmethod|].
    simpl in Hpath. subst path. unfold JS.keys.
    apply (in_map fst) in Hentry. exact Hentry. }
  split; [exact Hall|]. split; [apply endpointIndexOf_length|].
  intros RegExp options m filtered Hm _ Hnot Hf.
  apply filterEndpoints_spec in Hf. subst filtered.
  induction Hall as [|e l [He _] _ IH]; [reflexivity|].
  simpl. rewrite IH.
  replace (keepsEndpoint RegExp options e) with false; [reflexivity|].
  symmetry. unfold keepsEndpoint. rewrite Hm.
  destruct (String.eqb (EndpointInfo.method e) (Str.toUpperCase m)) eqn:E.
  - apply String.eqb_eq in E. rewrite <- E in Hnot. contradiction.
  - rewrite andb_false_r. reflexivity.
Qed.

Lemma X6_index_methods_are_verbs_witness :
  filterEndpoints noRegExp
    [endpointOf "/pets" "get" (JObj []); endpointOf "/pets" "post" (JObj [])]
    (EndpointSearch.mk None (Some "connect") None None None None)
  = Ok [].
Proof.
  destruct (X6_index_methods_are_verbs (petsDoc (JObj []) (JObj []))
              [endpointOf "/pets" "get" (JObj []); endpointOf "/pets" "post" (JObj [])]
              eq_refl) as (_ & _ & H).
  destruct (filterEndpoints noRegExp _ _) as [filtered|e] eqn:E; [|discriminate E].
  f_equal.
  apply (H noRegExp (EndpointSearch.mk None (Some "connect") None None None None)
           "connect"); [reflexivity|reflexivity| |exact E].
  vm_compute. intuition discriminate.
Defined.

Lemma schemas_loop : forall entries schemas,
  Forall (fun kv : string * JValue => indexable (snd kv) = true) entries ->
  foldR (fun schemas (entry : string * JValue) =>
           let name := fst entry in
           let schema := snd entry in
           if negb (JS.truthy schema) then Ok schemas else
           (let* isRef := inOp "$ref" schema in
            if isRef then Ok schemas
            else Ok (schemas ++ [schemaOf name schema])%list)%res)
        schemas entries
  = Ok (schemas ++ List.map (fun kv => schemaOf (fst kv) (snd kv))
                     (List.filter indexed entries))%list.
Proof.
  induction entries as [|[name schema] entries IH]; intros schemas H; simpl.
  - rewrite app_nil_r. reflexivity.
  - apply Forall_cons in H as [Hx H]. simpl in Hx. unfold indexed at 1. simpl.
    unfold indexable in Hx. destruct (JS.truthy schema) eqn:Ht; simpl in *.
    + destruct schema; try discriminate; simpl;
        (destruct (JS.has "$ref" _); simpl;
         [apply IH, H|rewrite IH by exact H; rewrite <- app_assoc; reflexivity]).
    + apply IH, H.
Qed.

Lemma schemas_loop_throws : forall entries schemas,
  Exists (fun kv : string * JValue => indexable (snd kv) = false) entries ->
  foldR (fun schemas (entry : string * JValue) =>
           let name := fst entry in
           let schema := snd entry in
           if negb (JS.truthy schema) then Ok schemas else
           (let* isRef := inOp "$ref" schema in
            if isRef then Ok schemas
            else Ok (schemas ++ [schemaOf name schema])%list)%res)
        schemas entries
  = Raise TypeError.
Proof.
  induction entries as [|[name schema] entries IH]; intros schemas H.
  - inversion H.
  - simpl. destruct (indexable schema) eqn:Hx.
    + assert (Hrest : Exists (fun kv : string * JValue => indexable (snd kv) = false) entries).
      { apply Exists_cons in H as [H|H]; [simpl in H; congruence|exact H]. }
      unfold indexable in Hx. destruct (JS.truthy schema) eqn:Ht; simpl in *.
      * destruct schema; try discriminate; simpl;
          (destruct (JS.has "$ref" _); simpl; apply IH, Hrest).
      * apply IH, Hrest.
    + unfold indexable in Hx. destruct (JS.truthy schema) eqn:Ht; simpl in *;
        [|discriminate].
      destruct schema; try discriminate; reflexivity.
Qed.

Lemma buildSchemaIndex_unfold document :
  JS.nullish document = false ->
  buildSchemaIndex document
  = foldR (fun schemas (entry : string * JValue) =>
             let name := fst entry in
             let schema := snd entry in
             if negb (JS.truthy schema) then Ok schemas else
             (let* isRef := inOp "$ref" schema in
              if isRef then Ok schemas
              else Ok (schemas ++ [schemaOf name schema])%list)%res)
          [] (JS.entries (schemasOf document)).
Proof.
  intros Hdoc. unfold buildSchemaIndex, JS.member. rewrite Hdoc. simpl.
  fold (schemasOf document).
  destruct (JS.truthy (schemasOf document)) eqn:Ht; simpl; [reflexivity|].
  rewrite entries_falsy by exact Ht. reflexivity.
Qed.

(** X7. When every value under [components.schemas] is an object, an
    array or falsy, the schema index has one entry per schema that is
    present and has no [$ref] key, in the order of the document, each
    with the schema's name, [type], the keys of its [properties] and its
    [description]; schemas that are references are left out. *)
Theorem X7_schema_index (document : JValue) :
  JS.nullish document = false ->
  Forall (fun kv => indexable (snd kv) = true) (JS.entries (schemasOf document)) ->
  buildSchemaIndex document
  = Ok (List.map (fun kv => schemaOf (fst kv) (snd kv))
          (List.filter indexed (JS.entries (schemasOf document)))).
Proof.
  intros Hdoc Hall. rewrite buildSchemaIndex_unfold by exact Hdoc.
  rewrite schemas_loop by exact Hall. reflexivity.
Qed.

Lemma X7_schema_index_witness :
  buildSchemaIndex
    (JObj [("components",
            JObj [("schemas",
                   JObj [("Pet", JObj [("type", JStr "object");
                                       ("properties", JObj [("id", JObj []);
                                                            ("name", JObj [])])]);
                         ("Alias", refTo "#/components/schemas/Pet");
                         ("Empty", JNull)])])])
  = Ok [SchemaInfo.mk "Pet" (JStr "object") (Some ["id"; "name"]) JUndefined].
Proof.
  rewrite X7_schema_index; [reflexivity|reflexivity|].
  repeat constructor.
Defined.

(** X8. [buildSchemaIndex] returns exactly when every value under
    [components.schemas] is an object, an array or falsy.  A schema that
    is [true], a number other than 0 or a string that is not empty makes
    it throw a [TypeError], and nothing else can. *)
Theorem X8_schema_index_throws (document : JValue) :
  JS.nullish document = false ->
  ((exists index, buildSchemaIndex document = Ok index)
   <-> Forall (fun kv => indexable (snd kv) = true) (JS.entries (schemasOf document)))
  /\ (forall e, buildSchemaIndex document = Raise e -> e = TypeError).
Proof.
  intros Hdoc. rewrite buildSchemaIndex_unfold by exact Hdoc.
  destruct (@List.Forall_Exists_dec _
              (fun kv : string * JValue => indexable (snd kv) = true)
              (fun kv => bool_dec (indexable (snd kv)) true)
              (JS.entries (schemasOf document))) as [Hall|Hex].
  - rewrite schemas_loop by exact Hall. split.
    + split; [intros _; exact Hall|intros _; eexists; reflexivity].
    + intros e H. discriminate H.
  - assert (Hex' : Exists (fun kv : string * JValue => indexable (snd kv) = false)
                     (JS.entries (schemasOf document))).
    { eapply List.Exists_impl; [|exact Hex]. intros kv H. simpl in H.
      destruct (indexable (snd kv)); congruence. }
    rewrite schemas_loop_throws by exact Hex'. split.
    + split; [intros [index H]; discriminate H|].
      intros Hall. exfalso.
      apply Exists_exists in Hex' as (kv & Hin & Hkv).
      rewrite Forall_forall in Hall. rewrite (Hall kv) in Hkv; [discriminate|exact Hin].
    + intros e [= <-]. reflexivity.
Qed.

Lemma X8_schema_index_throws_witness :
  (exists index,
      buildSchemaIndex (JObj [("components", JObj [("schemas", JObj [("A", JObj [])])])])
      = Ok index)
  /\ ~ Forall (fun kv => indexable (snd kv) = true)
         (JS.entries (schemasOf (JObj [("components",
                                         JObj [("schemas", JObj [("Any", JBool true)])])]))).
Proof.
  split.
  - apply (proj1 (X8_schema_index_throws
                    (JObj [("components", JObj [("schemas", JObj [("A", JObj [])])])])
                    eq_refl)).
    repeat constructor.
  - intros H.
    apply (proj1 (X8_schema_index_throws
                    (JObj [("components", JObj [("schemas", JObj [("Any", JBool true)])])])
                    eq_refl)) in H.
    destruct H as [index H]. discriminate H.
Defined.

(** ** The searches *)

Lemma filter_sublist {A} (f : A -> bool) l : List.filter f l `sublist_of` l.
Proof.
  induction l as [|x l IH]; simpl; [constructor|].
  destruct (f x); [apply sublist_skip, IH|apply sublist_cons, IH].
Qed.

Lemma slice_sublist {A} (l : list A) start stop : slice l start stop `sublist_of` l.
Proof.
  unfold slice. etransitivity; [apply sublist_take|apply sublist_drop].
Qed.

Lemma slice_length {A} (l : list A) start stop :
  start <= stop ->
  Z.of_nat (List.length (slice l start stop)) <= stop - start.
Proof.
  intros H. unfold slice, relativeIndex. rewrite length_take, length_drop.
  destruct (start <? 0) eqn:E1; destruct (stop <? 0) eqn:E2; lia.
Qed.

(** X9. A search invents nothing and reorders nothing: for every limit
    and offset, negative ones too, the page is a subsequence of the
    index, in the order of the index, and has no more entries than
    [total], which is at most the size of the index.  When the limit in
    force (20 when the limit is absent or 0) is not negative, the page
    has no more entries than that limit, whatever the offset. *)
Theorem X9_page_within_index (RegExp : string -> option (JValue -> bool))
    (cached : CachedSpec) (eOptions : EndpointSearch.t) (sOptions : SchemaSearch.t) :
  (forall r,
      searchEndpoints RegExp (Some cached) eOptions = Ok r ->
      found r `sublist_of` endpointIndex cached
      /\ (0 <= orDefault (EndpointSearch.limit eOptions) 20 ->
          Z.of_nat (List.length (found r))
          <= orDefault (EndpointSearch.limit eOptions) 20)
      /\ Z.of_nat (List.length (found r)) <= total r
      /\ total r <= Z.of_nat (List.length (endpointIndex cached)))
  /\ (forall r,
         searchSchemas RegExp (Some cached) sOptions = Ok r ->
         found r `sublist_of` schemaIndex cached
         /\ (0 <= orDefault (SchemaSearch.limit sOptions) 20 ->
             Z.of_nat (List.length (found r))
             <= orDefault (SchemaSearch.limit sOptions) 20)
         /\ Z.of_nat (List.length (found r)) <= total r
         /\ total r <= Z.of_nat (List.length (schemaIndex cached))).
Proof.
  split; intros r; [unfold searchEndpoints|unfold searchSchemas].
  - destruct (filterEndpoints _ _ _) as [results|e] eqn:E; simpl; [|discriminate].
    intros [= <-]. simpl. apply filterEndpoints_spec in E.
    assert (Hsub : results `sublist_of` endpointIndex cached)
      by (subst results; apply filter_sublist).
    split; [etransitivity; [apply slice_sublist|exact Hsub]|].
    split; [intros Hl; etransitivity; [apply slice_length|]; lia|].
    split.
    + pose proof (sublist_length _ _ (slice_sublist results
                    (orDefault (EndpointSearch.offset eOptions) 0)
                    (orDefault (EndpointSearch.offset eOptions) 0
                     + orDefault (EndpointSearch.limit eOptions) 20))). lia.
    + apply sublist_length in Hsub. lia.
  - destruct (filterSchemas _ _ _) as [results|e] eqn:E; simpl; [|discriminate].
    intros [= <-]. simpl. apply filterSchemas_spec in E.
    assert (Hsub : results `sublist_of` schemaIndex cached)
      by (subst results; apply filter_sublist).
    split; [etransitivity; [apply slice_sublist|exact Hsub]|].
    split; [intros Hl; etransitivity; [apply slice_length|]; lia|].
    split.
    + pose proof (sublist_length _ _ (slice_sublist results
                    (orDefault (SchemaSearch.offset sOptions) 0)
                    (orDefault (SchemaSearch.offset sOptions) 0
                     + orDefault (SchemaSearch.limit sOptions) 20))). lia.
    + apply sublist_length in Hsub. lia.
Qed.

Lemma X9_page_within_index_witness :
  [sampleEndpoint "/c"] `sublist_of` endpointIndex sampleCache.
Proof.
  destruct (X9_page_within_index noRegExp sampleCache (noFilter None (Some (-1)))
              (SchemaSearch.mk None None None None)) as [H _].
  destruct (H {| found := [sampleEndpoint "/c"]; total := 3 |}) as [Hsub _];
    [reflexivity|exact Hsub].
Defined.

Lemma slice_pages {A} (l : list A) (limit : Z) :
  0 < limit ->
  forall n,
    concat (List.map (fun i => slice l (Z.of_nat i * limit) (Z.of_nat i * limit + limit))
                     (List.seq 0 n))
    = firstn (n * Z.to_nat limit) l.
Proof.
  intros Hl. induction n as [|n IH]; [reflexivity|].
  rewrite List.seq_S, List.map_app, concat_app, IH. simpl. rewrite app_nil_r.
  destruct (slice_page l (Z.of_nat n * limit) limit ltac:(lia) ltac:(lia)) as [-> ->].
  replace (Z.to_nat (Z.of_nat n * limit)) with (n * Z.to_nat limit)%nat by lia.
  rewrite take_take_drop. f_equal. lia.
Qed.

Lemma orDefault_offset (offset : Z) : orDefault (Some offset) 0 = offset.
Proof. unfold orDefault. destruct (offset =? 0) eqn:E; lia. Qed.

Lemma orDefault_limit (limit d : Z) : limit <> 0 -> orDefault (Some limit) d = limit.
Proof. intros H. unfold orDefault. destruct (limit =? 0) eqn:E; lia. Qed.

(** X10. Paging through a search loses and repeats nothing: with a
    limit above 0, the pages at the offsets 0, limit, 2 limit, ... put
    end to end are the filtered sequence, as soon as they are enough to
    cover it. *)
Theorem X10_pages_cover_results (RegExp : string -> option (JValue -> bool))
    (cached : CachedSpec) (options : EndpointSearch.t)
    (filtered : list EndpointInfo.t) (limit : Z) (n : nat) :
  filterEndpoints RegExp (endpointIndex cached) options = Ok filtered ->
  0 < limit ->
  (List.length filtered <= n * Z.to_nat limit)%nat ->
  concat (List.map
            (fun i =>
               foundOf (searchEndpoints RegExp (Some cached)
                          (pagedEndpoints options (Some limit)
                                          (Some (Z.of_nat i * limit)))))
            (List.seq 0 n))
  = filtered.
Proof.
  intros Hf Hl Hn.
  transitivity (firstn (n * Z.to_nat limit) filtered); [|apply take_ge, Hn].
  rewrite <- (slice_pages filtered limit Hl n). f_equal.
  apply List.map_ext. intros i. unfold searchEndpoints.
  replace (filterEndpoints RegExp (endpointIndex cached)
             (pagedEndpoints options (Some limit) (Some (Z.of_nat i * limit))))
    with (filterEndpoints RegExp (endpointIndex cached) options)
    by (destruct options; reflexivity).
  rewrite Hf. cbn [rbind foundOf found pagedEndpoints EndpointSearch.offset
                   EndpointSearch.limit].
  rewrite orDefault_offset, orDefault_limit by lia. reflexivity.
Qed.

Lemma X10_pages_cover_results_witness :
  (foundOf (searchEndpoints noRegExp (Some sampleCache) (noFilter (Some 2) (Some 0)))
   ++ foundOf (searchEndpoints noRegExp (Some sampleCache) (noFilter (Some 2) (Some 2))))%list
  = endpointIndex sampleCache.
Proof.
  rewrite <- (X10_pages_cover_results noRegExp sampleCache (noFilter None None)
                (endpointIndex sampleCache) 2 2 eq_refl ltac:(lia) ltac:(simpl; lia)).
  reflexivity.
Defined.

(** X11. With an offset of 0 or more and a limit above 0 (20 when the
    limit is absent or 0), [hasMore] says whether entries remain beyond
    the page: it is [offset + limit < total]. *)
Theorem X11_hasMore_means_more (RegExp : string -> option (JValue -> bool))
    (cache : option CachedSpec) (options : EndpointSearch.t)
    (page : ToolResult EndpointInfo.t) :
  searchEndpointsTool RegExp cache options = Ok page ->
  0 <= orDefault (EndpointSearch.offset options) 0 ->
  0 < orDefault (EndpointSearch.limit options) 20 ->
  hasMore (pagination _ page)
  = (orDefault (EndpointSearch.offset options) 0
     + orDefault (EndpointSearch.limit options) 20 <? pageTotal (pagination _ page)).
Proof.
  unfold searchEndpointsTool, searchEndpoints.
  destruct cache as [cached|]; [|discriminate].
  destruct (filterEndpoints _ _ _) as [results|e]; simpl; [|discriminate].
  intros [= <-] Ho Hl. simpl.
  set (offset := orDefault (EndpointSearch.offset options) 0) in *.
  set (limit := orDefault (EndpointSearch.limit options) 20) in *.
  clearbody offset limit.
  destruct (slice_page results offset limit Ho ltac:(lia)) as [-> ->].
  rewrite length_take, length_drop.
  set (len := List.length results) in *. clearbody len.
  destruct (Z.ltb_spec (offset + limit) (Z.of_nat len)) as [E|E].
  - apply Z.ltb_lt. lia.
  - apply Z.ltb_ge. lia.
Qed.

Lemma X11_hasMore_means_more_witness :
  searchEndpointsTool noRegExp (Some sampleCache) (noFilter (Some 2) None)
  = Ok {| items := [sampleEndpoint "/a"; sampleEndpoint "/b"];
          pagination := {| pageTotal := 3; pageLimit := 2; pageOffset := 0;
                           hasMore := true |} |}
  /\ true = (0 + 2 <? 3).
Proof.
  split; [reflexivity|].
  apply (X11_hasMore_means_more noRegExp (Some sampleCache) (noFilter (Some 2) None)
           {| items := [sampleEndpoint "/a"; sampleEndpoint "/b"];
              pagination := {| pageTotal := 3; pageLimit := 2; pageOffset := 0;
                               hasMore := true |} |});
    [reflexivity|simpl; lia|simpl; lia].
Defined.

Lemma filter_mono_sublist {A} (f g : A -> bool) l :
  (forall x, f x = true -> g x = true) ->
  List.filter f l `sublist_of` List.filter g l.
Proof.
  intros H. induction l as [|x l IH]; simpl; [constructor|].
  destruct (f x) eqn:E.
  - rewrite (H x E). apply sublist_skip, IH.
  - destruct (g x); [apply sublist_cons, IH|exact IH].
Qed.

Lemma isTag_spec tag v : isTag tag v = true <-> v = JStr tag.
Proof.
  destruct v; simpl; try (split; [discriminate|discriminate]).
  rewrite String.eqb_eq. split; [intros ->; reflexivity|intros [= ->]; reflexivity].
Qed.

Lemma tagsMatch_more tag wanted v :
  tagsMatch wanted v = Ok true -> tagsMatch (tag :: wanted) v = Ok true.
Proof.
  unfold tagsMatch. destruct (JS.truthy v); simpl; [|discriminate].
  destruct v; try (destruct wanted; discriminate).
  - intros [= H]. simpl. rewrite H. rewrite orb_true_r. reflexivity.
  - intros [= H]. simpl. rewrite H. rewrite orb_true_r. reflexivity.
Qed.

(** X12. The tag filter is an "or": an entry whose [tags] is an array is
    kept when one of the tags asked for is among them.  Asking for one
    tag more never loses a result, and an empty list of tags filters
    nothing. *)
Theorem X12_tags_any (RegExp : string -> option (JValue -> bool))
    (index : list EndpointInfo.t) (options : EndpointSearch.t) :
  (forall wanted items,
      exists b,
        tagsMatch wanted (JArr items) = Ok b
        /\ (b = true <-> exists tag, In tag wanted /\ In (JStr tag) items))
  /\ (forall tag tag' more fewer wider,
         filterEndpoints RegExp index (taggedEndpoints options (Some (tag' :: more)))
         = Ok fewer ->
         filterEndpoints RegExp index
                         (taggedEndpoints options (Some (tag :: tag' :: more)))
         = Ok wider ->
         fewer `sublist_of` wider)
  /\ filterEndpoints RegExp index (taggedEndpoints options (Some []))
     = filterEndpoints RegExp index (taggedEndpoints options None).
Proof.
  split; [|split].
  - intros wanted items. eexists. split; [reflexivity|].
    rewrite existsb_exists. split.
    + intros (tag & Hin & H). apply existsb_exists in H as (v & Hv & Hv').
      apply isTag_spec in Hv'. subst v. exists tag. split; assumption.
    + intros (tag & Hin & Hitem). exists tag. split; [exact Hin|].
      apply existsb_exists. exists (JStr tag). split; [exact Hitem|].
      apply isTag_spec. reflexivity.
  - intros tag tag' more fewer wider H1 H2.
    apply filterEndpoints_spec in H1, H2. subst fewer wider.
    apply filter_mono_sublist. intros e.
    destruct options as [pathPattern method tags description limit offset].
    unfold keepsEndpoint, taggedEndpoints. cbn [EndpointSearch.pathPattern
      EndpointSearch.method EndpointSearch.tags EndpointSearch.description].
    intros H. apply andb_true_iff in H as [H Hd].
    apply andb_true_iff in H as [H Ht]. rewrite H, Hd.
    destruct (tagsMatch (tag' :: more) (EndpointInfo.tags e)) as [[|]|] eqn:E;
      try discriminate.
    rewrite (tagsMatch_more tag _ _ E). reflexivity.
  - destruct options. reflexivity.
Qed.

Lemma X12_tags_any_witness :
  [EndpointInfo.mk "/pets" "GET" JUndefined JUndefined (JArr [JStr "pets"]) JUndefined]
  `sublist_of`
  [EndpointInfo.mk "/pets" "GET" JUndefined JUndefined (JArr [JStr "pets"]) JUndefined;
   EndpointInfo.mk "/users" "GET" JUndefined JUndefined (JArr [JStr "users"]) JUndefined].
Proof.
  apply (proj1 (proj2 (X12_tags_any noRegExp
    [EndpointInfo.mk "/pets" "GET" JUndefined JUndefined (JArr [JStr "pets"]) JUndefined;
     EndpointInfo.mk "/users" "GET" JUndefined JUndefined (JArr [JStr "users"]) JUndefined;
     EndpointInfo.mk "/health" "GET" JUndefined JUndefined JUndefined JUndefined]
    (noFilter None None))) "users" "pets" []); reflexivity.
Defined.

Lemma upcase_upcase c : Str.upcase (Str.upcase c) = Str.upcase c.
Proof. destruct c as [[] [] [] [] [] [] [] []]; reflexivity. Qed.

Lemma upcase_downcase c : Str.upcase (Str.downcase c) = Str.upcase c.
Proof. destruct c as [[] [] [] [] [] [] [] []]; reflexivity. Qed.

Lemma toUpperCase_toUpperCase s : Str.toUpperCase (Str.toUpperCase s) = Str.toUpperCase s.
Proof.
  unfold Str.toUpperCase. induction s as [|c s IH]; simpl; [reflexivity|].
  rewrite upcase_upcase, IH. reflexivity.
Qed.

Lemma toUpperCase_toLowerCase s : Str.toUpperCase (Str.toLowerCase s) = Str.toUpperCase s.
Proof.
  unfold Str.toUpperCase, Str.toLowerCase. induction s as [|c s IH]; simpl; [reflexivity|].
  rewrite upcase_downcase, IH. reflexivity.
Qed.

Lemma method_filter_same RegExp index options m m' :
  Str.toUpperCase m = Str.toUpperCase m' ->
  String.eqb m "" = String.eqb m' "" ->
  filterEndpoints RegExp index (methodEndpoints options (Some m))
  = filterEndpoints RegExp index (methodEndpoints options (Some m')).
Proof.
  intros Hup Hempty. destruct options as [pathPattern method tags description limit offset].
  unfold filterEndpoints, methodEndpoints.
  cbn [EndpointSearch.pathPattern EndpointSearch.method EndpointSearch.tags
       EndpointSearch.description].
  change (given (Some m)) with (if String.eqb m "" then None else Some m).
  change (given (Some m')) with (if String.eqb m' "" then None else Some m').
  rewrite Hempty.
  destruct (String.eqb m' ""); [reflexivity|]. rewrite Hup. reflexivity.
Qed.

(** X13. The method filter takes no account of case: for a method
    written in ASCII, the search gives the same result for the method as
    given, in upper case and in lower case. *)
Theorem X13_method_any_case (RegExp : string -> option (JValue -> bool))
    (index : list EndpointInfo.t) (options : EndpointSearch.t) (m : string) :
  isAscii m = true ->
  filterEndpoints RegExp index (methodEndpoints options (Some (Str.toUpperCase m)))
  = filterEndpoints RegExp index (methodEndpoints options (Some m))
  /\ filterEndpoints RegExp index (methodEndpoints options (Some (Str.toLowerCase m)))
     = filterEndpoints RegExp index (methodEndpoints options (Some m)).
Proof.
  intros _. split; apply method_filter_same.
  - apply toUpperCase_toUpperCase.
  - destruct m; reflexivity.
  - apply toUpperCase_toLowerCase.
  - destruct m; reflexivity.
Qed.

Lemma X13_method_any_case_witness :
  filterEndpoints noRegExp (endpointIndex sampleCache)
                  (EndpointSearch.mk None (Some "get") None None None None)
  = Ok (endpointIndex sampleCache)
  /\ filterEndpoints noRegExp (endpointIndex sampleCache)
                     (EndpointSearch.mk None (Some "GeT") None None None None)
     = Ok (endpointIndex sampleCache).
Proof.
  split; [reflexivity|].
  transitivity (filterEndpoints noRegExp (endpointIndex sampleCache)
                  (methodEndpoints (noFilter None None) (Some (Str.toLowerCase "GeT"))));
    [|reflexivity].
  symmetry.
  exact (proj2 (X13_method_any_case noRegExp (endpointIndex sampleCache)
                  (noFilter None None) "GeT" eq_refl)).
Defined.

(** ** Objects under construction *)

Lemma lookup_assign k k' v props :
  JS.lookup k (JS.assign k' v props)
  = if String.eqb k k' then Some v else JS.lookup k props.
Proof.
  induction props as [|[k0 v0] props IH]; simpl.
  - destruct (String.eqb k k'); reflexivity.
  - destruct (String.eqb k' k0) eqn:E0; simpl.
    + apply String.eqb_eq in E0. subst k0. destruct (String.eqb k k'); reflexivity.
    + destruct (String.eqb k k0) eqn:E1.
      * apply String.eqb_eq in E1. subst k0. rewrite String.eqb_sym, E0. reflexivity.
      * exact IH.
Qed.

Lemma lookup_absent k props :
  existsb (fun kv : string * JValue => String.eqb k (fst kv)) props = false ->
  JS.lookup k props = None.
Proof. apply lookup_hasKey. Qed.

Lemma lookup_insertIndex n k k' v props :
  existsb (fun kv : string * JValue => String.eqb k' (fst kv)) props = false ->
  JS.lookup k (Obj.insertIndex n k' v props)
  = if String.eqb k k' then Some v else JS.lookup k props.
Proof.
  induction props as [|[k0 v0] props IH]; intros Habs; simpl.
  - reflexivity.
  - simpl in Habs. apply orb_false_iff in Habs as [H0 Habs].
    destruct (Obj.indexOf k0) as [n0|]; [destruct (n0 <? n)%N|]; simpl;
      try (destruct (String.eqb k k'); reflexivity).
    rewrite IH by exact Habs.
    destruct (String.eqb k k0) eqn:E1; [|reflexivity].
    apply String.eqb_eq in E1. subst k0.
    rewrite String.eqb_sym, H0. reflexivity.
Qed.

Lemma lookup_app k (l1 l2 : list (string * JValue)) :
  JS.lookup k (l1 ++ l2)
  = match JS.lookup k l1 with Some v => Some v | None => JS.lookup k l2 end.
Proof.
  induction l1 as [|[k0 v0] l1 IH]; simpl; [reflexivity|].
  destruct (String.eqb k k0); [reflexivity|exact IH].
Qed.

Lemma lookup_put k k' v props :
  JS.lookup k (Obj.put k' v props)
  = if String.eqb k k' then Some v else JS.lookup k props.
Proof.
  unfold Obj.put.
  destruct (existsb (fun kv => String.eqb k' (fst kv)) props) eqn:E.
  - apply lookup_assign.
  - destruct (Obj.indexOf k') as [n|]; [apply lookup_insertIndex, E|].
    rewrite lookup_app. simpl.
    destruct (String.eqb k k') eqn:Ek.
    + apply String.eqb_eq in Ek. subst k'. rewrite lookup_absent by exact E. reflexivity.
    + destruct (JS.lookup k props); reflexivity.
Qed.

Lemma lookup_copy k : forall props target,
  distinct (List.map fst props) = true ->
  JS.lookup k (fold_left (fun acc entry => Obj.put (fst entry) (snd entry) acc)
                         props target)
  = match JS.lookup k props with Some v => Some v | None => JS.lookup k target end.
Proof.
  induction props as [|[k0 v0] props IH]; intros target Hd; simpl; [reflexivity|].
  simpl in Hd. apply andb_true_iff in Hd as [H0 Hd]. apply negb_true_iff in H0.
  rewrite IH by exact Hd. rewrite lookup_put.
  destruct (String.eqb k k0) eqn:E; [|reflexivity].
  apply String.eqb_eq in E. subst k0.
  assert (Hnone : JS.lookup k props = None).
  { apply lookup_hasKey. unfold hasKey. rewrite <- H0. clear.
    induction props as [|[k1 v1] props IH]; simpl; [reflexivity|]. rewrite IH. reflexivity. }
  rewrite Hnone. reflexivity.
Qed.

(** ** Endpoint details *)

Lemma includes_prefix needle rest :
  Str.includes needle (String.append needle rest) = true.
Proof.
  assert (H : String.prefix needle (String.append needle rest) = true).
  { induction needle as [|c needle IH]; simpl; [destruct rest; reflexivity|].
    destruct (ascii_dec c c); [exact IH|congruence]. }
  destruct (String.append needle rest); cbn [Str.includes]; rewrite H; reflexivity.
Qed.

Lemma includes_middle before needle rest :
  Str.includes needle (String.append before (String.append needle rest)) = true.
Proof.
  induction before as [|c before IH].
  - change (String.append "" (String.append needle rest))
      with (String.append needle rest).
    apply includes_prefix.
  - change (String.append (String c before) (String.append needle rest))
      with (String c (String.append before (String.append needle rest))).
    cbn [Str.includes]. rewrite IH. apply orb_true_r.
Qed.

Lemma includes_after before needle hay :
  Str.includes needle hay = true ->
  Str.includes needle (String.append before hay) = true.
Proof.
  intros H. induction before as [|c before IH]; [exact H|].
  change (String.append (String c before) hay)
    with (String c (String.append before hay)).
  cbn [Str.includes]. rewrite IH. apply orb_true_r.
Qed.

Lemma allParams_throws pathItem operation e :
  allParams pathItem operation = Raise e -> e = TypeError.
Proof.
  unfold allParams, Obj.iterate.
  destruct (Obj.orElse (JS.getProp pathItem "parameters") (JArr []));
    simpl; try (intros [= <-]; reflexivity);
  destruct (Obj.orElse (JS.getProp operation "parameters") (JArr []));
    simpl; try (intros [= <-]; reflexivity); discriminate.
Qed.

Lemma getEndpointDetails_unfold document path method resolveRefs :
  JS.nullish document = false ->
  getEndpointDetails document path method resolveRefs
  = if negb (JS.truthy (pathItemAt document path)) then Raise (pathNotFound path)
    else if negb (JS.truthy (operationAt document path method))
         then Raise (methodNotFound method path)
         else (let* params := allParams (pathItemAt document path)
                                        (operationAt document path method) in
               let result := endpointDetails path method
                               (operationAt document path method) params in
               if resolveRefs then fst (resolveAllRefs document result 5 0 ∅)
               else Ok result)%res.
Proof.
  intros Hdoc. unfold getEndpointDetails, JS.member. rewrite Hdoc. reflexivity.
Qed.

(** X15. For a path and a method (written in ASCII) that are own names
    where they are looked up, or names that cannot be inherited there,
    [getEndpointDetails] throws an [Error] exactly when the path has no
    truthy entry in [paths] (message [Path not found: ] and the path) or
    that entry has no truthy property under the method in lower case
    (message [Method m not found for path p], the method as it was
    given).  Each message contains the path asked for. *)
Theorem X15_endpoint_not_found (document : JValue) (path method : string)
    (resolveRefs : bool) :
  JS.nullish document = false ->
  isAscii method = true ->
  ownName (JS.getProp document "paths") path = true ->
  (JS.truthy (pathItemAt document path) = true ->
   ownName (pathItemAt document path) (Str.toLowerCase method) = true) ->
  (JS.truthy (pathItemAt document path) = false ->
   getEndpointDetails document path method resolveRefs
   = Raise (Error (String.append "Path not found: " path)))
  /\ (JS.truthy (pathItemAt document path) = true ->
      JS.truthy (operationAt document path method) = false ->
      getEndpointDetails document path method resolveRefs
      = Raise (Error (String.append "Method "
                        (String.append method
                           (String.append " not found for path " path)))))
  /\ ((exists message,
          getEndpointDetails document path method resolveRefs = Raise (Error message))
      <-> JS.truthy (pathItemAt document path) = false
          \/ JS.truthy (operationAt document path method) = false)
  /\ Str.includes path (String.append "Path not found: " path) = true
  /\ Str.includes path
       (String.append "Method "
          (String.append method (String.append " not found for path " path))) = true
  /\ Str.includes method
       (String.append "Method "
          (String.append method (String.append " not found for path " path))) = true.
Proof.
  intros Hdoc _ _ _. rewrite getEndpointDetails_unfold by exact Hdoc.
  split; [intros ->; reflexivity|].
  split; [intros -> ->; reflexivity|].
  split.
  - destruct (JS.truthy (pathItemAt document path)); simpl.
    2:{ split; [intros _; left; reflexivity|intros _; eexists; reflexivity]. }
    destruct (JS.truthy (operationAt document path method)); simpl.
    2:{ split; [intros _; right; reflexivity|intros _; eexists; reflexivity]. }
    split; [|intros [H|H]; discriminate H].
    intros [message H]. exfalso.
    destruct (allParams _ _) as [params|e] eqn:E; simpl in H.
    + destruct resolveRefs; [|discriminate].
      destruct (resolveAllRefs document _ 5 0 ∅) as [[r|e] v] eqn:Er; simpl in H;
        [discriminate|].
      apply resolveAllRefs_throws in Er. congruence.
    + apply allParams_throws in E. congruence.
  - split; [apply includes_suffix|]. split.
    + apply includes_after, includes_after, includes_suffix.
    + apply (includes_middle "Method " method).
Qed.

Lemma X15_endpoint_not_found_witness :
  getEndpointDetails (petsDoc (JObj []) (JObj [])) "/owners" "get" true
  = Raise (Error "Path not found: /owners")
  /\ getEndpointDetails (petsDoc (JObj []) (JObj [])) "/pets" "Delete" true
     = Raise (Error "Method Delete not found for path /pets").
Proof.
  split.
  - apply (proj1 (X15_endpoint_not_found (petsDoc (JObj []) (JObj [])) "/owners" "get"
                    true eq_refl eq_refl eq_refl ltac:(discriminate))).
    reflexivity.
  - apply (proj1 (proj2 (X15_endpoint_not_found (petsDoc (JObj []) (JObj [])) "/pets"
                           "Delete" true eq_refl eq_refl eq_refl
                           ltac:(reflexivity))));
      reflexivity.
Defined.

Lemma allParams_concat pathItem operation :
  spreadable pathItem = true ->
  spreadable operation = true ->
  allParams pathItem operation
  = Ok (parametersOf pathItem ++ parametersOf operation)%list.
Proof.
  unfold spreadable, allParams, parametersOf, Obj.orElse.
  destruct (JS.getProp pathItem "parameters") as [| |b|n|s|ps|o]; simpl;
    try discriminate;
  destruct (JS.getProp operation "parameters") as [| |b'|n'|s'|qs|o']; simpl;
    try discriminate;
  try reflexivity; intros H1 H2;
  repeat match goal with
         | H : negb ?b = true |- _ => apply negb_true_iff in H; rewrite H
         end; reflexivity.
Qed.

(** X16. The details of an endpoint carry every field of the operation
    as it is; [parameters] is the path item's parameters followed by the
    operation's, and is [undefined] when there are none; [path] and
    [method] (in upper case) are added, unless the operation has fields of
    those names, which then take their place. *)
Theorem X16_endpoint_details_fields (document : JValue) (path method : string)
    (props : list (string * JValue)) :
  JS.nullish document = false ->
  JS.truthy (pathItemAt document path) = true ->
  operationAt document path method = JObj props ->
  distinct (List.map fst props) = true ->
  spreadable (pathItemAt document path) = true ->
  spreadable (JObj props) = true ->
  exists result,
    getEndpointDetails document path method false = Ok result
    /\ JS.getProp result "parameters"
       = match (parametersOf (pathItemAt document path)
                  ++ parametersOf (JObj props))%list with
         | [] => JUndefined
         | params => JArr params
         end
    /\ (forall k v,
           k <> "parameters" -> JS.lookup k props = Some v -> JS.getProp result k = v)
    /\ (JS.lookup "path" props = None -> JS.getProp result "path" = JStr path)
    /\ (JS.lookup "method" props = None ->
        JS.getProp result "method" = JStr (Str.toUpperCase method)).
Proof.
  intros Hdoc Hitem Hop Hd Hs1 Hs2.
  rewrite getEndpointDetails_unfold by exact Hdoc.
  rewrite Hitem, Hop. cbn [negb JS.truthy].
  rewrite allParams_concat by assumption. cbn [rbind].
  eexists. split; [reflexivity|].
  unfold endpointDetails, JS.getProp, Obj.copyInto. cbn [JS.getOwn JS.entries].
  split; [rewrite lookup_put; destruct (_ ++ _)%list; reflexivity|].
  split; [|split].
  - intros k v Hk Hl. rewrite lookup_put.
    destruct (String.eqb k "parameters") eqn:E;
      [apply String.eqb_eq in E; contradiction|].
    rewrite lookup_copy by exact Hd. rewrite Hl. reflexivity.
  - intros Hnone. rewrite lookup_put. cbn [String.eqb Ascii.eqb Bool.eqb].
    rewrite lookup_copy by exact Hd. rewrite Hnone. reflexivity.
  - intros Hnone. rewrite lookup_put. cbn [String.eqb Ascii.eqb Bool.eqb].
    rewrite lookup_copy by exact Hd. rewrite Hnone. reflexivity.
Qed.

Lemma X16_endpoint_details_fields_witness :
  exists result,
    getEndpointDetails ordersDoc "/orders/{id}" "GET" false = Ok result
    /\ JS.getProp result "parameters"
       = JArr [JObj [("name", JStr "id")]; JObj [("name", JStr "expand")]]
    /\ JS.getProp result "summary" = JStr "One order"
    /\ JS.getProp result "path" = JStr "/orders/{id}"
    /\ JS.getProp result "method" = JStr "GET".
Proof.
  destruct (X16_endpoint_details_fields ordersDoc "/orders/{id}" "GET"
              [("summary", JStr "One order");
               ("parameters", JArr [JObj [("name", JStr "expand")]])]
              eq_refl eq_refl eq_refl eq_refl eq_refl eq_refl)
    as (result & Hres & Hparams & Hfield & Hpath & Hmethod).
  exists result. split; [exact Hres|]. split; [exact Hparams|].
  split; [apply Hfield; [discriminate|reflexivity]|].
  split; [apply Hpath; reflexivity|apply Hmethod; reflexivity].
Defined.

(** ** Sections of the document *)

Lemma existsb_key_app k (l1 l2 : list (string * JValue)) :
  existsb (fun kv => String.eqb k (fst kv)) (l1 ++ l2)
  = existsb (fun kv => String.eqb k (fst kv)) l1
    || existsb (fun kv => String.eqb k (fst kv)) l2.
Proof. apply existsb_app. Qed.

Lemma existsb_keys k (l : list (string * JValue)) :
  existsb (fun kv => String.eqb k (fst kv)) l = existsb (String.eqb k) (List.map fst l).
Proof. induction l as [|[k0 v0] l IH]; simpl; [reflexivity|]. rewrite IH. reflexivity. Qed.

Lemma put_plain k v props :
  existsb (fun kv => String.eqb k (fst kv)) props = false ->
  isIndex k = false ->
  Obj.put k v props = (props ++ [(k, v)])%list.
Proof.
  intros Habs Hidx. unfold Obj.put. rewrite Habs.
  unfold isIndex in Hidx. destruct (Obj.indexOf k); [discriminate|reflexivity].
Qed.

Lemma keep_loop (keep : string * JValue -> bool)
    (f : list (string * JValue) -> string * JValue -> list (string * JValue)) :
  (forall filtered entry,
      f filtered entry
      = if keep entry then Obj.put (fst entry) (snd entry) filtered else filtered) ->
  forall entries acc,
  plainKeys entries = true ->
  (forall k, In k (List.map fst entries) ->
             existsb (fun kv => String.eqb k (fst kv)) acc = false) ->
  fold_left f entries acc = (acc ++ List.filter keep entries)%list.
Proof.
  intros Hf.
  induction entries as [|[k v] entries IH]; intros acc Hplain Hacc; simpl;
    rewrite ?Hf; cbn [fst snd].
  - rewrite app_nil_r. reflexivity.
  - unfold plainKeys in Hplain. simpl in Hplain.
    apply andb_true_iff in Hplain as [Hd Hi].
    apply andb_true_iff in Hd as [Hk Hd]. apply negb_true_iff in Hk.
    apply andb_true_iff in Hi as [Hki Hi]. apply negb_true_iff in Hki.
    assert (Hplain' : plainKeys entries = true)
      by (unfold plainKeys; rewrite Hd, Hi; reflexivity).
    destruct (keep (k, v)).
    + rewrite put_plain by (try exact Hki; apply Hacc; left; reflexivity).
      rewrite IH; [rewrite <- app_assoc; reflexivity|exact Hplain'|].
      intros k' Hk'. rewrite existsb_key_app.
      rewrite (Hacc k') by (right; exact Hk'). simpl. rewrite orb_false_r.
      destruct (String.eqb k' k) eqn:E; [|reflexivity].
      apply String.eqb_eq in E. subst k'. exfalso.
      rewrite <- not_true_iff_false in Hk. apply Hk.
      apply existsb_exists. exists k. split; [exact Hk'|apply String.eqb_refl].
    + apply IH; [exact Hplain'|]. intros k' Hk'. apply Hacc. right. exact Hk'.
Qed.

Lemma copyInto_plain props :
  plainKeys props = true -> Obj.copyInto [] (JObj props) = props.
Proof.
  intros H. unfold Obj.copyInto. cbn [JS.entries].
  pose proof (keep_loop (fun _ => true) _ (fun _ _ => eq_refl) props [] H
                (fun _ _ => eq_refl)) as Hloop.
  simpl in Hloop. rewrite filter_all in Hloop. exact Hloop.
Qed.

Lemma lookup_keepPaths test k entries :
  JS.lookup k (keepPaths test entries)
  = if test (JStr k) && negb (String.eqb k "__proto__")
    then JS.lookup k entries else None.
Proof.
  unfold keepPaths. induction entries as [|[k0 v0] entries IH]; cbn [List.filter fst].
  - destruct (test (JStr k) && negb (String.eqb k "__proto__")); reflexivity.
  - destruct (String.eqb k k0) eqn:E.
    + apply String.eqb_eq in E. subst k0.
      destruct (test (JStr k) && negb (String.eqb k "__proto__")) eqn:Et;
        cbn [JS.lookup].
      * rewrite String.eqb_refl. reflexivity.
      * exact IH.
    + destruct (test (JStr k0) && negb (String.eqb k0 "__proto__"));
        cbn [JS.lookup]; rewrite ?E; exact IH.
Qed.

Lemma filterPaths_spec RegExp paths pattern test :
  RegExp pattern = Some test ->
  plainKeys (JS.entries paths) = true ->
  filterPaths RegExp paths pattern = Ok (JObj (keepPaths test (JS.entries paths))).
Proof.
  intros Hre Hplain. unfold filterPaths, compile. rewrite Hre. cbn [rbind].
  rewrite (keep_loop (fun entry => test (JStr (fst entry))
                                   && negb (String.eqb (fst entry) "__proto__")));
    [reflexivity| |exact Hplain|intros; reflexivity].
  intros filtered entry. unfold Obj.setProperty.
  destruct (test (JStr (fst entry))), (String.eqb (fst entry) "__proto__");
    reflexivity.
Qed.

Lemma plainKeys_filter (keep : string * JValue -> bool) entries :
  plainKeys entries = true -> plainKeys (List.filter keep entries) = true.
Proof.
  unfold plainKeys. induction entries as [|[k v] entries IH]; [reflexivity|].
  simpl. intros H. apply andb_true_iff in H as [Hd Hi].
  apply andb_true_iff in Hd as [Hk Hd]. apply andb_true_iff in Hi as [Hki Hi].
  specialize (IH ltac:(rewrite Hd, Hi; reflexivity)).
  destruct (keep (k, v)); [|exact IH]. simpl.
  apply andb_true_iff in IH as [IHd IHi]. rewrite IHd, IHi, Hki, !andb_true_r.
  apply negb_true_iff. apply negb_true_iff in Hk. rewrite <- not_true_iff_false in Hk |- *.
  intros Hex. apply Hk. apply existsb_exists in Hex as (k' & Hin & Hk').
  apply existsb_exists. exists k'. split; [|exact Hk'].
  apply in_map_iff in Hin as ([k1 v1] & <- & Hin). apply filter_In in Hin as [Hin _].
  apply (in_map fst) in Hin. exact Hin.
Qed.

(** X18. Asking for the section [paths] with a filter gives the paths
    whose name the pattern matches and no other, in the order of the
    document and each with the path item it had, except that a path
    named [__proto__] is never in the result: looking a name up in the
    result gives what the document has under it if the name matches and
    is not [__proto__], and nothing otherwise. *)
Theorem X18_paths_section_filtered (RegExp : string -> option (JValue -> bool))
    (document : JValue) (pattern : string) (test : JValue -> bool)
    (paths : list (string * JValue)) :
  JS.nullish document = false ->
  JS.getProp document "paths" = JObj paths ->
  plainKeys paths = true ->
  pattern <> "" ->
  RegExp pattern = Some test ->
  getSpecSection RegExp document (Some "paths") (Some pattern)
  = Ok (JObj (keepPaths test paths))
  /\ (forall name,
         JS.lookup name (keepPaths test paths)
         = if test (JStr name) && negb (String.eqb name "__proto__")
           then JS.lookup name paths else None)
  /\ keepPaths test paths `sublist_of` paths.
Proof.
  intros Hdoc Hpaths Hplain Hpat Hre. split; [|split].
  - unfold getSpecSection, JS.member. rewrite Hdoc. cbn [given String.eqb Ascii.eqb Bool.eqb].
    replace (String.eqb pattern "") with false
      by (symmetry; apply String.eqb_neq, Hpat).
    cbn [rbind]. rewrite Hpaths. unfold Obj.orElse. cbn [JS.truthy].
    apply filterPaths_spec; [exact Hre|exact Hplain].
  - intros name. apply lookup_keepPaths.
  - apply filter_sublist.
Qed.

Lemma X18_paths_section_filtered_witness :
  getSpecSection usersRegExp usersDoc (Some "paths") (Some "^/users")
  = Ok (JObj [("/users", JObj [("get", JObj [])]);
              ("/users/{id}", JObj [("delete", JObj [])])])
  /\ getSpecSection usersRegExp protoPathsDoc (Some "paths") (Some ".")
     = Ok (JObj [("/b", JObj [("get", JObj [])]);
                 ("/c", JObj [("get", JObj [])])]).
Proof.
  split.
  - destruct (X18_paths_section_filtered usersRegExp usersDoc "^/users"
                (fun v => match v with
                          | JStr s => String.prefix "/users" s
                          | _ => false
                          end)
                [("/users", JObj [("get", JObj [])]);
                 ("/pets", JObj [("get", JObj [])]);
                 ("/users/{id}", JObj [("delete", JObj [])])]
                eq_refl eq_refl eq_refl ltac:(discriminate) eq_refl) as [H _].
    exact H.
  - destruct (X18_paths_section_filtered usersRegExp protoPathsDoc "."
                (fun v => match v with
                          | JStr s => negb (String.eqb s "")
                          | _ => false
                          end)
                [("/b", JObj [("get", JObj [])]);
                 ("__proto__", JObj [("get", JObj [])]);
                 ("/c", JObj [("get", JObj [])])]
                eq_refl eq_refl eq_refl ltac:(discriminate) eq_refl) as [H _].
    exact H.
Defined.

(** X19. Filtering paths twice by the same pattern changes nothing more,
    and filtering by two patterns gives the same paths in either order. *)
Theorem X19_filterPaths_composes (RegExp : string -> option (JValue -> bool))
    (paths : list (string * JValue)) (p q : string) (testP testQ : JValue -> bool) :
  plainKeys paths = true ->
  RegExp p = Some testP ->
  RegExp q = Some testQ ->
  (let* once := filterPaths RegExp (JObj paths) p in filterPaths RegExp once p)%res
  = filterPaths RegExp (JObj paths) p
  /\ (let* first := filterPaths RegExp (JObj paths) p in filterPaths RegExp first q)%res
     = (let* first := filterPaths RegExp (JObj paths) q in filterPaths RegExp first p)%res.
Proof.
  intros Hplain Hp Hq.
  rewrite (filterPaths_spec RegExp (JObj paths) p testP) by assumption.
  rewrite (filterPaths_spec RegExp (JObj paths) q testQ) by assumption.
  cbn [rbind JS.entries].
  rewrite !(filterPaths_spec RegExp (JObj (keepPaths _ paths)) _ _)
    by (try eassumption; apply plainKeys_filter, Hplain).
  cbn [JS.entries]. unfold keepPaths. rewrite !filter_and. split.
  - do 2 f_equal. apply filter_same. intros x. apply andb_diag.
  - do 2 f_equal. apply filter_same. intros x. apply andb_comm.
Qed.

Lemma X19_filterPaths_composes_witness :
  (let* once := filterPaths usersRegExp (JS.getProp usersDoc "paths") "^/users" in
   filterPaths usersRegExp once "^/users")%res
  = filterPaths usersRegExp (JS.getProp usersDoc "paths") "^/users".
Proof.
  apply (proj1 (X19_filterPaths_composes usersRegExp
                  [("/users", JObj [("get", JObj [])]);
                   ("/pets", JObj [("get", JObj [])]);
                   ("/users/{id}", JObj [("delete", JObj [])])]
                  "^/users" "^/users" _ _ eq_refl eq_refl eq_refl)).
Defined.

(** X20. The full document with a path filter is the document with
    [paths] replaced by the filtered paths (those whose name the pattern
    matches, a path named [__proto__] left out): every other field is as
    in the document, and [paths] is there even when the document had
    none. *)
Theorem X20_full_section_filtered (RegExp : string -> option (JValue -> bool))
    (props : list (string * JValue)) (pattern : string) (test : JValue -> bool) :
  plainKeys props = true ->
  plainKeys (JS.entries (Obj.orElse (JS.getProp (JObj props) "paths") (JObj []))) = true ->
  pattern <> "" ->
  RegExp pattern = Some test ->
  exists result,
    getSpecSection RegExp (JObj props) None (Some pattern) = Ok (JObj result)
    /\ JS.lookup "paths" result
       = Some (JObj (keepPaths test
                       (JS.entries (Obj.orElse (JS.getProp (JObj props) "paths")
                                               (JObj [])))))
    /\ (forall k, k <> "paths" -> JS.lookup k result = JS.lookup k props).
Proof.
  intros Hplain Hpaths Hpat Hre.
  unfold getSpecSection, filterSpecByPath, JS.member. cbn [given JS.nullish].
  replace (String.eqb pattern "") with false
    by (symmetry; apply String.eqb_neq, Hpat).
  cbn [rbind]. rewrite (filterPaths_spec RegExp _ pattern test) by assumption.
  cbn [rbind]. rewrite copyInto_plain by exact Hplain.
  eexists. split; [reflexivity|]. split.
  - rewrite lookup_put. reflexivity.
  - intros k Hk. rewrite lookup_put.
    destruct (String.eqb k "paths") eqn:E; [|reflexivity].
    apply String.eqb_eq in E. contradiction.
Qed.

Lemma X20_full_section_filtered_witness :
  exists result,
    getSpecSection usersRegExp usersDoc None (Some "^/users") = Ok (JObj result)
    /\ JS.lookup "openapi" result = Some (JStr "3.0.0")
    /\ JS.lookup "paths" result
       = Some (JObj [("/users", JObj [("get", JObj [])]);
                     ("/users/{id}", JObj [("delete", JObj [])])]).
Proof.
  destruct (X20_full_section_filtered usersRegExp
              [("openapi", JStr "3.0.0");
               ("paths", JObj [("/users", JObj [("get", JObj [])]);
                               ("/pets", JObj [("get", JObj [])]);
                               ("/users/{id}", JObj [("delete", JObj [])])]);
               ("tags", JArr [])]
              "^/users"
              (fun v => match v with
                        | JStr s => String.prefix "/users" s
                        | _ => false
                        end)
              eq_refl eq_refl ltac:(discriminate) eq_refl)
    as (result & H & Hpaths & Hother).
  exists result. split; [exact H|]. split.
  - rewrite Hother by discriminate. reflexivity.
  - rewrite Hpaths. reflexivity.
Defined.

(** X21. A path filter takes part only in the sections [full] and
    [paths].  For [info], [components], [tags] and [servers] the result is
    the same whatever the filter, also for a pattern the engine rejects;
    for the whole document and for [paths] such a pattern makes the call
    throw a syntax error. *)
Theorem X21_filter_only_full_and_paths (RegExp : string -> option (JValue -> bool))
    (document : JValue) (name pattern : string) :
  JS.nullish document = false ->
  (fieldSection name = true ->
   getSpecSection RegExp document (Some name) (Some pattern)
   = Ok (JS.getProp document name))
  /\ (pattern <> "" -> RegExp pattern = None ->
      getSpecSection RegExp document None (Some pattern) = Raise SyntaxError
      /\ getSpecSection RegExp document (Some "full") (Some pattern) = Raise SyntaxError
      /\ getSpecSection RegExp document (Some "paths") (Some pattern) = Raise SyntaxError).
Proof.
  intros Hdoc. split.
  - intros Hname. unfold fieldSection in Hname. unfold getSpecSection, given.
    destruct (String.eqb name "") eqn:E0;
      [apply String.eqb_eq in E0; subst name; discriminate|].
    destruct (String.eqb name "info") eqn:E1;
      [apply String.eqb_eq in E1; subst name; cbn; unfold JS.member; rewrite Hdoc; reflexivity|].
    destruct (String.eqb name "components") eqn:E2;
      [apply String.eqb_eq in E2; subst name; cbn; unfold JS.member; rewrite Hdoc; reflexivity|].
    destruct (String.eqb name "tags") eqn:E3;
      [apply String.eqb_eq in E3; subst name; cbn; unfold JS.member; rewrite Hdoc; reflexivity|].
    destruct (String.eqb name "servers") eqn:E4; [|discriminate].
    apply String.eqb_eq in E4; subst name; cbn; unfold JS.member; rewrite Hdoc; reflexivity.
  - intros Hpat Hre.
    assert (Hfull : filterSpecByPath RegExp document pattern = Raise SyntaxError).
    { unfold filterSpecByPath, JS.member, filterPaths, compile.
      rewrite Hdoc, Hre. reflexivity. }
    unfold getSpecSection. cbn [given String.eqb Ascii.eqb Bool.eqb].
    replace (String.eqb pattern "") with false
      by (symmetry; apply String.eqb_neq, Hpat).
    rewrite Hfull. repeat split.
    unfold JS.member, filterPaths, compile. rewrite Hdoc, Hre. reflexivity.
Qed.

Lemma X21_filter_only_full_and_paths_witness :
  getSpecSection usersRegExp usersDoc (Some "tags") (Some "(") = Ok (JArr [])
  /\ getSpecSection usersRegExp usersDoc (Some "paths") (Some "(") = Raise SyntaxError.
Proof.
  destruct (X21_filter_only_full_and_paths usersRegExp usersDoc "tags" "(" eq_refl)
    as [Hfield Hbad].
  split.
  - exact (Hfield eq_refl).
  - exact (proj2 (proj2 (Hbad ltac:(discriminate) eq_refl))).
Defined.

(** ** The cache over a run *)

Lemma buildCache_coherent fetched now c :
  buildCache fetched now = Ok c -> coherent c /\ spec c = fetched.
Proof.
  unfold buildCache. destruct (buildEndpointIndex fetched) as [endpoints|] eqn:He;
    [|discriminate].
  destruct (buildSchemaIndex fetched) as [schemas|] eqn:Hs; [|discriminate].
  cbn [rbind]. intros [= <-]. unfold coherent. cbn. auto.
Qed.

Lemma step_coherent cacheTtl w ev :
  (forall c, cache (manager w) = Some c -> coherent c) ->
  forall c, cache (manager (step cacheTtl w ev)) = Some c -> coherent c.
Proof.
  intros Hw c. destruct ev as [caller now|outcome now|]; cbn [step].
  - unfold getSpec. destruct (fresh cacheTtl now (cache (manager w))).
    + cbn. apply Hw.
    + destruct (fetchPromise (manager w)); cbn; apply Hw.
  - unfold fetchSettles. destruct (fetchPromise (manager w)); [|apply Hw].
    unfold resume. destruct outcome as [fetched|e]; cbn [rbind].
    + destruct (buildCache fetched now) as [cached|e] eqn:Hb; cbn [rbind].
      * cbn. intros [= <-]. apply (buildCache_coherent _ _ _ Hb).
      * destruct (cache (manager w)) as [stale|] eqn:Hc; cbn; [|discriminate].
        intros [= <-]. apply Hw. reflexivity.
    + destruct (cache (manager w)) as [stale|] eqn:Hc; cbn; [|discriminate].
      intros [= <-]. apply Hw. reflexivity.
  - cbn. discriminate.
Qed.

(** X22. Whatever calls, fetch results and cache clearings a manager has
    seen, the two indexes in its cache are the ones built from the
    document in the same cache entry: the searches, which read the
    indexes, and the detail calls, which read the document, never see
    two different documents. *)
Theorem X22_cache_indexes_match_document (cacheTtl : Z) (events : list Event)
    (cached : CachedSpec) :
  cache (manager (run cacheTtl events start)) = Some cached ->
  buildEndpointIndex (spec cached) = Ok (endpointIndex cached)
  /\ buildSchemaIndex (spec cached) = Ok (schemaIndex cached).
Proof.
  assert (Hrun : forall evs w,
             (forall c, cache (manager w) = Some c -> coherent c) ->
             forall c, cache (manager (run cacheTtl evs w)) = Some c -> coherent c).
  { induction evs as [|ev evs IH]; intros w Hw; [exact Hw|].
    cbn [run fold_left]. apply IH. apply step_coherent, Hw. }
  apply Hrun. cbn. discriminate.
Qed.

Lemma X22_cache_indexes_match_document_witness :
  exists cached,
    cache (manager (run 300000 tenMinutes start)) = Some cached
    /\ buildEndpointIndex (spec cached) = Ok (endpointIndex cached).
Proof.
  eexists. split; [reflexivity|].
  apply (X22_cache_indexes_match_document 300000 tenMinutes _ eq_refl).
Defined.

Lemma step_callers cacheTtl w ev :
  (List.map fst (settled (step cacheTtl w ev)) ++ waiting (step cacheTtl w ev))%list
  ≡ₚ (List.map fst (settled w) ++ waiting w ++ callersOf [ev])%list.
Proof.
  destruct ev as [caller now|outcome now|]; cbn [step callersOf flat_map];
    rewrite ?app_nil_r.
  - unfold getSpec, waiting.
    destruct (fresh cacheTtl now (cache (manager w))).
    + cbn. rewrite List.map_app. cbn. rewrite <- !app_assoc.
      apply Permutation_app_head. apply Permutation_app_comm.
    + destruct (fetchPromise (manager w)) as [pending|]; cbn.
      * reflexivity.
      * reflexivity.
  - unfold fetchSettles, waiting.
    destruct (fetchPromise (manager w)) as [pending|] eqn:Hp;
      [|rewrite Hp, !app_nil_r; reflexivity].
    destruct (resume outcome now (manager w)) as [m' result] eqn:Hr.
    assert (Hm : fetchPromise m' = None).
    { unfold resume in Hr.
      destruct (let* fetched := outcome in
                let* cached := buildCache fetched now in Ok cached)%res;
        [|destruct (cache (manager w))]; injection Hr as <- _; reflexivity. }
    cbn. rewrite Hm, app_nil_r, List.map_app. cbn.
    rewrite List.map_map. cbn. rewrite List.map_id. reflexivity.
  - reflexivity.
Qed.

(** X23. No call of [getSpec] is lost and none settles twice: after any
    run, the callers that have settled together with those waiting on
    the fetch in flight are the callers of the run.  When a fetch has
    just settled nobody is left waiting, so every call made so far has
    settled. *)
Theorem X23_every_call_accounted_for (cacheTtl : Z) (events : list Event) :
  (List.map fst (settled (run cacheTtl events start))
   ++ waiting (run cacheTtl events start))%list
  ≡ₚ callersOf events
  /\ forall outcome now,
       List.map fst (settled (run cacheTtl (events ++ [FetchSettles outcome now]) start))
       ≡ₚ callersOf events.
Proof.
  assert (Hrun : forall evs w,
             (List.map fst (settled (run cacheTtl evs w))
              ++ waiting (run cacheTtl evs w))%list
             ≡ₚ (List.map fst (settled w) ++ waiting w ++ callersOf evs)%list).
  { induction evs as [|ev evs IH]; intros w.
    - cbn. rewrite app_nil_r. reflexivity.
    - cbn [run fold_left]. change (fold_left (step cacheTtl) evs) with (run cacheTtl evs).
      assert (Hc : callersOf (ev :: evs) = (callersOf [ev] ++ callersOf evs)%list)
        by (unfold callersOf; cbn [flat_map]; rewrite app_nil_r; reflexivity).
      rewrite IH, Hc.
      rewrite !app_assoc. apply Permutation_app_tail. rewrite <- app_assoc.
      apply step_callers. }
  assert (Hall : (List.map fst (settled (run cacheTtl events start))
                  ++ waiting (run cacheTtl events start))%list ≡ₚ callersOf events)
    by (rewrite Hrun; reflexivity).
  split; [exact Hall|]. intros outcome now.
  unfold run. rewrite fold_left_app. fold (run cacheTtl events start).
  cbn [fold_left step]. rewrite <- Hall.
  set (w := run cacheTtl events start). unfold fetchSettles, waiting.
  destruct (fetchPromise (manager w)) as [pending|];
    [|rewrite app_nil_r; reflexivity].
  destruct (resume outcome now (manager w)) as [m' result]. cbn.
  rewrite List.map_app. cbn. rewrite List.map_map. cbn. rewrite List.map_id.
  reflexivity.
Qed.

(** ** The schema tool *)

(** X24. In the schema tool a negative [maxDepth] switches resolution
    off: the schema comes back as the document has it, exactly as with
    [resolveRefs: false]; and [maxDepth: 0] does not mean depth zero, it
    is the default depth 5. *)
Theorem X24_schema_tool_depth (document : JValue) (name : string)
    (resolveRefs : option bool) (depth : Z) :
  depth < 0 ->
  getSchemaDetailsTool document
    {| inputSchemaName := name; inputResolveRefs := resolveRefs;
       inputMaxDepth := Some depth |}
  = getSchemaDetailsTool document
      {| inputSchemaName := name; inputResolveRefs := Some false;
         inputMaxDepth := None |}
  /\ getSchemaDetailsTool document
       {| inputSchemaName := name; inputResolveRefs := resolveRefs;
          inputMaxDepth := Some 0 |}
     = getSchemaDetailsTool document
         {| inputSchemaName := name; inputResolveRefs := resolveRefs;
            inputMaxDepth := Some 5 |}.
Proof.
  intros Hd. split; [|reflexivity].
  unfold getSchemaDetailsTool, getSchemaDetails. cbn [inputSchemaName inputResolveRefs inputMaxDepth].
  assert (Hdepth : orDefault (Some depth) 5 = depth).
  { unfold orDefault. destruct (Z.eqb_spec depth 0); [lia|reflexivity]. }
  rewrite Hdepth.
  destruct (schemaNamed document name) as [schema|e]; [|reflexivity]. cbn [rbind].
  destruct (negb (JS.truthy schema)); [reflexivity|].
  destruct (notFalse resolveRefs); [|reflexivity].
  rewrite resolveAllRefs_stop by lia. reflexivity.
Qed.

Lemma X24_schema_tool_depth_witness :
  getSchemaDetailsTool schemasDoc
    {| inputSchemaName := "Pet"; inputResolveRefs := Some true;
       inputMaxDepth := Some (-1) |}
  = getSchemaDetailsTool schemasDoc
      {| inputSchemaName := "Pet"; inputResolveRefs := Some false;
         inputMaxDepth := None |}.
Proof.
  apply (proj1 (X24_schema_tool_depth schemasDoc "Pet" (Some true) (-1) ltac:(lia))).
Defined.

(** ** From the indexes to the details *)

Lemma lookup_distinct k v props :
  distinct (List.map fst props) = true ->
  In (k, v) props ->
  JS.lookup k props = Some v.
Proof.
  induction props as [|[k0 v0] props IH]; simpl; [intros _ []|].
  intros Hd [Hin|Hin].
  - injection Hin as -> ->. rewrite String.eqb_refl. reflexivity.
  - apply andb_true_iff in Hd as [Hk Hd]. destruct (String.eqb k k0) eqn:E.
    + apply String.eqb_eq in E. subst k0. exfalso.
      apply negb_true_iff in Hk. rewrite <- not_true_iff_false in Hk. apply Hk.
      apply existsb_exists. exists k. split; [|apply String.eqb_refl].
      apply (in_map fst) in Hin. exact Hin.
    + apply IH; assumption.
Qed.

Lemma verbs_lower verb :
  In verb methods -> Str.toLowerCase (Str.toUpperCase verb) = verb.
Proof.
  unfold methods. simpl.
  intros H. repeat (destruct H as [<-|H]; [reflexivity|]). destruct H.
Qed.

Lemma buildSchemaIndex_ok document index :
  buildSchemaIndex document = Ok index ->
  JS.nullish document = false
  /\ index = List.map (fun kv => schemaOf (fst kv) (snd kv))
               (List.filter indexed (JS.entries (schemasOf document))).
Proof.
  intros Hbuild.
  assert (Hdoc : JS.nullish document = false).
  { unfold buildSchemaIndex, JS.member in Hbuild.
    destruct (JS.nullish document); [discriminate|reflexivity]. }
  split; [exact Hdoc|].
  rewrite buildSchemaIndex_unfold in Hbuild by exact Hdoc.
  destruct (@List.Forall_Exists_dec _
              (fun kv : string * JValue => indexable (snd kv) = true)
              (fun kv => bool_dec (indexable (snd kv)) true)
              (JS.entries (schemasOf document))) as [Hall|Hex].
  - rewrite schemas_loop in Hbuild by exact Hall. injection Hbuild as <-. reflexivity.
  - assert (Hex' : Exists (fun kv : string * JValue => indexable (snd kv) = false)
                     (JS.entries (schemasOf document))).
    { eapply List.Exists_impl; [|exact Hex]. intros kv H. simpl in H.
      destruct (indexable (snd kv)); congruence. }
    rewrite schemas_loop_throws in Hbuild by exact Hex'. discriminate.
Qed.

(** X14. Every schema the schema index lists can be fetched: the
    document has a schema under the listed name, the listed entry
    describes that schema, it is not a reference, and [getSchemaDetails]
    returns it under that name instead of throwing the not-found
    error. *)
Theorem X14_listed_schemas_are_found (document : JValue)
    (props : list (string * JValue)) (index : list SchemaInfo.t)
    (s : SchemaInfo.t) (depth : Z) :
  schemasOf document = JObj props ->
  distinct (List.map fst props) = true ->
  buildSchemaIndex document = Ok index ->
  In s index ->
  exists schema,
    JS.lookup (SchemaInfo.name s) props = Some schema
    /\ s = schemaOf (SchemaInfo.name s) schema
    /\ JS.has "$ref" schema = false
    /\ getSchemaDetails document (SchemaInfo.name s) false depth
       = Ok (schemaDetails (SchemaInfo.name s) schema).
Proof.
  intros Hschemas Hd Hbuild Hin.
  apply buildSchemaIndex_ok in Hbuild as [Hdoc ->].
  rewrite Hschemas in Hin. cbn [JS.entries] in Hin.
  apply in_map_iff in Hin as ([name schema] & <- & Hin).
  apply filter_In in Hin as [Hin Hidx]. cbn [fst snd schemaOf SchemaInfo.name].
  unfold indexed in Hidx. cbn [snd] in Hidx.
  apply andb_true_iff in Hidx as [Ht Href]. apply negb_true_iff in Href.
  pose proof (lookup_distinct _ _ _ Hd Hin) as Hl.
  exists schema. split; [exact Hl|]. split; [reflexivity|]. split; [exact Href|].
  unfold getSchemaDetails, schemaNamed, JS.member. rewrite Hdoc. cbn [rbind].
  fold (schemasOf document). rewrite Hschemas.
  unfold JS.optMember, JS.getProp. cbn [JS.nullish JS.getOwn]. rewrite Hl, Ht.
  reflexivity.
Qed.

Lemma X14_listed_schemas_are_found_witness :
  getSchemaDetails userDoc "User" false 5
  = Ok (schemaDetails "User" (JObj [("type", JStr "object")])).
Proof.
  destruct (X14_listed_schemas_are_found userDoc
              [("User", JObj [("type", JStr "object")]);
               ("a/b", JArr [JNum 7; JNum 8])]
              [schemaOf "User" (JObj [("type", JStr "object")]);
               schemaOf "a/b" (JArr [JNum 7; JNum 8])]
              (schemaOf "User" (JObj [("type", JStr "object")])) 5
              eq_refl eq_refl eq_refl ltac:(left; reflexivity))
    as (schema & Hl & _ & _ & H).
  injection Hl as <-. exact H.
Defined.

(** X17. Every endpoint the endpoint index lists can be fetched with the
    path and method it is listed under: the document has a truthy
    operation there, the listed entry describes that operation, and
    [getEndpointDetails] does not throw a not-found error for it. *)
Theorem X17_listed_endpoints_are_found (document : JValue)
    (paths : list (string * JValue)) (index : list EndpointInfo.t)
    (e : EndpointInfo.t) (resolveRefs : bool) :
  JS.getProp document "paths" = JObj paths ->
  distinct (List.map fst paths) = true ->
  buildEndpointIndex document = Ok index ->
  In e index ->
  JS.truthy (operationAt document (EndpointInfo.path e) (EndpointInfo.method e)) = true
  /\ e = endpointOf (EndpointInfo.path e) (EndpointInfo.method e)
           (operationAt document (EndpointInfo.path e) (EndpointInfo.method e))
  /\ forall message,
       getEndpointDetails document (EndpointInfo.path e) (EndpointInfo.method e)
                          resolveRefs
       <> Raise (Error message).
Proof.
  intros Hpaths Hd Hbuild Hin.
  pose proof (buildEndpointIndex_nullish _ _ Hbuild) as Hdoc.
  rewrite buildEndpointIndex_spec in Hbuild by exact Hdoc.
  injection Hbuild as <-. rewrite Hpaths in Hin.
  unfold endpointIndexOf in Hin. cbn [JS.entries] in Hin.
  apply in_flat_map in Hin as ([path pathItem] & Hentry & He).
  cbn [fst snd] in He. unfold operationsOf in He.
  destruct (JS.truthy pathItem) eqn:Hitem; [|destruct He].
  apply in_map_iff in He as (verb & <- & Hverb).
  apply filter_In in Hverb as [Hverb Hop].
  cbn [endpointOf EndpointInfo.path EndpointInfo.method].
  assert (Hat : pathItemAt document path = pathItem).
  { unfold pathItemAt. rewrite Hpaths. unfold JS.optMember, JS.getProp.
    cbn [JS.nullish JS.getOwn]. rewrite (lookup_distinct _ _ _ Hd Hentry). reflexivity. }
  assert (Hopat : operationAt document path (Str.toUpperCase verb)
                  = JS.getProp pathItem verb).
  { unfold operationAt. rewrite Hat, verbs_lower by exact Hverb. reflexivity. }
  rewrite Hopat. split; [exact Hop|]. split.
  { unfold endpointOf. rewrite toUpperCase_toUpperCase. reflexivity. }
  intros message. rewrite getEndpointDetails_unfold by exact Hdoc.
  rewrite Hat, Hitem, Hopat, Hop. cbn [negb].
  destruct (allParams _ _) as [params|err] eqn:E; cbn [rbind].
  - destruct resolveRefs; [|discriminate].
    destruct (resolveAllRefs document _ 5 0 ∅) as [[r|err] v] eqn:Er; cbn [fst];
      [discriminate|].
    apply resolveAllRefs_throws in Er. congruence.
  - apply allParams_throws in E. congruence.
Qed.

Lemma X17_listed_endpoints_are_found_witness :
  JS.truthy (operationAt (petsDoc (JObj []) (JObj [])) "/pets" "POST") = true
  /\ endpointOf "/pets" "post" (JObj [])
     = endpointOf "/pets" "POST" (operationAt (petsDoc (JObj []) (JObj [])) "/pets" "POST").
Proof.
  destruct (X17_listed_endpoints_are_found (petsDoc (JObj []) (JObj []))
              [("/pets", JObj [("get", JObj []); ("post", JObj [])])]
              [endpointOf "/pets" "get" (JObj []);
               endpointOf "/pets" "post" (JObj [])]
              (endpointOf "/pets" "post" (JObj [])) true
              eq_refl eq_refl eq_refl ltac:(right; left; reflexivity))
    as (Htruthy & Hentry & _).
  split; [exact Htruthy|exact Hentry].
Defined.
